(** * d_scale_model.py: one scale of the multi-scale discriminator

    A shallow embedding of [DScaleModel] (Code/d_scale_model.py).  The Python
    class builds a TensorFlow graph when it is constructed and the graph is
    evaluated later, once per batch.  The embedding therefore has three
    layers:

    - [tf]: the TensorFlow operations the file calls, as a graph datatype
      with TensorFlow's static shape inference (what raises while the graph
      is built) and an evaluator over real-valued tensors (what a session
      computes when the graph is run);
    - [tfutils], [constants]: the two helper modules the file imports;
    - [DScaleModel]: [__init__], [define_graph] and the nested
      [generate_predictions], written in a state-and-exception monad over
      the Python heap and the graph's variable collection.

    Python integers are [Z]; [/] on integers is Python 2 floor division (its
    result is used as a tensor dimension at d_scale_model.py:89, which only
    an integer can be).  Tensor elements are real numbers: float32 rounding,
    overflow and NaN are outside the model.  The theorems below
    therefore state no value and no bound of a prediction; the evaluator
    is used for the shape of a result, for which variables a run reads
    and writes, and to compare two runs of the same graph. *)

From Stdlib Require Import ZArith List Lia String QArith Reals Lra Qreals.
From stdpp Require Import base option list gmap.

Open Scope Z_scope.

(** ** Exceptions and results *)

Inductive exn : Type :=
| AssertionError (msg : string)
| IndexError
| TypeError
| ValueError (msg : string)
| InvalidArgumentError (msg : string)
| ConfigurationError.

Inductive result (A : Type) : Type :=
| Ok (a : A)
| Raise (e : exn).

Arguments Ok {A} a.
Arguments Raise {A} e.

Definition rbind {A B} (r : result A) (k : A -> result B) : result B :=
  match r with
  | Ok a => k a
  | Raise e => Raise e
  end.

Declare Scope result_scope.
Delimit Scope result_scope with res.
Notation "x <~ e ;; k" := (rbind e (fun x => k))
  (at level 100, e at next level, k at level 200, right associativity,
   format "'[v' x  <~  e  ;;  '/' k ']'").

Definition is_ok {A} (r : result A) : bool :=
  match r with Ok _ => true | Raise _ => false end.

(** Python's [l[i]]: negative indices count from the end, anything outside
    [-len, len) raises [IndexError]. *)
Definition py_index {A} (l : list A) (i : Z) : result A :=
  let n := Z.of_nat (length l) in
  let j := if i <? 0 then n + i else i in
  if (0 <=? j) && (j <? n)
  then match l !! Z.to_nat j with Some a => Ok a | None => Raise IndexError end
  else Raise IndexError.

(** Python's [range(n)]. *)
Definition range (n : Z) : list Z := map Z.of_nat (seq 0 (Z.to_nat n)).

(** [for x in xs: s = body x s] in the exception monad. *)
Fixpoint rfor {A S} (xs : list A) (body : A -> S -> result S) (s : S)
  : result S :=
  match xs with
  | [] => Ok s
  | x :: xs' => s' <~ body x s ;; rfor xs' body s'
  end.

Definition prod (s : list Z) : Z := fold_right Z.mul 1 s.

(** ** State and exceptions

    A computation that reads and writes a state of type [S] and may raise;
    what was written before an exception stays written. *)

Definition ST (S A : Type) : Type := S -> S * result A.

Definition ret {S A} (a : A) : ST S A := fun σ => (σ, Ok a).
Definition raise {S A} (e : exn) : ST S A := fun σ => (σ, Raise e).
Definition lift {S A} (r : result A) : ST S A := fun σ => (σ, r).
Definition bind {S A B} (m : ST S A) (k : A -> ST S B) : ST S B :=
  fun σ => match m σ with
           | (σ', Ok a) => k a σ'
           | (σ', Raise e) => (σ', Raise e)
           end.

Notation "x <- e ;; k" := (bind e (fun x => k))
  (at level 100, e at next level, k at level 200, right associativity,
   format "'[v' x  <-  e  ;;  '/' k ']'").

Fixpoint mfor {S A T} (xs : list A) (body : A -> T -> ST S T) (s : T)
  : ST S T :=
  match xs with
  | [] => ret s
  | x :: xs' => s' <- body x s ;; mfor xs' body s'
  end.

(** ** TensorFlow *)

Module tf.

Inductive padding : Type := SAME | VALID.

(** A static dimension is a number or unknown ([None] in Python). *)
Definition dim := option Z.

Definition known (s : list Z) : list dim := map Some s.

Fixpoint concrete (s : list dim) : option (list Z) :=
  match s with
  | [] => Some []
  | Some d :: s' => match concrete s' with
                    | Some r => Some (d :: r)
                    | None => None
                    end
  | None :: _ => None
  end.

Definition compatible (a b : dim) : bool :=
  match a, b with
  | Some x, Some y => x =? y
  | _, _ => true
  end.

(** Output size of a window of size [k] moved with stride [s] over a
    dimension of size [i] (convolution and pooling share this rule). *)
Definition window_out (i k s : Z) (p : padding) : result Z :=
  if s <=? 0 then Raise (ValueError "stride must be positive") else
  match p with
  | VALID =>
      if i <? k
      then Raise (ValueError "Negative dimension size")
      else Ok ((i - k + s) / s)
  | SAME => Ok ((i + s - 1) / s)
  end.

Definition windowed_output_size (i : dim) (k s : Z) (p : padding)
  : result dim :=
  match i with
  | None =>
      if s <=? 0 then Raise (ValueError "stride must be positive")
      else Ok None
  | Some i => o <~ window_out i k s p ;; Ok (Some o)
  end.

Definition windowed_dim (i k : dim) (s : Z) (p : padding) : result dim :=
  match k with
  | Some k => windowed_output_size i k s p
  | None => Ok None
  end.

Definition conv2d_shape (x f : list dim) (strides : list Z) (p : padding)
  : result (list dim) :=
  match x, f, strides with
  | [n; h; w; c], [kh; kw; ci; co], [1; sh; sw; 1] =>
      if compatible c ci then
        oh <~ windowed_dim h kh sh p ;;
        ow <~ windowed_dim w kw sw p ;;
        Ok [n; oh; ow; co]
      else Raise (ValueError "Dimensions must be equal")
  | _, _, _ => Raise (ValueError "conv2d: rank 4 input and filter expected")
  end.

Definition max_pool_shape (x : list dim) (ksize strides : list Z)
           (p : padding) : result (list dim) :=
  match x, ksize, strides with
  | [n; h; w; c], [1; kh; kw; 1], [1; sh; sw; 1] =>
      oh <~ windowed_output_size h kh sh p ;;
      ow <~ windowed_output_size w kw sw p ;;
      Ok [n; oh; ow; c]
  | _, _, _ => Raise (ValueError "max_pool: Shape must be rank 4")
  end.

Definition matmul_shape (a b : list dim) : result (list dim) :=
  match a, b with
  | [n; d], [d'; m] =>
      if compatible d d' then Ok [n; m]
      else Raise (ValueError "Dimensions must be equal")
  | _, _ => Raise (ValueError "matmul: Shape must be rank 2")
  end.

(** Broadcasting of two dimensions, then of two shapes aligned at their
    last dimension. *)
Definition broadcast_dim (a b : dim) : result dim :=
  match a, b with
  | Some x, Some y =>
      if x =? y then Ok (Some x)
      else if x =? 1 then Ok (Some y)
      else if y =? 1 then Ok (Some x)
      else Raise (ValueError "Dimensions must be equal")
  | Some x, None => if x =? 1 then Ok None else Ok (Some x)
  | None, Some y => if y =? 1 then Ok None else Ok (Some y)
  | None, None => Ok None
  end.

Fixpoint broadcast_rev (a b : list dim) : result (list dim) :=
  match a, b with
  | [], _ => Ok b
  | _, [] => Ok a
  | x :: a', y :: b' =>
      d <~ broadcast_dim x y ;;
      r <~ broadcast_rev a' b' ;;
      Ok (d :: r)
  end.

Definition broadcast_shape (a b : list dim) : result (list dim) :=
  r <~ broadcast_rev (rev a) (rev b) ;; Ok (rev r).

(** [tf.reshape(x, new)]: at most one entry of [new] is [-1]; it is
    inferred from the number of elements when that is known. *)
Definition reshape_shape (x : list dim) (new : list Z)
  : result (list dim) :=
  if existsb (fun d => d <? -1) new
  then Raise (ValueError "reshape: size must be non-negative")
  else
    let wild := length (List.filter (fun d => d =? -1) new) in
    let fixed := prod (List.filter (fun d => negb (d =? -1)) new) in
    match wild, concrete x with
    | O, Some cx =>
        if prod cx =? fixed then Ok (known new)
        else Raise (ValueError "reshape: wrong number of elements")
    | O, None => Ok (known new)
    | S O, Some cx =>
        if (fixed =? 0) || negb (prod cx mod fixed =? 0)
        then Raise (ValueError "reshape: cannot infer the missing size")
        else Ok (map (fun d => if d =? -1
                               then Some (prod cx / fixed)
                               else Some d) new)
    | S O, None =>
        Ok (map (fun d => if d =? -1 then None else Some d) new)
    | _, _ => Raise (ValueError "reshape: only one input size may be -1")
    end.

(** The symbolic tensors the model file creates.  [Zeros g rest] is
    [tf.zeros([tf.shape(g)[0]] + rest)].  [Assign id shape v] is
    [tf.assign] on variable [id]: the one kind of node that writes a
    variable when it is run.  The model file creates none, and it is in
    the type so that this is a statement about the graph the file builds
    and not about the type. *)
Inductive graph : Type :=
| Placeholder (shape : list dim)
| Var (id : nat) (shape : list Z)
| Zeros (g : graph) (rest : list Z)
| Conv2D (input filter : graph) (strides : list Z) (p : padding)
| Add (x y : graph)
| Relu (x : graph)
| MaxPool (x : graph) (ksize strides : list Z) (p : padding)
| Reshape (x : graph) (shape : list Z)
| MatMul (a b : graph)
| Sigmoid (x : graph)
| ClipByValue (x : graph) (lo hi : Q)
| Assign (id : nat) (shape : list Z) (value : graph).

(** [tf.shape(g)[0]], a scalar integer tensor. *)
Inductive int_scalar : Type := Shape0 (g : graph).

Definition same_shape (a b : list dim) : bool :=
  (length a =? length b)%nat
  && forallb (fun '(x, y) => compatible x y) (zip a b).

(** Static shape inference; it runs when an operation is added to the
    graph and raises [ValueError] there. *)
Fixpoint static_shape (g : graph) : result (list dim) :=
  match g with
  | Placeholder s =>
      if forallb (fun d => match d with Some z => 0 <=? z | None => true end) s
      then Ok s
      else Raise (ValueError "Dimension must be >= 0")
  | Var _ s => Ok (known s)
  | Zeros g rest =>
      s <~ static_shape g ;;
      match s with
      | d :: _ =>
          if forallb (fun z => 0 <=? z) rest then Ok (d :: known rest)
          else Raise (ValueError "Dimension must be >= 0")
      | [] => Raise (ValueError "slice index 0 of dimension 0 out of bounds")
      end
  | Conv2D x f strides p =>
      sx <~ static_shape x ;;
      sf <~ static_shape f ;;
      conv2d_shape sx sf strides p
  | Add x y =>
      sx <~ static_shape x ;;
      sy <~ static_shape y ;;
      broadcast_shape sx sy
  | Relu x => static_shape x
  | MaxPool x ksize strides p =>
      sx <~ static_shape x ;;
      max_pool_shape sx ksize strides p
  | Reshape x new =>
      sx <~ static_shape x ;;
      reshape_shape sx new
  | MatMul a b =>
      sa <~ static_shape a ;;
      sb <~ static_shape b ;;
      matmul_shape sa sb
  | Sigmoid x => static_shape x
  | ClipByValue x _ _ => static_shape x
  | Assign _ s v =>
      sv <~ static_shape v ;;
      if same_shape (known s) sv then Ok (known s)
      else Raise (ValueError "Shapes must be equal")
  end.

(** Adding an operation to the graph: the node is returned when its
    static shape can be inferred. *)
Definition op (g : graph) : result graph :=
  _ <~ static_shape g ;; Ok g.

Definition placeholder (shape : list dim) : result graph :=
  op (Placeholder shape).
Definition shape0 (g : graph) : int_scalar := Shape0 g.
Definition zeros (d0 : int_scalar) (rest : list Z) : result graph :=
  match d0 with Shape0 g => op (Zeros g rest) end.
Definition conv2d (input filter : graph) (strides : list Z) (p : padding)
  : result graph := op (Conv2D input filter strides p).
Definition add (x y : graph) : result graph := op (Add x y).
Definition relu (x : graph) : result graph := op (Relu x).
Definition max_pool (x : graph) (ksize strides : list Z) (p : padding)
  : result graph := op (MaxPool x ksize strides p).
Definition reshape (x : graph) (shape : list Z) : result graph :=
  op (Reshape x shape).
Definition matmul (a b : graph) : result graph := op (MatMul a b).
Definition sigmoid (x : graph) : result graph := op (Sigmoid x).
Definition clip_by_value (x : graph) (lo hi : Q) : result graph :=
  op (ClipByValue x lo hi).

(** [x.get_shape().as_list()] *)
Definition get_shape_as_list (x : graph) : result (list dim) :=
  static_shape x.

(** *** Running a graph

    A tensor value is its shape and its elements in row-major order.
    Every kernel works example by example (or row by row): the data is
    cut into chunks, each chunk is transformed, the results are
    concatenated. *)

Record tensor : Type := Tensor {
  shape : list Z;
  data : list R
}.

Definition chunks (size count : nat) (d : list R) : list (list R) :=
  map (fun b => take size (drop (b * size) d)) (seq 0 count).

Definition per_chunk (size count : nat) (f : list R -> list R)
           (d : list R) : list R :=
  concat (map f (chunks size count d)).

Definition ztab {A} (n : Z) (f : Z -> A) : list A :=
  map (fun i => f (Z.of_nat i)) (seq 0 (Z.to_nat n)).

Definition rsum (l : list R) : R := fold_right Rplus 0%R l.

Definition elem (d : list R) (i : Z) : R := nth (Z.to_nat i) d 0%R.

Definition in_image (h w i j : Z) : bool :=
  (0 <=? i) && (i <? h) && (0 <=? j) && (j <? w).

(** Element [(i, j, q)] of an image of shape [[h; w; c]]; the padding
    around it reads as zero. *)
Definition pixel (img : list R) (h w c i j q : Z) : R :=
  if in_image h w i j then elem img ((i * w + j) * c + q) else 0%R.

(** Rows or columns of padding placed before the data. *)
Definition pad_before (i k s o : Z) (p : padding) : Z :=
  match p with
  | VALID => 0
  | SAME => Z.max ((o - 1) * s + k - i) 0 / 2
  end.

(** A tensor of shape [[a; b; c]] given by its elements. *)
Definition tab3 {A} (a b c : Z) (f : Z -> Z -> Z -> A) : list A :=
  concat (ztab a (fun i => concat (ztab b (fun j => ztab c (f i j))))).

(** [output[i, j, o] = sum_{di, dj, q}
      input[sh * i + di, sw * j + dj, q] * filter[di, dj, q, o]] *)
Definition conv_image (h w c kh kw co sh sw oh ow : Z) (p : padding)
           (filter img : list R) : list R :=
  let ph := pad_before h kh sh oh p in
  let pw := pad_before w kw sw ow p in
  tab3 oh ow co (fun i j o =>
    rsum (tab3 kh kw c (fun di dj q =>
      (pixel img h w c (i * sh + di - ph) (j * sw + dj - pw) q
       * elem filter (((di * kw + dj) * c + q) * co + o))%R))).

Definition maximum (l : list R) : R :=
  match l with
  | [] => 0%R
  | x :: l' => fold_left Rmax l' x
  end.

(** The largest element under the window; positions in the padding do
    not take part. *)
Definition pool_image (h w c kh kw sh sw oh ow : Z) (p : padding)
           (img : list R) : list R :=
  let ph := pad_before h kh sh oh p in
  let pw := pad_before w kw sw ow p in
  tab3 oh ow c (fun i j q =>
    maximum (concat (concat (ztab kh (fun di => ztab kw (fun dj =>
      let i' := i * sh + di - ph in
      let j' := j * sw + dj - pw in
      if in_image h w i' j'
      then [elem img ((i' * w + j') * c + q)]
      else [])))))).

Definition run_conv2d (x f : tensor) (strides : list Z) (p : padding)
  : result tensor :=
  match shape x, shape f, strides with
  | [n; h; w; c], [kh; kw; ci; co], [1; sh; sw; 1] =>
      if c =? ci then
        oh <~ window_out h kh sh p ;;
        ow <~ window_out w kw sw p ;;
        Ok (Tensor [n; oh; ow; co]
              (per_chunk (Z.to_nat (h * w * c)) (Z.to_nat n)
                 (conv_image h w c kh kw co sh sw oh ow p (data f))
                 (data x)))
      else Raise (InvalidArgumentError "input depth must match the filter")
  | _, _, _ =>
      Raise (InvalidArgumentError "conv2d: rank 4 input and filter expected")
  end.

Definition run_max_pool (x : tensor) (ksize strides : list Z) (p : padding)
  : result tensor :=
  match shape x, ksize, strides with
  | [n; h; w; c], [1; kh; kw; 1], [1; sh; sw; 1] =>
      oh <~ window_out h kh sh p ;;
      ow <~ window_out w kw sw p ;;
      Ok (Tensor [n; oh; ow; c]
            (per_chunk (Z.to_nat (h * w * c)) (Z.to_nat n)
               (pool_image h w c kh kw sh sw oh ow p) (data x)))
  | _, _, _ => Raise (InvalidArgumentError "max_pool: rank 4 input expected")
  end.

Definition matmul_row (d m : Z) (b row : list R) : list R :=
  ztab m (fun j => rsum (ztab d (fun i =>
    (elem row i * elem b (i * m + j))%R))).

Definition run_matmul (a b : tensor) : result tensor :=
  match shape a, shape b with
  | [n; d], [d'; m] =>
      if d =? d'
      then Ok (Tensor [n; m]
                 (per_chunk (Z.to_nat d) (Z.to_nat n)
                    (matmul_row d m (data b)) (data a)))
      else Raise (InvalidArgumentError "Matrix size-incompatible")
  | _, _ => Raise (InvalidArgumentError "matmul: rank 2 expected")
  end.

Definition broadcast_size (a b : Z) : result Z :=
  if a =? b then Ok a
  else if a =? 1 then Ok b
  else if b =? 1 then Ok a
  else Raise (InvalidArgumentError "Incompatible shapes").

Definition add_row (cx cy co : Z) (y row : list R) : list R :=
  ztab co (fun j =>
    (elem row (if cx =? 1 then 0 else j)
     + elem y (if cy =? 1 then 0 else j))%R).

(** [x + y] for a vector [y], broadcast along the last dimension of [x];
    this is the only form of addition the model file contains. *)
Definition run_add (x y : tensor) : result tensor :=
  match shape y, rev (shape x) with
  | [cy], cx :: outer =>
      co <~ broadcast_size cx cy ;;
      Ok (Tensor (rev (co :: outer))
            (per_chunk (Z.to_nat cx) (Z.to_nat (prod outer))
               (add_row cx cy co (data y)) (data x)))
  | _, _ => Raise (InvalidArgumentError "add: a vector operand expected")
  end.

Definition run_reshape (x : tensor) (new : list Z) : result tensor :=
  match reshape_shape (known (shape x)) new with
  | Ok s =>
      match concrete s with
      | Some s' => Ok (Tensor s' (data x))
      | None => Raise (InvalidArgumentError "reshape")
      end
  | Raise _ => Raise (InvalidArgumentError "reshape")
  end.

Definition relu_value (v : R) : R := Rmax v 0.
Definition sigmoid_value (v : R) : R := (1 / (1 + exp (- v)))%R.
(** [maximum(minimum(v, hi), lo)] *)
Definition clip_value (lo hi : Q) (v : R) : R :=
  Rmax (Rmin v (Q2R hi)) (Q2R lo).

Definition pointwise (f : R -> R) (x : tensor) : tensor :=
  Tensor (shape x) (map f (data x)).

Definition feed_matches (s : list dim) (x : tensor) : bool :=
  (length s =? length (shape x))%nat
  && forallb (fun '(d, z) => compatible d (Some z)) (zip s (shape x)).

(** The value of a node as a function of what is fed for the placeholder
    and of the values [vars] of the variables.  For [Assign] it is the
    value that is assigned; the write itself is in [exec]. *)
Fixpoint eval (feed : tensor) (vars : list tensor) (g : graph)
  : result tensor :=
  match g with
  | Placeholder s =>
      if feed_matches s feed then Ok feed
      else Raise (ValueError "Cannot feed value of this shape")
  | Var id s =>
      match vars !! id with
      | Some v =>
          if bool_decide (shape v = s) then Ok v
          else Raise (InvalidArgumentError "variable shape")
      | None => Raise (InvalidArgumentError "uninitialized variable")
      end
  | Zeros g rest =>
      t <~ eval feed vars g ;;
      match shape t with
      | n :: _ =>
          Ok (Tensor (n :: rest) (repeat 0%R (Z.to_nat (prod (n :: rest)))))
      | [] => Raise (InvalidArgumentError "slice index out of bounds")
      end
  | Conv2D x f strides p =>
      tx <~ eval feed vars x ;;
      tf <~ eval feed vars f ;;
      run_conv2d tx tf strides p
  | Add x y =>
      tx <~ eval feed vars x ;;
      ty <~ eval feed vars y ;;
      run_add tx ty
  | Relu x => tx <~ eval feed vars x ;; Ok (pointwise relu_value tx)
  | MaxPool x ksize strides p =>
      tx <~ eval feed vars x ;;
      run_max_pool tx ksize strides p
  | Reshape x new =>
      tx <~ eval feed vars x ;;
      run_reshape tx new
  | MatMul a b =>
      ta <~ eval feed vars a ;;
      tb <~ eval feed vars b ;;
      run_matmul ta tb
  | Sigmoid x => tx <~ eval feed vars x ;; Ok (pointwise sigmoid_value tx)
  | ClipByValue x lo hi =>
      tx <~ eval feed vars x ;;
      Ok (pointwise (clip_value lo hi) tx)
  | Assign _ s v =>
      tv <~ eval feed vars v ;;
      if bool_decide (shape tv = s) then Ok tv
      else Raise (InvalidArgumentError "assign shape")
  end.

(** A session holds the values of the graph's variables.  Running a node
    threads the session through the kernels of the nodes it depends on;
    [run] returns the session it leaves behind together with the fetched
    value. *)
Record session : Type := Session { var_values : list tensor }.

Definition read_variable (id : nat) (s : list Z) : ST session tensor :=
  fun sess =>
    (sess,
     match var_values sess !! id with
     | Some v =>
         if bool_decide (shape v = s) then Ok v
         else Raise (InvalidArgumentError "variable shape")
     | None => Raise (InvalidArgumentError "uninitialized variable")
     end).

Definition write_variable (id : nat) (s : list Z) (v : tensor)
  : ST session tensor :=
  fun sess =>
    match var_values sess !! id with
    | Some _ =>
        if bool_decide (shape v = s)
        then (Session (<[id := v]> (var_values sess)), Ok v)
        else (sess, Raise (InvalidArgumentError "assign shape"))
    | None => (sess, Raise (InvalidArgumentError "uninitialized variable"))
    end.

Fixpoint exec (g : graph) (feed : tensor) : ST session tensor :=
  match g with
  | Placeholder s =>
      if feed_matches s feed then ret feed
      else raise (ValueError "Cannot feed value of this shape")
  | Var id s => read_variable id s
  | Zeros g rest =>
      t <- exec g feed ;;
      match shape t with
      | n :: _ =>
          ret (Tensor (n :: rest) (repeat 0%R (Z.to_nat (prod (n :: rest)))))
      | [] => raise (InvalidArgumentError "slice index out of bounds")
      end
  | Conv2D x f strides p =>
      tx <- exec x feed ;;
      tf <- exec f feed ;;
      lift (run_conv2d tx tf strides p)
  | Add x y =>
      tx <- exec x feed ;;
      ty <- exec y feed ;;
      lift (run_add tx ty)
  | Relu x => tx <- exec x feed ;; ret (pointwise relu_value tx)
  | MaxPool x ksize strides p =>
      tx <- exec x feed ;;
      lift (run_max_pool tx ksize strides p)
  | Reshape x new =>
      tx <- exec x feed ;;
      lift (run_reshape tx new)
  | MatMul a b =>
      ta <- exec a feed ;;
      tb <- exec b feed ;;
      lift (run_matmul ta tb)
  | Sigmoid x => tx <- exec x feed ;; ret (pointwise sigmoid_value tx)
  | ClipByValue x lo hi =>
      tx <- exec x feed ;;
      ret (pointwise (clip_value lo hi) tx)
  | Assign id s v =>
      tv <- exec v feed ;;
      write_variable id s tv
  end.

(** [sess.run(fetch, feed_dict={placeholder: feed})] *)
Definition run (sess : session) (fetch : graph) (feed : tensor)
  : session * result tensor :=
  exec fetch feed sess.

End tf.

(** ** The Python side: heap, graph variables, and the monad of the class *)

(** Python lists are objects: a variable holds a reference, and two
    variables may hold the same one.  Only lists of integers are mutated by
    the file, so the heap stores those. *)
Definition loc := positive.

(** The state a constructor call runs in: the Python heap and the variable
    collection of TensorFlow's default graph (one shape per variable, in
    creation order). *)
Record world : Type := World {
  heap : gmap loc (list Z);
  variables : list (list Z)
}.

Definition M : Type -> Type := ST world.

Definition py_assert (c : bool) (msg : string) : M unit :=
  if c then ret tt else raise (AssertionError msg).

Definition len {A} (l : list A) : Z := Z.of_nat (length l).

(** Reading the list a reference points to. *)
Definition deref (l : loc) : M (list Z) :=
  fun σ => match heap σ !! l with
           | Some v => (σ, Ok v)
           | None => (σ, Raise TypeError)
           end.

(** [l.insert(0, x)] on the list object at [l]. *)
Definition list_insert0 (l : loc) (x : Z) : M unit :=
  fun σ => match heap σ !! l with
           | Some v => (World (<[l := x :: v]> (heap σ)) (variables σ), Ok tt)
           | None => (σ, Raise TypeError)
           end.

(** ** tfutils and constants *)

Module tfutils.

(** [tf.Variable(...)]: the new variable joins the graph's collection and
    is named by its position there. *)
Definition new_variable (shape : list Z) : M tf.graph :=
  fun σ => (World (heap σ) (variables σ ++ [shape]),
            Ok (tf.Var (length (variables σ)) shape)).

(** Modelled from the spec: tfutils.py is not under src/.  Section 4.2
    has one weight tensor allocated per call, of the requested shape,
    with an invalid non-positive dimension a fatal configuration error.
    The initial values belong to the session that later runs the graph. *)
Definition w (shape : list Z) : M tf.graph :=
  if forallb (fun d => 0 <? d) shape
  then new_variable shape
  else raise ConfigurationError.

(** Modelled from the spec: tfutils.py is not under src/.  Section 4.2
    gives biases the same allocation contract as weights. *)
Definition b (shape : list Z) : M tf.graph :=
  if forallb (fun d => 0 <? d) shape
  then new_variable shape
  else raise ConfigurationError.

(** Modelled from the spec: tfutils.py is not under src/.  Section 4.1:
    valid padding shrinks the dimension by [kernel_size - 1], same padding
    preserves it.  The spec gives the rule for the stride this model
    passes, 1, and no other. *)
Definition conv_out_size (i : Z) (p : tf.padding) (k s : Z) : Z :=
  match p with
  | tf.VALID => i - (k - 1)
  | tf.SAME => i
  end.

End tfutils.

Module constants.

(** Modelled from the spec: constants.py is not under src/.  The one
    scenario the spec runs this model in (section 8) uses valid padding,
    and the halving at d_scale_model.py:89 is the pooled size under that
    policy. *)
Definition PADDING_D : tf.padding := tf.VALID.

End constants.

(** ** DScaleModel *)

Module DScaleModel.

Import tfutils.

(** The attributes [__init__] stores before it calls [define_graph]. *)
Record config : Type := Config {
  scale_index : Z;
  height : Z;
  width : Z;
  conv_layer_fms : list Z;
  kernel_sizes : list Z;
  fc_layer_sizes : loc
}.

(** The object once [define_graph] has run. *)
Record t : Type := Build {
  self : config;
  input_frames : tf.graph;
  batch_size : tf.int_scalar;
  preds : tf.graph
}.

(** Python's [a * b] on entries of [get_shape().as_list()]. *)
Definition py_mul (a b : tf.dim) : result tf.dim :=
  match a, b with
  | Some x, Some y => Ok (Some (x * y))
  | _, _ => Raise TypeError
  end.

Definition as_int (d : tf.dim) : result Z :=
  match d with
  | Some z => Ok z
  | None => Raise TypeError
  end.

(** One iteration of the loop at lines 115-121; the state is
    [(preds, last_input)]. *)
Definition conv_layer (conv_ws conv_bs : list tf.graph) (i : Z)
           (st : tf.graph * tf.graph) : result (tf.graph * tf.graph) :=
  let last_input := snd st in
  wi <~ py_index conv_ws i ;;
  preds <~ tf.conv2d last_input wi [1; 1; 1; 1] constants.PADDING_D ;;
  bi <~ py_index conv_bs i ;;
  sum <~ tf.add preds bi ;;
  preds <~ tf.relu sum ;;
  Ok (preds, preds).

(** Lines 110-121: the tensor the convolution scope leaves in [preds]. *)
Definition convolutions (input_frames : tf.graph) (batch_size : tf.int_scalar)
           (conv_ws conv_bs : list tf.graph) : result tf.graph :=
  preds <~ tf.zeros batch_size [1] ;;
  let last_input := input_frames in
  st <~ rfor (range (len conv_ws)) (conv_layer conv_ws conv_bs)
             (preds, last_input) ;;
  Ok (fst st).

(** Lines 123-125. *)
Definition pooling (preds : tf.graph) : result tf.graph :=
  tf.max_pool preds [1; 2; 2; 1] [1; 2; 2; 1] constants.PADDING_D.

(** Lines 127-130. *)
Definition flatten (preds : tf.graph) : result tf.graph :=
  shape <~ tf.get_shape_as_list preds ;;
  s1 <~ py_index shape 1 ;;
  s2 <~ py_index shape 2 ;;
  s12 <~ py_mul s1 s2 ;;
  s3 <~ py_index shape 3 ;;
  s123 <~ py_mul s12 s3 ;;
  n <~ as_int s123 ;;
  tf.reshape preds [-1; n].

(** One iteration of the loop at lines 134-141. *)
Definition fc_layer (fc_ws fc_bs : list tf.graph) (i : Z) (preds : tf.graph)
  : result tf.graph :=
  wi <~ py_index fc_ws i ;;
  prod <~ tf.matmul preds wi ;;
  bi <~ py_index fc_bs i ;;
  preds <~ tf.add prod bi ;;
  if i =? len fc_ws - 1
  then tf.sigmoid preds
  else tf.relu preds.

(** Lines 132-141. *)
Definition fully_connected (fc_ws fc_bs : list tf.graph) (preds : tf.graph)
  : result tf.graph :=
  rfor (range (len fc_ws)) (fc_layer fc_ws fc_bs) preds.

(** Lines 143-145. *)
Definition clip (preds : tf.graph) : result tf.graph :=
  tf.clip_by_value preds (1 # 10) (9 # 10).

(** The nested function of [define_graph]; what it closes over is passed
    in. *)
Definition generate_predictions (input_frames : tf.graph)
           (batch_size : tf.int_scalar)
           (conv_ws conv_bs fc_ws fc_bs : list tf.graph)
  : result tf.graph :=
  preds <~ convolutions input_frames batch_size conv_ws conv_bs ;;
  preds <~ pooling preds ;;
  preds <~ flatten preds ;;
  preds <~ fully_connected fc_ws fc_bs preds ;;
  preds <~ clip preds ;;
  Ok preds.

(** The state of the set-up loop at lines 68-82. *)
Record conv_setup : Type := ConvSetup {
  conv_ws : list tf.graph;
  conv_bs : list tf.graph;
  last_out_height : Z;
  last_out_width : Z
}.

Definition conv_setup_step (self : config) (i : Z) (st : conv_setup)
  : M conv_setup :=
  k1 <- lift (py_index (kernel_sizes self) i) ;;
  k2 <- lift (py_index (kernel_sizes self) i) ;;
  fi <- lift (py_index (conv_layer_fms self) i) ;;
  fo <- lift (py_index (conv_layer_fms self) (i + 1)) ;;
  wv <- w [k1; k2; fi; fo] ;;
  fo' <- lift (py_index (conv_layer_fms self) (i + 1)) ;;
  bv <- b [fo'] ;;
  kh <- lift (py_index (kernel_sizes self) i) ;;
  let h := conv_out_size (last_out_height st) constants.PADDING_D kh 1 in
  kw <- lift (py_index (kernel_sizes self) i) ;;
  let w := conv_out_size (last_out_width st) constants.PADDING_D kw 1 in
  ret (ConvSetup (conv_ws st ++ [wv]) (conv_bs st ++ [bv]) h w).

(** One iteration of the loop at lines 93-96; the state is
    [(fc_ws, fc_bs)]. *)
Definition fc_setup_step (self : config) (i : Z)
           (st : list tf.graph * list tf.graph)
  : M (list tf.graph * list tf.graph) :=
  sizes <- deref (fc_layer_sizes self) ;;
  a <- lift (py_index sizes i) ;;
  c <- lift (py_index sizes (i + 1)) ;;
  wv <- w [a; c] ;;
  sizes' <- deref (fc_layer_sizes self) ;;
  c' <- lift (py_index sizes' (i + 1)) ;;
  bv <- b [c'] ;;
  ret (fst st ++ [wv], snd st ++ [bv]).

Definition define_graph (self : config) : M t :=
  (* input *)
  c0 <- lift (py_index (conv_layer_fms self) 0) ;;
  input_frames <- lift (tf.placeholder
                          [None; Some (height self); Some (width self); Some c0]) ;;
  let batch_size := tf.shape0 input_frames in
  (* setup: convolutions *)
  cs <- mfor (range (len (kernel_sizes self))) (conv_setup_step self)
             (ConvSetup [] [] (height self) (width self)) ;;
  (* setup: fully-connected *)
  c_last <- lift (py_index (conv_layer_fms self) (-1)) ;;
  _ <- list_insert0 (fc_layer_sizes self)
         ((last_out_height cs / 2) * (last_out_width cs / 2) * c_last) ;;
  sizes <- deref (fc_layer_sizes self) ;;
  fc <- mfor (range (len sizes - 1)) (fc_setup_step self) ([], []) ;;
  (* forward pass *)
  preds <- lift (generate_predictions input_frames batch_size
                   (conv_ws cs) (conv_bs cs) (fst fc) (snd fc)) ;;
  ret (Build self input_frames batch_size preds).

Definition __init__ (scale_index height width : Z)
           (conv_layer_fms kernel_sizes : list Z) (fc_layer_sizes : loc)
  : M t :=
  _ <- py_assert (len kernel_sizes =? len conv_layer_fms - 1)
         "len(kernel_sizes) must = len(conv_layer_fms) - 1" ;;
  define_graph (Config scale_index height width conv_layer_fms kernel_sizes
                       fc_layer_sizes).

(** The enclosing model obtains the predictions of a batch by running
    [self.preds] in a session with the batch fed for
    [self.input_frames]. *)
Definition predict (m : t) (sess : tf.session) (input_batch : tf.tensor)
  : tf.session * result tf.tensor :=
  tf.run sess (preds m) input_batch.

End DScaleModel.

(** ** The architecture, as the spec words it

    Section 4.3 of the spec describes the forward pass as a fixed
    composition.  The definitions below follow those words; the theorems
    compare them with the graph [define_graph] builds. *)

Module Arch.

Import tf.

(** Step 1: convolve with stride 1 and the configured padding, add the
    bias, rectify. *)
Definition conv_block (x : graph) (wb : graph * graph) : graph :=
  Relu (Add (Conv2D x (fst wb) [1; 1; 1; 1] constants.PADDING_D) (snd wb)).

Definition conv_stack (x : graph) (layers : list (graph * graph)) : graph :=
  fold_left conv_block layers x.

(** Step 2: one 2x2, stride-2 max-pooling step with the same padding. *)
Definition pool (x : graph) : graph :=
  MaxPool x [1; 2; 2; 1] [1; 2; 2; 1] constants.PADDING_D.

(** Step 3: flatten each example to [n] elements. *)
Definition flat (x : graph) (n : Z) : graph := Reshape x [-1; n].

(** Step 4: [x @ W + b], rectified on every layer but the last, which
    takes the logistic sigmoid. *)
Definition affine (x : graph) (wb : graph * graph) : graph :=
  Add (MatMul x (fst wb)) (snd wb).

Fixpoint fc_stack (x : graph) (layers : list (graph * graph)) : graph :=
  match layers with
  | [] => x
  | [wb] => Sigmoid (affine x wb)
  | wb :: rest => fc_stack (Relu (affine x wb)) rest
  end.

(** Step 5: the stability clip. *)
Definition clipped (x : graph) : graph := ClipByValue x (1 # 10) (9 # 10).

Definition network (input : graph) (convs : list (graph * graph)) (n : Z)
           (fcs : list (graph * graph)) : graph :=
  clipped (fc_stack (flat (pool (conv_stack input convs)) n) fcs).

(** How often an operation occurs in a graph. *)
Fixpoint count_max_pool (g : graph) : nat :=
  match g with
  | Placeholder _ | Var _ _ => 0
  | Zeros x _ | Relu x | Reshape x _ | Sigmoid x | ClipByValue x _ _
  | Assign _ _ x =>
      count_max_pool x
  | Conv2D x y _ _ | Add x y | MatMul x y =>
      count_max_pool x + count_max_pool y
  | MaxPool x _ _ _ => S (count_max_pool x)
  end%nat.

Fixpoint count_conv2d (g : graph) : nat :=
  match g with
  | Placeholder _ | Var _ _ => 0
  | Zeros x _ | Relu x | Reshape x _ | Sigmoid x | ClipByValue x _ _
  | MaxPool x _ _ _ | Assign _ _ x =>
      count_conv2d x
  | Add x y | MatMul x y => count_conv2d x + count_conv2d y
  | Conv2D x y _ _ => S (count_conv2d x + count_conv2d y)
  end%nat.

(** One [(kernel, in_channels, out_channels)] triple per convolution,
    and one [(in, out)] pair per fully-connected layer. *)
Fixpoint conv_specs (ks fms : list Z) : list (Z * Z * Z) :=
  match ks, fms with
  | k :: ks', fi :: fms' =>
      match fms' with
      | fo :: _ => (k, fi, fo) :: conv_specs ks' fms'
      | [] => []
      end
  | _, _ => []
  end.

Fixpoint fc_specs (sizes : list Z) : list (Z * Z) :=
  match sizes with
  | a :: sizes' =>
      match sizes' with
      | c :: _ => (a, c) :: fc_specs sizes'
      | [] => []
      end
  | [] => []
  end.

(** A graph variable of the given shape, registered in the collection. *)
Definition is_var (vs : list (list Z)) (s : list Z) (g : graph) : Prop :=
  exists id, g = Var id s /\ vs !! id = Some s.

Definition conv_layer_ok (vs : list (list Z)) (spec : Z * Z * Z)
           (wb : graph * graph) : Prop :=
  let '(k, fi, fo) := spec in
  is_var vs [k; k; fi; fo] (fst wb) /\ is_var vs [fo] (snd wb)
  /\ 0 < k /\ 0 < fi /\ 0 < fo.

Definition fc_layer_ok (vs : list (list Z)) (spec : Z * Z)
           (wb : graph * graph) : Prop :=
  let '(a, c) := spec in
  is_var vs [a; c] (fst wb) /\ is_var vs [c] (snd wb) /\ 0 < a /\ 0 < c.

(** The node whose value enters the fully-connected stack: the first
    [Reshape] met when walking from the output down the data path. *)
Fixpoint flattened_node (g : graph) : option graph :=
  match g with
  | Reshape _ _ => Some g
  | ClipByValue x _ _ | Sigmoid x | Relu x | Add x _ | MatMul x _ =>
      flattened_node x
  | _ => None
  end.

Fixpoint count_sigmoid (g : graph) : nat :=
  match g with
  | Placeholder _ | Var _ _ => 0
  | Zeros x _ | Relu x | Reshape x _ | ClipByValue x _ _
  | MaxPool x _ _ _ | Assign _ _ x =>
      count_sigmoid x
  | Conv2D x y _ _ | Add x y | MatMul x y => count_sigmoid x + count_sigmoid y
  | Sigmoid x => S (count_sigmoid x)
  end%nat.

(** The derived sizes of section 4.1: [conv_out_size] once per layer,
    then the halving of the pooling step. *)
Definition conv_out (i : Z) (ks : list Z) : Z :=
  fold_left (fun i k => tfutils.conv_out_size i constants.PADDING_D k 1) ks i.

Definition flattened_count (height width : Z) (ks fms : list Z) : Z :=
  (conv_out height ks / 2) * (conv_out width ks / 2) * List.last fms 0.

(** Every dimension derived on the way: the height and width after each
    convolution, the pooled height and width, the flattened count. *)
Fixpoint conv_outs (i : Z) (ks : list Z) : list Z :=
  match ks with
  | [] => []
  | k :: ks' =>
      let o := tfutils.conv_out_size i constants.PADDING_D k 1 in
      o :: conv_outs o ks'
  end.

Definition derived_dimensions (height width : Z) (ks fms : list Z)
  : list Z :=
  conv_outs height ks ++ conv_outs width ks ++
  [conv_out height ks / 2; conv_out width ks / 2;
   flattened_count height width ks fms].

End Arch.

(** ** Sample configurations

    A heap in which the caller holds the list [[1]] at reference 1, and
    runs of the constructor on it. *)

Definition caller_heap : world := World {[ 1%positive := [1] ]} [].

(** height = width = 4, one 1x1 convolution from 1 to 1 feature map, and
    the caller's [fc_layer_sizes] at reference 1. *)
Definition small_model : world * result DScaleModel.t :=
  DScaleModel.__init__ 0 4 4 [1; 1] [1] 1%positive caller_heap.

(** The end-to-end scenario of section 8 of the spec. *)
Definition scenario_model : world * result DScaleModel.t :=
  DScaleModel.__init__ 0 64 64 [3; 8; 16] [3; 3] 1%positive caller_heap.

(** A caller whose list ends in a width other than 1. *)
Definition two_wide_heap : world := World {[ 1%positive := [2] ]} [].

Definition two_wide_model : world * result DScaleModel.t :=
  DScaleModel.__init__ 0 4 4 [1; 1] [1] 1%positive two_wide_heap.

Definition the_model (r : world * result DScaleModel.t) : DScaleModel.t :=
  match snd r with
  | Ok m => m
  | Raise _ =>
      DScaleModel.Build (DScaleModel.Config 0 0 0 [] [] 1%positive)
        (tf.Placeholder []) (tf.Shape0 (tf.Placeholder []))
        (tf.Placeholder [])
  end.

(** A caller whose list holds a width of 0, which no layer can have. *)
Definition zero_width_heap : world := World {[ 1%positive := [0] ]} [].

(** Whether some dimension of a list is non-positive. *)
Definition has_non_positive (ds : list Z) : bool :=
  existsb (fun d => d <=? 0) ds.

(** ** Sessions and frames to run the examples on *)

(** A session whose variables are all zero, for a given collection. *)
Definition zero_session (vs : list (list Z)) : tf.session :=
  tf.Session
    (map (fun s => tf.Tensor s (repeat 0%R (Z.to_nat (prod s)))) vs).

(** One 4x4 frame of zeros with one channel. *)
Definition zero_frame : tf.tensor := tf.Tensor [1; 4; 4; 1] (repeat 0%R 16).

(** ** Loop invariants

    What holds of the state of each loop of [define_graph] after [i]
    iterations, started in the world [σ0]. *)

Definition conv_setup_inv (self : DScaleModel.config) (σ0 : world) (i : nat)
           (st : DScaleModel.conv_setup) (σ : world) : Prop :=
  let ks := DScaleModel.kernel_sizes self in
  let fms := DScaleModel.conv_layer_fms self in
  heap σ = heap σ0
  /\ (exists ext, variables σ = variables σ0 ++ ext)
  /\ DScaleModel.last_out_height st
     = Arch.conv_out (DScaleModel.height self) (take i ks)
  /\ DScaleModel.last_out_width st
     = Arch.conv_out (DScaleModel.width self) (take i ks)
  /\ length (DScaleModel.conv_ws st) = i
  /\ length (DScaleModel.conv_bs st) = i
  /\ Forall2 (Arch.conv_layer_ok (variables σ))
       (take i (Arch.conv_specs ks fms))
       (zip (DScaleModel.conv_ws st) (DScaleModel.conv_bs st)).

Definition fc_setup_inv (σ0 : world) (sizes : list Z) (i : nat)
           (st : list tf.graph * list tf.graph) (σ : world) : Prop :=
  heap σ = heap σ0
  /\ (exists ext, variables σ = variables σ0 ++ ext)
  /\ length (fst st) = i /\ length (snd st) = i
  /\ Forall2 (Arch.fc_layer_ok (variables σ))
       (take i (Arch.fc_specs sizes)) (zip (fst st) (snd st)).

(** A hidden fully-connected layer. *)
Definition fc_hidden (x : tf.graph) (wb : tf.graph * tf.graph) : tf.graph :=
  tf.Relu (Arch.affine x wb).

(** ** What a construction allocates

    The shapes of the variables [define_graph] creates, in creation
    order: a kernel and a bias for each convolution (lines 72-77), then a
    weight matrix and a bias for each fully-connected layer (lines 93-96). *)

Definition conv_layer_variables (spec : Z * Z * Z) : list (list Z) :=
  let '(k, fi, fo) := spec in [[k; k; fi; fo]; [fo]].

Definition fc_layer_variables (spec : Z * Z) : list (list Z) :=
  let '(a, c) := spec in [[a; c]; [c]].

Definition conv_variables (ks fms : list Z) : list (list Z) :=
  concat (map conv_layer_variables (Arch.conv_specs ks fms)).

Definition fc_variables (sizes : list Z) : list (list Z) :=
  concat (map fc_layer_variables (Arch.fc_specs sizes)).

(** The weight and bias nodes of the layers, when the first of their
    variables is number [base] of the collection. *)
Fixpoint conv_params (base : nat) (specs : list (Z * Z * Z))
  : list (tf.graph * tf.graph) :=
  match specs with
  | [] => []
  | (k, fi, fo) :: specs' =>
      (tf.Var base [k; k; fi; fo], tf.Var (S base) [fo])
      :: conv_params (S (S base)) specs'
  end.

Fixpoint fc_params (base : nat) (specs : list (Z * Z))
  : list (tf.graph * tf.graph) :=
  match specs with
  | [] => []
  | (a, c) :: specs' =>
      (tf.Var base [a; c], tf.Var (S base) [c])
      :: fc_params (S (S base)) specs'
  end.

(** The configurations the constructor accepts, given the list [orig]
    the caller holds at [fc_layer_sizes]: matching lengths, at least one
    convolution, positive kernel sizes, feature-map counts and layer
    widths, and at least two rows and two columns left for the pooling
    step. *)
Definition accepted (height width : Z) (fms ks orig : list Z) : bool :=
  (len ks =? len fms - 1)
  && negb (len ks =? 0)
  && forallb (fun d => 0 <? d) ks
  && forallb (fun d => 0 <? d) fms
  && forallb (fun d => 0 <? d) orig
  && (2 <=? Arch.conv_out height ks)
  && (2 <=? Arch.conv_out width ks).

(** The object an accepted configuration yields when the graph holds
    [base] variables before the call. *)
Definition built (scale height width : Z) (fms ks : list Z) (fc : loc)
           (orig : list Z) (base : nat) : DScaleModel.t :=
  let input :=
    tf.Placeholder [None; Some height; Some width; Some (List.hd 0 fms)] in
  let n := Arch.flattened_count height width ks fms in
  DScaleModel.Build
    (DScaleModel.Config scale height width fms ks fc)
    input (tf.Shape0 input)
    (Arch.network input
       (conv_params base (Arch.conv_specs ks fms)) n
       (fc_params (base + 2 * length ks) (Arch.fc_specs (n :: orig)))).

(** The variables a node reads, in the order of the data path. *)
Fixpoint variable_ids (g : tf.graph) : list nat :=
  match g with
  | tf.Placeholder _ => []
  | tf.Var id _ => [id]
  | tf.Zeros x _ | tf.Relu x | tf.Reshape x _ | tf.Sigmoid x
  | tf.ClipByValue x _ _ | tf.MaxPool x _ _ _ | tf.Assign _ _ x =>
      variable_ids x
  | tf.Conv2D x y _ _ | tf.Add x y | tf.MatMul x y =>
      variable_ids x ++ variable_ids y
  end.

Fixpoint count_matmul (g : tf.graph) : nat :=
  match g with
  | tf.Placeholder _ | tf.Var _ _ => 0
  | tf.Zeros x _ | tf.Relu x | tf.Reshape x _ | tf.Sigmoid x
  | tf.ClipByValue x _ _ | tf.MaxPool x _ _ _ | tf.Assign _ _ x =>
      count_matmul x
  | tf.Conv2D x y _ _ | tf.Add x y => count_matmul x + count_matmul y
  | tf.MatMul x y => S (count_matmul x + count_matmul y)
  end%nat.

(** A caller that passes an empty [fc_layer_sizes]. *)
Definition empty_list_heap : world := World {[ 1%positive := [] ]} [].

Definition featurizer_model : world * result DScaleModel.t :=
  DScaleModel.__init__ 0 4 4 [1; 1] [1] 1%positive empty_list_heap.

(** A second model built on the list the first one was built on. *)
Definition second_small_model : world * result DScaleModel.t :=
  DScaleModel.__init__ 1 4 4 [1; 1] [1] 1%positive (fst small_model).

(** How often a node reads the placeholder, and how often a tensor of
    zeros. *)
Fixpoint count_placeholder (g : tf.graph) : nat :=
  match g with
  | tf.Placeholder _ => 1
  | tf.Var _ _ => 0
  | tf.Zeros x _ | tf.Relu x | tf.Reshape x _ | tf.Sigmoid x
  | tf.ClipByValue x _ _ | tf.MaxPool x _ _ _ | tf.Assign _ _ x =>
      count_placeholder x
  | tf.Conv2D x y _ _ | tf.Add x y | tf.MatMul x y =>
      count_placeholder x + count_placeholder y
  end%nat.

Fixpoint count_zeros (g : tf.graph) : nat :=
  match g with
  | tf.Placeholder _ | tf.Var _ _ => 0
  | tf.Zeros x _ => S (count_zeros x)
  | tf.Relu x | tf.Reshape x _ | tf.Sigmoid x
  | tf.ClipByValue x _ _ | tf.MaxPool x _ _ _ | tf.Assign _ _ x =>
      count_zeros x
  | tf.Conv2D x y _ _ | tf.Add x y | tf.MatMul x y =>
      count_zeros x + count_zeros y
  end%nat.

(** How many nodes of a graph write a variable. *)
Fixpoint count_assign (g : tf.graph) : nat :=
  match g with
  | tf.Placeholder _ | tf.Var _ _ => 0
  | tf.Zeros x _ | tf.Relu x | tf.Reshape x _ | tf.Sigmoid x
  | tf.ClipByValue x _ _ | tf.MaxPool x _ _ _ =>
      count_assign x
  | tf.Conv2D x y _ _ | tf.Add x y | tf.MatMul x y =>
      count_assign x + count_assign y
  | tf.Assign _ _ x => S (count_assign x)
  end%nat.

(** ** What a call may change

    [heap_kept]: the heap is as it was and the variable collection has
    only grown.  [touched fc]: in addition the list at [fc] may have got
    one element more at its head. *)

Definition heap_kept (σ σ' : world) : Prop :=
  heap σ' = heap σ /\ exists ext, variables σ' = variables σ ++ ext.

Definition touched (fc : loc) (σ σ' : world) : Prop :=
  (forall l, l <> fc -> heap σ' !! l = heap σ !! l)
  /\ (exists ext, variables σ' = variables σ ++ ext)
  /\ (heap σ' !! fc = heap σ !! fc
      \/ exists orig n,
           heap σ !! fc = Some orig /\ heap σ' !! fc = Some (n :: orig)).

(** A computation all of whose runs, failed ones included, are related
    by [R] to the world they start in. *)
Definition frames {A} (R : world -> world -> Prop) (m : M A) : Prop :=
  forall σ, R σ (fst (m σ)).

(** The object with another [scale_index]. *)
Definition with_scale_index (s : Z) (m : DScaleModel.t) : DScaleModel.t :=
  let c := DScaleModel.self m in
  DScaleModel.Build
    (DScaleModel.Config s (DScaleModel.height c) (DScaleModel.width c)
       (DScaleModel.conv_layer_fms c) (DScaleModel.kernel_sizes c)
       (DScaleModel.fc_layer_sizes c))
    (DScaleModel.input_frames m) (DScaleModel.batch_size m)
    (DScaleModel.preds m).

(** One 3x3 frame, for a model of 4x4 frames. *)
Definition small_frame : tf.tensor := tf.Tensor [1; 3; 3; 1] (repeat 0%R 9).

(** The exceptions of TensorFlow's shape inference. *)
Definition is_value_error (e : exn) : Prop := exists msg, e = ValueError msg.

(** A session in which the variables of [small_model] are zero and four
    variables of some other model follow them. *)
Definition crowded_session : tf.session :=
  tf.Session
    (tf.var_values (zero_session (variables (fst small_model)))
     ++ repeat (tf.Tensor [1] [1%R]) 4).

(** A caller whose list asks for a hidden layer of three nodes before the
    output node: two fully-connected layers once the flattened count is
    in front. *)
Definition two_layer_heap : world := World {[ 1%positive := [3; 1] ]} [].

Definition two_layer_model : world * result DScaleModel.t :=
  DScaleModel.__init__ 0 4 4 [1; 1] [1] 1%positive two_layer_heap.

(** A graph no line of the model file builds: it adds what is fed to
    variable 0 and assigns the sum to that variable. *)
Definition writing_graph : tf.graph :=
  tf.Assign 0 [1] (tf.Add (tf.Var 0 [1]) (tf.Placeholder [Some 1])).

(** A record no constructor call returns, with [writing_graph] for its
    predictions. *)
Definition writing_model : DScaleModel.t :=
  DScaleModel.Build (DScaleModel.Config 0 1 1 [1] [] 1%positive)
    (tf.Placeholder [Some 1]) (tf.Shape0 (tf.Placeholder [Some 1]))
    writing_graph.

(** A session with one variable, and a value to feed. *)
Definition one_variable_session : tf.session :=
  tf.Session [tf.Tensor [1] [0%R]].

Definition one_value : tf.tensor := tf.Tensor [1] [1%R].

(** * Proofs *)

(** ** The monads *)

Lemma rbind_Ok {A B} (r : result A) (k : A -> result B) (b : B) :
  rbind r k = Ok b -> exists a, r = Ok a /\ k a = Ok b.
Proof. destruct r; simpl; [eauto | discriminate]. Qed.

Lemma bind_Ok {S A B} (m : ST S A) (k : A -> ST S B) (σ σ' : S) (b : B) :
  bind m k σ = (σ', Ok b) ->
  exists σ1 a, m σ = (σ1, Ok a) /\ k a σ1 = (σ', Ok b).
Proof.
  unfold bind. destruct (m σ) as [σ1 [a|e]]; [eauto | discriminate].
Qed.

Lemma lift_Ok {S A} (r : result A) (σ σ' : S) (a : A) :
  lift r σ = (σ', Ok a) -> σ' = σ /\ r = Ok a.
Proof. unfold lift. intros [= -> ->]. auto. Qed.

Lemma ret_Ok {S A} (a a' : A) (σ σ' : S) :
  ret a σ = (σ', Ok a') -> σ' = σ /\ a' = a.
Proof. unfold ret. intros [= -> ->]. auto. Qed.

(** Splitting a successful run into its successful steps. *)
Ltac inv_ok :=
  repeat match goal with
  | H : rbind _ _ = Ok _ |- _ =>
      let a := fresh "a" in let H1 := fresh H in
      apply rbind_Ok in H as (a & H1 & H); cbv beta in H
  | H : bind _ _ _ = (_, Ok _) |- _ =>
      let s := fresh "σ" in let a := fresh "a" in let H1 := fresh H in
      apply bind_Ok in H as (s & a & H1 & H); cbv beta in H
  | H : lift _ _ = (_, Ok _) |- _ => apply lift_Ok in H as [-> H]
  | H : ret _ _ = (_, Ok _) |- _ => apply ret_Ok in H as [-> ->]
  | H : Ok _ = Ok _ |- _ => injection H as H; subst
  end.

Lemma py_index_Ok {A} (l : list A) (i : Z) (a : A) :
  py_index l i = Ok a ->
  l !! Z.to_nat (if i <? 0 then Z.of_nat (length l) + i else i) = Some a.
Proof.
  unfold py_index.
  destruct (_ && _); [| discriminate].
  destruct (l !! _) eqn:E; [|discriminate]. intros [= ->]. done.
Qed.

Lemma py_index_nat {A} (l : list A) (i : nat) (a : A) :
  py_index l (Z.of_nat i) = Ok a -> l !! i = Some a.
Proof.
  intros H%py_index_Ok.
  destruct (Z.ltb_spec (Z.of_nat i) 0); [lia|].
  by rewrite Nat2Z.id in H.
Qed.

Lemma py_index_succ {A} (l : list A) (i : nat) (a : A) :
  py_index l (Z.of_nat i + 1) = Ok a -> l !! S i = Some a.
Proof.
  replace (Z.of_nat i + 1) with (Z.of_nat (S i)) by lia. apply py_index_nat.
Qed.

Lemma py_index_last {A} (l : list A) (a d : A) :
  py_index l (-1) = Ok a -> List.last l d = a.
Proof.
  intros H%py_index_Ok. simpl in H.
  destruct l as [|x l] using rev_ind; [done|].
  rewrite List.last_last. rewrite length_app in H. simpl in H.
  replace (Z.to_nat _) with (length l) in H by lia.
  rewrite lookup_app_r in H by lia. rewrite Nat.sub_diag in H. by simplify_eq/=.
Qed.

Ltac index_facts :=
  repeat match goal with
  | H : py_index _ (Z.of_nat _) = Ok _ |- _ => apply py_index_nat in H
  | H : py_index _ (Z.of_nat _ + 1) = Ok _ |- _ => apply py_index_succ in H
  end;
  repeat match goal with
  | H1 : ?l !! ?i = Some ?a, H2 : ?l !! ?i = Some ?b |- _ =>
      assert (b = a) by congruence; subst b; clear H2
  end.

(** Loops over [range]: an invariant that every successful iteration
    preserves holds when the loop succeeds. *)
Lemma mfor_range_inv {S} (I : nat -> S -> world -> Prop) (n : nat)
      (body : Z -> S -> M S) s σ s' σ' :
  I O s σ ->
  (forall i s σ s' σ', (i < n)%nat -> I i s σ ->
     body (Z.of_nat i) s σ = (σ', Ok s') -> I (Datatypes.S i) s' σ') ->
  mfor (range (Z.of_nat n)) body s σ = (σ', Ok s') ->
  I n s' σ'.
Proof.
  intros H0 Hstep. unfold range. rewrite Nat2Z.id.
  assert (G : forall k j s σ, (j + k = n)%nat -> I j s σ ->
            mfor (map Z.of_nat (seq j k)) body s σ = (σ', Ok s') -> I n s' σ').
  { induction k as [|k IH]; intros j s1 σ1 Hj HI; simpl.
    - intros [-> ->]%ret_Ok. by replace n with j by lia.
    - intros H. inv_ok. eapply (IH (Datatypes.S j)); [lia| |done].
      eapply Hstep; [|done|done]. lia. }
  by apply (G n O).
Qed.

Lemma rfor_range_inv {S} (I : nat -> S -> Prop) (n : nat)
      (body : Z -> S -> result S) s s' :
  I O s ->
  (forall i s s', (i < n)%nat -> I i s ->
     body (Z.of_nat i) s = Ok s' -> I (Datatypes.S i) s') ->
  rfor (range (Z.of_nat n)) body s = Ok s' ->
  I n s'.
Proof.
  intros H0 Hstep. unfold range. rewrite Nat2Z.id.
  assert (G : forall k j s, (j + k = n)%nat -> I j s ->
            rfor (map Z.of_nat (seq j k)) body s = Ok s' -> I n s').
  { induction k as [|k IH]; intros j s1 Hj HI; simpl.
    - intros [= ->]. by replace n with j by lia.
    - intros H. inv_ok. eapply (IH (Datatypes.S j)); [lia| |done].
      eapply Hstep; [|done|done]. lia. }
  by apply (G n O).
Qed.

(** ** Allocation of the parameters *)

Lemma new_variable_Ok s σ σ' g :
  tfutils.new_variable s σ = (σ', Ok g) ->
  σ' = World (heap σ) (variables σ ++ [s])
  /\ g = tf.Var (length (variables σ)) s.
Proof. unfold tfutils.new_variable. intros [= <- <-]. auto. Qed.

Lemma w_Ok s σ σ' g :
  tfutils.w s σ = (σ', Ok g) ->
  Forall (fun d => 0 < d) s
  /\ σ' = World (heap σ) (variables σ ++ [s])
  /\ g = tf.Var (length (variables σ)) s.
Proof.
  unfold tfutils.w. destruct (forallb _ s) eqn:E; [|discriminate].
  intros H%new_variable_Ok. split; [|done].
  apply Forall_forall. intros d Hd%list_elem_of_In.
  rewrite forallb_forall in E. apply E in Hd. lia.
Qed.

Lemma b_Ok s σ σ' g :
  tfutils.b s σ = (σ', Ok g) ->
  Forall (fun d => 0 < d) s
  /\ σ' = World (heap σ) (variables σ ++ [s])
  /\ g = tf.Var (length (variables σ)) s.
Proof. apply w_Ok. Qed.

Lemma is_var_new vs s : Arch.is_var (vs ++ [s]) s (tf.Var (length vs) s).
Proof. exists (length vs). split; [done|]. by rewrite list_lookup_middle. Qed.

Lemma is_var_mono vs vs' s g :
  Arch.is_var vs s g -> Arch.is_var (vs ++ vs') s g.
Proof.
  intros (id & -> & H). exists id. split; [done|]. by apply lookup_app_l_Some.
Qed.

Lemma conv_layer_ok_mono vs vs' spec wb :
  Arch.conv_layer_ok vs spec wb -> Arch.conv_layer_ok (vs ++ vs') spec wb.
Proof.
  destruct spec as [[k fi] fo]. simpl.
  intros (? & ? & ?). auto using is_var_mono.
Qed.

Lemma fc_layer_ok_mono vs vs' spec wb :
  Arch.fc_layer_ok vs spec wb -> Arch.fc_layer_ok (vs ++ vs') spec wb.
Proof.
  destruct spec as [a c]. simpl.
  intros (? & ? & ?). auto using is_var_mono.
Qed.

Lemma conv_specs_lookup ks fms i k fi fo :
  ks !! i = Some k -> fms !! i = Some fi -> fms !! S i = Some fo ->
  Arch.conv_specs ks fms !! i = Some (k, fi, fo).
Proof.
  revert fms i. induction ks as [|k0 ks IH]; intros fms i Hk Hi Ho; [done|].
  destruct fms as [|f0 [|f1 fms]]; [done| |].
  - by destruct i.
  - destruct i as [|i]; simpl in *; [by simplify_eq|]. by apply IH.
Qed.

Lemma conv_specs_length ks fms :
  length fms = S (length ks) -> length (Arch.conv_specs ks fms) = length ks.
Proof.
  revert fms. induction ks as [|k ks IH]; intros fms H; [done|].
  destruct fms as [|f0 [|f1 fms]]; simpl in *; try lia.
  rewrite IH; [done|]. simpl. lia.
Qed.

Lemma fc_specs_lookup sizes i a c :
  sizes !! i = Some a -> sizes !! S i = Some c ->
  Arch.fc_specs sizes !! i = Some (a, c).
Proof.
  revert i. induction sizes as [|a0 sizes IH]; intros i Ha Hc; [done|].
  destruct sizes as [|c0 sizes]; [by destruct i|].
  destruct i as [|i]; simpl in *; [by simplify_eq|]. by apply IH.
Qed.

Lemma fc_specs_length sizes :
  length (Arch.fc_specs sizes) = Nat.pred (length sizes).
Proof.
  induction sizes as [|a [|c sizes] IH]; [done..|].
  change (Arch.fc_specs (a :: c :: sizes))
    with ((a, c) :: Arch.fc_specs (c :: sizes)).
  simpl in *. by rewrite IH.
Qed.

Lemma conv_out_snoc i ks k :
  Arch.conv_out i (ks ++ [k])
  = tfutils.conv_out_size (Arch.conv_out i ks) constants.PADDING_D k 1.
Proof. unfold Arch.conv_out. by rewrite fold_left_app. Qed.

Section conv_setup.
Import DScaleModel.

Variable self : config.
Variable σ0 : world.

Abbreviation ks := (kernel_sizes self).
Abbreviation fms := (conv_layer_fms self).

Lemma conv_setup_step_inv i st σ st' σ' :
  conv_setup_inv self σ0 i st σ ->
  conv_setup_step self (Z.of_nat i) st σ = (σ', Ok st') ->
  conv_setup_inv self σ0 (S i) st' σ'.
Proof.
  unfold conv_setup_inv.
  intros (Hh & [ext Hv] & Hoh & How & Hlw & Hlb & Hall) H.
  unfold conv_setup_step in H. inv_ok. index_facts.
  match goal with H : tfutils.w _ _ = _ |- _ =>
    apply w_Ok in H as (Hpw & -> & ->) end.
  match goal with H : tfutils.b _ _ = _ |- _ =>
    apply b_Ok in H as (Hpb & -> & ->) end.
  cbn [heap variables] in *.
  match goal with Hk : kernel_sizes _ !! _ = Some ?x |- _ =>
    rename x into k; rename Hk into Hki end.
  match goal with Hf : conv_layer_fms _ !! S _ = Some ?x |- _ =>
    rename x into fo; rename Hf into Hfoi end.
  match goal with Hf : conv_layer_fms _ !! i = Some ?x |- _ =>
    rename x into fi; rename Hf into Hfii end.
  pose proof (conv_specs_lookup _ _ _ _ _ _ Hki Hfii Hfoi) as Hspec.
  apply Forall_cons in Hpw as [Hk Hpw].
  apply Forall_cons in Hpw as [_ Hpw].
  apply Forall_cons in Hpw as [Hfi Hpw].
  apply Forall_cons in Hpw as [Hfo _].
  repeat split; cbn [heap variables conv_ws conv_bs last_out_height
                       last_out_width fst snd].
  - done.
  - exists (ext ++ [[k; k; fi; fo]] ++ [[fo]]). rewrite Hv.
    by rewrite <- !app_assoc.
  - rewrite (take_S_r _ _ _ Hki), conv_out_snoc. by rewrite Hoh.
  - rewrite (take_S_r _ _ _ Hki), conv_out_snoc. by rewrite How.
  - rewrite length_app. simpl. lia.
  - rewrite length_app. simpl. lia.
  - rewrite (take_S_r _ _ _ Hspec).
    rewrite zip_with_app by lia. simpl.
    apply Forall2_app.
    + eapply Forall2_impl; [done|]. intros spec wb Hok. rewrite <- app_assoc.
      by apply conv_layer_ok_mono.
    + constructor; [|constructor]. simpl. repeat split; try done.
      * apply is_var_mono, is_var_new.
      * rewrite length_app. simpl.
        replace (length (variables σ) + 1)%nat
          with (length (variables σ ++ [[k; k; fi; fo]])).
        -- apply is_var_new.
        -- rewrite length_app. simpl. lia.
Qed.

Lemma conv_setup_loop cs σ' :
  length fms = S (length ks) ->
  mfor (range (len ks)) (conv_setup_step self)
       (ConvSetup [] [] (height self) (width self)) σ0 = (σ', Ok cs) ->
  heap σ' = heap σ0
  /\ (exists ext, variables σ' = variables σ0 ++ ext)
  /\ last_out_height cs = Arch.conv_out (height self) ks
  /\ last_out_width cs = Arch.conv_out (width self) ks
  /\ length (conv_ws cs) = length ks /\ length (conv_bs cs) = length ks
  /\ Forall2 (Arch.conv_layer_ok (variables σ'))
       (Arch.conv_specs ks fms) (zip (conv_ws cs) (conv_bs cs)).
Proof.
  intros Hlen H.
  apply (mfor_range_inv (conv_setup_inv self σ0)) in H.
  - destruct H as (? & ? & Hh & Hw & ? & ? & Hall).
    rewrite firstn_all in Hh, Hw.
    rewrite take_ge in Hall by (rewrite conv_specs_length; [lia|done]).
    done.
  - repeat split; simpl; try done.
    exists []. by rewrite app_nil_r.
  - intros i s σ s' σ'' _. apply conv_setup_step_inv.
Qed.

End conv_setup.

Lemma deref_Ok l σ σ' v :
  deref l σ = (σ', Ok v) -> σ' = σ /\ heap σ !! l = Some v.
Proof.
  unfold deref. destruct (heap σ !! l); intros [= <- <-]; auto.
Qed.

Lemma list_insert0_Ok l x σ σ' u :
  list_insert0 l x σ = (σ', Ok u) ->
  exists v, heap σ !! l = Some v
            /\ σ' = World (<[l := x :: v]> (heap σ)) (variables σ).
Proof.
  unfold list_insert0. destruct (heap σ !! l); intros [= <-]; eauto.
Qed.

Section fc_setup.
Import DScaleModel.

Variable self : config.
Variable σ0 : world.
Variable sizes : list Z.
Hypothesis Hsizes : heap σ0 !! fc_layer_sizes self = Some sizes.

Lemma fc_setup_step_inv i st σ st' σ' :
  fc_setup_inv σ0 sizes i st σ ->
  fc_setup_step self (Z.of_nat i) st σ = (σ', Ok st') ->
  fc_setup_inv σ0 sizes (S i) st' σ'.
Proof.
  unfold fc_setup_inv.
  intros (Hh & [ext Hv] & Hlw & Hlb & Hall) H.
  unfold fc_setup_step in H. inv_ok.
  match goal with H : deref _ _ = _ |- _ =>
    apply deref_Ok in H as [-> Hd1] end.
  match goal with H : tfutils.w _ _ = _ |- _ =>
    apply w_Ok in H as (Hpw & -> & ->) end.
  match goal with H : deref _ _ = _ |- _ =>
    apply deref_Ok in H as [-> Hd2] end.
  match goal with H : tfutils.b _ _ = _ |- _ =>
    apply b_Ok in H as (Hpb & -> & ->) end.
  cbn [heap variables] in *.
  rewrite Hh, Hsizes in Hd1, Hd2.
  injection Hd1 as <-. injection Hd2 as <-. index_facts.
  match goal with Hf : _ !! S _ = Some ?x |- _ =>
    rename x into c; rename Hf into Hci end.
  match goal with Hf : _ !! i = Some ?x |- _ =>
    rename x into a; rename Hf into Hai end.
  pose proof (fc_specs_lookup _ _ _ _ Hai Hci) as Hspec.
  apply Forall_cons in Hpw as [Ha Hpw].
  apply Forall_cons in Hpw as [Hc _].
  repeat split; cbn [heap variables fst snd].
  - done.
  - exists (ext ++ [[a; c]] ++ [[c]]). rewrite Hv.
    by rewrite <- !app_assoc.
  - rewrite length_app. simpl. lia.
  - rewrite length_app. simpl. lia.
  - rewrite (take_S_r _ _ _ Hspec).
    rewrite zip_with_app by lia. simpl.
    apply Forall2_app.
    + eapply Forall2_impl; [done|]. intros spec wb Hok. rewrite <- app_assoc.
      by apply fc_layer_ok_mono.
    + constructor; [|constructor]. simpl. repeat split; try done.
      * apply is_var_mono, is_var_new.
      * apply is_var_new.
Qed.

Lemma fc_setup_loop fc σ' :
  mfor (range (len sizes - 1)) (fc_setup_step self) ([], []) σ0
    = (σ', Ok fc) ->
  heap σ' = heap σ0
  /\ (exists ext, variables σ' = variables σ0 ++ ext)
  /\ length (fst fc) = length (snd fc)
  /\ Forall2 (Arch.fc_layer_ok (variables σ'))
       (Arch.fc_specs sizes) (zip (fst fc) (snd fc)).
Proof.
  intros H. unfold len in H.
  destruct (length sizes) as [|n] eqn:E.
  { simpl in H. inv_ok.
    assert (sizes = []) as Hnil by (by destruct sizes).
    rewrite Hnil.
    repeat split; simpl; try done.
    exists []. by rewrite app_nil_r. }
  replace (Z.of_nat (S n) - 1) with (Z.of_nat n) in H by lia.
  apply (mfor_range_inv (fc_setup_inv σ0 sizes)) in H.
  - destruct H as (? & ? & ? & ? & Hall).
    rewrite take_ge in Hall
      by (rewrite fc_specs_length, E; simpl; lia).
    repeat split; try done. lia.
  - repeat split; simpl; try done.
    exists []. by rewrite app_nil_r.
  - intros i s σ s' σ'' _. apply fc_setup_step_inv.
Qed.

End fc_setup.

(** ** The graph that is built *)

Lemma op_Ok g g' :
  tf.op g = Ok g' -> g' = g /\ exists s, tf.static_shape g = Ok s.
Proof. unfold tf.op. intros H. inv_ok. eauto. Qed.

Ltac inv_op :=
  repeat match goal with
  | H : tf.conv2d _ _ _ _ = Ok _ |- _ => apply op_Ok in H as [-> [? H]]
  | H : tf.add _ _ = Ok _ |- _ => apply op_Ok in H as [-> [? H]]
  | H : tf.relu _ = Ok _ |- _ => apply op_Ok in H as [-> [? H]]
  | H : tf.max_pool _ _ _ _ = Ok _ |- _ => apply op_Ok in H as [-> [? H]]
  | H : tf.reshape _ _ = Ok _ |- _ => apply op_Ok in H as [-> [? H]]
  | H : tf.matmul _ _ = Ok _ |- _ => apply op_Ok in H as [-> [? H]]
  | H : tf.sigmoid _ = Ok _ |- _ => apply op_Ok in H as [-> [? H]]
  | H : tf.clip_by_value _ _ _ = Ok _ |- _ => apply op_Ok in H as [-> [? H]]
  | H : tf.placeholder _ = Ok _ |- _ => apply op_Ok in H as [-> [? H]]
  end.

Lemma conv_stack_snoc x l wb :
  Arch.conv_stack x (l ++ [wb]) = Arch.conv_block (Arch.conv_stack x l) wb.
Proof. unfold Arch.conv_stack. by rewrite fold_left_app. Qed.

Lemma fc_stack_snoc x l wb :
  Arch.fc_stack x (l ++ [wb])
  = tf.Sigmoid (Arch.affine (fold_left fc_hidden l x) wb).
Proof.
  revert x. induction l as [|a l IH]; intros x; [done|].
  simpl. rewrite <- IH. by destruct l.
Qed.

Section forward.
Import DScaleModel.

Variables (input_frames : tf.graph) (ws bs : list tf.graph).
Hypothesis Hlen : length bs = length ws.

(** The convolution loop leaves the stack of convolution blocks in
    [preds], or the initial tensor when there is no layer. *)
Lemma convolution_loop z st :
  rfor (range (len ws)) (conv_layer ws bs) (z, input_frames) = Ok st ->
  snd st = Arch.conv_stack input_frames (zip ws bs)
  /\ fst st = (if decide (ws = []) then z else snd st).
Proof.
  intros H.
  apply (rfor_range_inv (fun i st =>
           snd st = Arch.conv_stack input_frames (take i (zip ws bs))
           /\ fst st = if decide (i = O) then z else snd st)) in H.
  - destruct H as [H1 H2].
    rewrite take_ge in H1 by (rewrite length_zip_with; lia).
    split; [done|]. rewrite H2.
    destruct ws; simpl; [done|]. by destruct (decide _).
  - done.
  - intros i [p li] [p' li'] Hi [IH _] Hb. simpl in *.
    unfold conv_layer in Hb. inv_ok. inv_op. index_facts. simpl.
    split; [|done].
    match goal with Hw : ws !! i = Some ?w, Hb : bs !! i = Some ?b |- _ =>
      assert (Hz : zip ws bs !! i = Some (w, b))
        by (apply lookup_zip_with_Some; eauto) end.
    by rewrite (take_S_r _ _ _ Hz), conv_stack_snoc.
Qed.

End forward.

Section forward_fc.
Import DScaleModel.

Variables (ws bs : list tf.graph).
Hypothesis Hlen : length bs = length ws.

Lemma fully_connected_Ok x p :
  fully_connected ws bs x = Ok p -> p = Arch.fc_stack x (zip ws bs).
Proof.
  unfold fully_connected. intros H.
  apply (rfor_range_inv (fun i p =>
           if decide (i = length ws /\ i <> O)
           then p = Arch.fc_stack x (zip ws bs)
           else p = fold_left fc_hidden (take i (zip ws bs)) x)) in H.
  - destruct (decide _) as [|Hn]; [done|].
    assert (ws = []) as -> by (destruct ws; [done|]; simpl in Hn; lia).
    by subst.
  - by destruct (decide _) as [[? ?]|].
  - intros i q q' Hi IH Hb.
    destruct (decide (i = length ws /\ _)) as [[? ?]|_]; [lia|].
    unfold fc_layer in Hb. inv_ok. index_facts.
    match goal with Hw : ws !! i = Some ?w, Hb : bs !! i = Some ?b |- _ =>
      assert (Hz : zip ws bs !! i = Some (w, b))
        by (apply lookup_zip_with_Some; eauto) end.
    unfold len in Hb.
    destruct (Z.eqb_spec (Z.of_nat i) (Z.of_nat (length ws) - 1)) as [E|E];
      inv_op.
    + destruct (decide _) as [_|Hn]; [|lia].
      assert (Hall : take (S i) (zip ws bs) = zip ws bs)
        by (apply take_ge; rewrite length_zip_with; lia).
      rewrite <- Hall, (take_S_r _ _ _ Hz), fc_stack_snoc. by subst.
    + destruct (decide _) as [[? ?]|_]; [lia|].
      rewrite (take_S_r _ _ _ Hz), fold_left_app. by subst.
Qed.

End forward_fc.

Lemma max_pool_shape_Ok sx ksize strides p sh :
  tf.max_pool_shape sx ksize strides p = Ok sh ->
  exists n h w c oh ow,
    sx = [n; h; w; c] /\ sh = [n; oh; ow; c].
Proof.
  unfold tf.max_pool_shape.
  destruct sx as [|n [|h [|w [|c [|? ?]]]]]; try discriminate.
  repeat (match goal with
          | |- context [match ?l with _ => _ end] => destruct l; try discriminate
          end).
  intros H. inv_ok. by eexists _, _, _, _, _, _.
Qed.

Lemma pooling_zeros g rest p :
  DScaleModel.pooling (tf.Zeros g rest) = Ok p -> length rest = 3%nat.
Proof.
  unfold DScaleModel.pooling. intros H. inv_op. simpl in H. inv_ok.
  match goal with H : tf.max_pool_shape _ _ _ _ = _ |- _ =>
    apply max_pool_shape_Ok in H as (n & h & w & c & oh & ow & E & _) end.
  subst a. destruct a0 as [|d ?]; [done|].
  destruct (forallb _ rest); [|done].
  match goal with H : Ok _ = Ok _ |- _ => injection H as _ E end.
  apply (f_equal length) in E. unfold tf.known in E.
  by rewrite length_map in E.
Qed.

(** What a successful construction establishes. *)
Lemma init_Ok scale h w fms ks fc σ σ' m :
  DScaleModel.__init__ scale h w fms ks fc σ = (σ', Ok m) ->
  exists orig convs fcs c0 d0 s1 s2 s3,
    length fms = S (length ks)
    /\ heap σ !! fc = Some orig
    /\ heap σ' = <[fc := Arch.flattened_count h w ks fms :: orig]> (heap σ)
    /\ (exists ext, variables σ' = variables σ ++ ext)
    /\ DScaleModel.self m = DScaleModel.Config scale h w fms ks fc
    /\ fms !! O = Some c0
    /\ DScaleModel.input_frames m
       = tf.Placeholder [None; Some h; Some w; Some c0]
    /\ DScaleModel.batch_size m = tf.Shape0 (DScaleModel.input_frames m)
    /\ convs <> []
    /\ Forall2 (Arch.conv_layer_ok (variables σ')) (Arch.conv_specs ks fms)
         convs
    /\ Forall2 (Arch.fc_layer_ok (variables σ'))
         (Arch.fc_specs (Arch.flattened_count h w ks fms :: orig)) fcs
    /\ tf.static_shape
         (Arch.pool (Arch.conv_stack (DScaleModel.input_frames m) convs))
       = Ok [d0; Some s1; Some s2; Some s3]
    /\ DScaleModel.preds m
       = Arch.network (DScaleModel.input_frames m) convs (s1 * s2 * s3) fcs
    /\ is_ok (tf.static_shape (DScaleModel.preds m)) = true.
Proof.
  unfold DScaleModel.__init__. intros H. inv_ok.
  match goal with H : py_assert _ _ _ = _ |- _ =>
    unfold py_assert in H;
    destruct (Z.eqb_spec (len ks) (len fms - 1)) as [Hlen|];
      [apply ret_Ok in H as [-> _] | discriminate] end.
  unfold len in Hlen.
  unfold DScaleModel.define_graph in H. simpl in H. inv_ok.
  assert (Hl : length fms = S (length ks)) by lia. clear Hlen.
  match goal with H : py_index fms 0 = _ |- _ =>
    apply (py_index_nat fms O) in H; rename H into Hc0 end.
  match goal with H : py_index fms (-1) = Ok ?x |- _ =>
    apply (py_index_last _ _ 0) in H; rename H into Hlast;
    rename x into c_last end.
  inv_op.
  match goal with H : mfor _ (DScaleModel.conv_setup_step _) _ _ = _ |- _ =>
    apply (conv_setup_loop (DScaleModel.Config scale h w fms ks fc)) in H
      as (Hh1 & [ext1 Hv1] & Hoh & How & Hlw & Hlb & Hconv); [|done] end.
  cbn [DScaleModel.kernel_sizes DScaleModel.conv_layer_fms DScaleModel.height
       DScaleModel.width] in *.
  match goal with H : list_insert0 _ _ _ = _ |- _ =>
    apply list_insert0_Ok in H as (orig & Horig & ->) end.
  match goal with H : deref _ _ = _ |- _ =>
    apply deref_Ok in H as [-> Hd] end.
  cbn [heap variables] in *. rewrite lookup_insert_eq in Hd.
  injection Hd as <-.
  rewrite Hoh, How in *. subst c_last.
  fold (Arch.flattened_count h w ks fms) in *.
  set (flat := Arch.flattened_count h w ks fms) in *.
  match goal with H : mfor _ (DScaleModel.fc_setup_step _) _ _ = _ |- _ =>
    apply (fc_setup_loop (DScaleModel.Config scale h w fms ks fc) _
             (flat :: orig)) in H
      as (Hh2 & [ext2 Hv2] & Hlfc & Hfc);
      [|by apply lookup_insert_eq] end.
  cbn [heap variables] in *.
  match goal with H : DScaleModel.generate_predictions _ _ _ _ _ _ = _ |- _ =>
    unfold DScaleModel.generate_predictions in H; inv_ok end.
  match goal with H : DScaleModel.convolutions _ _ _ _ = _ |- _ =>
    unfold DScaleModel.convolutions, tf.zeros, tf.shape0 in H; inv_ok end.
  match goal with H : rfor _ (DScaleModel.conv_layer _ _) _ = _ |- _ =>
    apply convolution_loop in H as [Hstack Hpreds]; [|lia] end.
  match goal with H : DScaleModel.fully_connected _ _ _ = _ |- _ =>
    apply fully_connected_Ok in H; [|lia]; rename H into Hfcs end.
  match goal with H : tf.op (tf.Zeros _ _) = _ |- _ =>
    apply op_Ok in H as [-> _] end.
  destruct (decide (DScaleModel.conv_ws a2 = [])) as [Hnil|Hne].
  { rewrite Hpreds in *.
    match goal with H : DScaleModel.pooling _ = _ |- _ =>
      by apply pooling_zeros in H end. }
  rewrite Hpreds, Hstack in *.
  unfold DScaleModel.pooling, DScaleModel.clip in *. inv_op.
  match goal with H : DScaleModel.flatten _ = _ |- _ =>
    unfold DScaleModel.flatten, tf.get_shape_as_list in H; inv_ok;
    rename H into Hflat end.
  inv_op.
  match goal with
    H : tf.static_shape (tf.MaxPool _ _ _ _) = Ok ?sh,
    H' : tf.static_shape (tf.MaxPool _ _ _ _) = Ok ?sh' |- _ =>
      assert (sh' = sh) by congruence; subst sh'; clear H';
      pose proof H as Hpool; simpl in H; inv_ok
  end.
  match goal with H : tf.max_pool_shape _ _ _ _ = _ |- _ =>
    apply max_pool_shape_Ok in H
      as (d0 & dh & dw & dc & oh & ow & -> & ->) end.
  repeat match goal with
  | H : py_index _ _ = Ok _ |- _ => apply py_index_Ok in H; simpl in H;
                                    injection H as <-
  end.
  unfold DScaleModel.py_mul, DScaleModel.as_int in *.
  destruct oh as [s1|]; [|discriminate].
  destruct ow as [s2|]; [|discriminate]. inv_ok.
  destruct dc as [s3|]; [|discriminate]. inv_ok.
  exists orig, (zip (DScaleModel.conv_ws a2) (DScaleModel.conv_bs a2)),
    (zip a6.1 a6.2), a0, d0, s1, s2, s3.
  cbn [DScaleModel.self DScaleModel.input_frames DScaleModel.batch_size
       DScaleModel.preds].
  repeat split; try done.
  - by rewrite <- Hh1.
  - by rewrite Hh2, Hh1.
  - exists (ext1 ++ ext2). by rewrite Hv2, Hv1, <- app_assoc.
  - intros Hz. apply Hne. apply (f_equal length) in Hz.
    rewrite length_zip_with in Hz. simpl in Hz.
    assert (length (DScaleModel.conv_ws a2) = O) by lia.
    by destruct (DScaleModel.conv_ws a2).
  - eapply Forall2_impl; [done|]. intros spec wb Hok. rewrite Hv2.
    by apply conv_layer_ok_mono.
  - match goal with H : tf.static_shape (tf.ClipByValue _ _ _) = _ |- _ =>
      unfold Arch.network, Arch.clipped, Arch.flat, Arch.pool; by rewrite H
    end.
Qed.

(** ** Static shapes of the architecture *)

Lemma static_shape_var vs s g :
  Arch.is_var vs s g -> tf.static_shape g = Ok (tf.known s).
Proof. by intros (id & -> & _). Qed.

Lemma conv_stack_cons x wb l :
  Arch.conv_stack x (wb :: l) = Arch.conv_stack (Arch.conv_block x wb) l.
Proof. done. Qed.

Lemma conv_stack_static_inv x l s :
  tf.static_shape (Arch.conv_stack x l) = Ok s ->
  exists sx, tf.static_shape x = Ok sx.
Proof.
  revert x. induction l as [|wb l IH]; intros x H; [eauto|].
  rewrite conv_stack_cons in H. apply IH in H as [sx H].
  simpl in H. inv_ok. eauto.
Qed.

(** One convolution block under the configured padding: the kernel fits,
    and the output size is the one [conv_out_size] computes. *)
Lemma conv_block_static vs x wb d0 h w k fi fo s :
  Arch.conv_layer_ok vs (k, fi, fo) wb ->
  tf.static_shape x = Ok [d0; Some h; Some w; Some fi] ->
  tf.static_shape (Arch.conv_block x wb) = Ok s ->
  k <= h /\ k <= w
  /\ s = [d0; Some (tfutils.conv_out_size h constants.PADDING_D k 1);
          Some (tfutils.conv_out_size w constants.PADDING_D k 1); Some fo].
Proof.
  intros (Hw%static_shape_var & Hb%static_shape_var & Hk & Hfi & Hfo) Hx.
  unfold Arch.conv_block. simpl. rewrite Hx, Hw, Hb. simpl.
  rewrite Z.eqb_refl. simpl. unfold tf.window_out. simpl.
  destruct (Z.ltb_spec h k); [discriminate|]. simpl.
  destruct (Z.ltb_spec w k); [discriminate|]. simpl.
  unfold tf.broadcast_shape. simpl. rewrite Z.eqb_refl. simpl.
  intros [= <-]. rewrite !Z.div_1_r.
  repeat split; try done.
  by replace (h - k + 1) with (h - (k - 1)) by lia;
     replace (w - k + 1) with (w - (k - 1)) by lia.
Qed.

Lemma conv_block_static_Ok vs x wb d0 h w k fi fo :
  Arch.conv_layer_ok vs (k, fi, fo) wb ->
  tf.static_shape x = Ok [d0; Some h; Some w; Some fi] ->
  k <= h -> k <= w ->
  tf.static_shape (Arch.conv_block x wb)
  = Ok [d0; Some (tfutils.conv_out_size h constants.PADDING_D k 1);
        Some (tfutils.conv_out_size w constants.PADDING_D k 1); Some fo].
Proof.
  intros (Hw%static_shape_var & Hb%static_shape_var & Hk & Hfi & Hfo) Hx ? ?.
  unfold Arch.conv_block. simpl. rewrite Hx, Hw, Hb. simpl.
  rewrite Z.eqb_refl. simpl. unfold tf.window_out. simpl.
  destruct (Z.ltb_spec h k); [lia|]. simpl.
  destruct (Z.ltb_spec w k); [lia|]. simpl.
  unfold tf.broadcast_shape. simpl. rewrite Z.eqb_refl. simpl.
  rewrite !Z.div_1_r.
  by replace (h - k + 1) with (h - (k - 1)) by lia;
     replace (w - k + 1) with (w - (k - 1)) by lia.
Qed.

Lemma conv_stack_static vs ks : forall fms convs x d0 h w c0 s,
  Forall2 (Arch.conv_layer_ok vs) (Arch.conv_specs ks fms) convs ->
  length fms = S (length ks) ->
  fms !! O = Some c0 ->
  tf.static_shape x = Ok [d0; Some h; Some w; Some c0] ->
  tf.static_shape (Arch.conv_stack x convs) = Ok s ->
  s = [d0; Some (Arch.conv_out h ks); Some (Arch.conv_out w ks);
       Some (List.last fms 0)]
  /\ Forall (fun d => 0 < d) (Arch.conv_outs h ks)
  /\ Forall (fun d => 0 < d) (Arch.conv_outs w ks).
Proof.
  induction ks as [|k ks IH]; intros fms convs x d0 h w c0 s Hall Hlen Hc0 Hx Hs.
  - destruct fms as [|c [|? ?]]; try done. simpl in *.
    inversion Hall; subst. unfold Arch.conv_stack in Hs. simpl in Hs.
    rewrite Hx in Hs. injection Hs as <-. injection Hc0 as ->.
    repeat split; constructor.
  - destruct fms as [|c [|fo fms]]; try done.
    simpl in Hc0. injection Hc0 as ->.
    change (Arch.conv_specs (k :: ks) (c0 :: fo :: fms))
      with ((k, c0, fo) :: Arch.conv_specs ks (fo :: fms)) in Hall.
    inversion Hall as [|spec wb specs convs' Hwb Hrest]; subst.
    rewrite conv_stack_cons in Hs.
    destruct (conv_stack_static_inv _ _ _ Hs) as [s1 Hs1].
    destruct (conv_block_static _ _ _ _ _ _ _ _ _ _ Hwb Hx Hs1)
      as (Hkh & Hkw & ->).
    destruct (IH (fo :: fms) convs' _ _ _ _ fo s Hrest ltac:(simpl in *; lia)
                 eq_refl Hs1 Hs) as (-> & Hh & Hw).
    repeat split; try done.
    + simpl. constructor; [|done]. unfold tfutils.conv_out_size.
      destruct Hwb as (_ & _ & ? & _). destruct constants.PADDING_D; lia.
    + simpl. constructor; [|done]. unfold tfutils.conv_out_size.
      destruct Hwb as (_ & _ & ? & _). destruct constants.PADDING_D; lia.
Qed.

Lemma pool_static x d0 h w c s :
  tf.static_shape x = Ok [d0; Some h; Some w; Some c] ->
  tf.static_shape (Arch.pool x) = Ok s ->
  2 <= h /\ 2 <= w /\ s = [d0; Some (h / 2); Some (w / 2); Some c].
Proof.
  intros Hx. unfold Arch.pool. simpl. rewrite Hx. simpl.
  unfold tf.window_out. simpl.
  destruct (Z.ltb_spec h 2); [discriminate|]. simpl.
  destruct (Z.ltb_spec w 2); [discriminate|]. simpl.
  intros [= <-]. repeat split; try done.
  by replace (h - 2 + 2) with h by lia; replace (w - 2 + 2) with w by lia.
Qed.

Lemma flat_static x a b c n s :
  tf.static_shape x = Ok [None; Some a; Some b; Some c] ->
  tf.static_shape (Arch.flat x n) = Ok s ->
  0 <= n /\ s = [None; Some n].
Proof.
  intros Hx. unfold Arch.flat. simpl. rewrite Hx. simpl.
  unfold tf.reshape_shape. simpl.
  destruct (Z.ltb_spec n (-1)); [discriminate|]. simpl.
  destruct (Z.eqb_spec n (-1)); simpl; [discriminate|].
  intros [= <-]. split; [lia|done].
Qed.

Lemma affine_static vs x wb d0 a c :
  Arch.fc_layer_ok vs (a, c) wb ->
  tf.static_shape x = Ok [d0; Some a] ->
  tf.static_shape (Arch.affine x wb) = Ok [d0; Some c].
Proof.
  intros (Hw%static_shape_var & Hb%static_shape_var & _) Hx.
  unfold Arch.affine. simpl. rewrite Hx, Hw, Hb. simpl.
  rewrite Z.eqb_refl. unfold tf.broadcast_shape. simpl.
  by rewrite Z.eqb_refl.
Qed.

Lemma fc_stack_static vs sizes : forall fcs x d0 a,
  Forall2 (Arch.fc_layer_ok vs) (Arch.fc_specs (a :: sizes)) fcs ->
  tf.static_shape x = Ok [d0; Some a] ->
  tf.static_shape (Arch.fc_stack x fcs)
  = Ok [d0; Some (List.last (a :: sizes) 0)].
Proof.
  induction sizes as [|c sizes IH]; intros fcs x d0 a Hall Hx.
  - inversion Hall; subst. done.
  - change (Arch.fc_specs (a :: c :: sizes))
      with ((a, c) :: Arch.fc_specs (c :: sizes)) in Hall.
    inversion Hall as [|spec wb specs fcs' Hwb Hrest]; subst.
    pose proof (affine_static _ _ _ _ _ _ Hwb Hx) as Haff.
    change (List.last (a :: c :: sizes) 0) with (List.last (c :: sizes) 0).
    destruct fcs' as [|wb' fcs''].
    + destruct sizes; [|inversion Hrest]. done.
    + change (Arch.fc_stack x (wb :: wb' :: fcs''))
        with (Arch.fc_stack (tf.Relu (Arch.affine x wb)) (wb' :: fcs'')).
      by apply IH.
Qed.

Lemma flat_static_Ok x a b c n :
  0 <= n ->
  tf.static_shape x = Ok [None; Some a; Some b; Some c] ->
  tf.static_shape (Arch.flat x n) = Ok [None; Some n].
Proof.
  intros Hn Hx. unfold Arch.flat. simpl. rewrite Hx. simpl.
  unfold tf.reshape_shape. simpl.
  destruct (Z.ltb_spec n (-1)); [lia|]. simpl.
  destruct (Z.eqb_spec n (-1)); [lia|]. done.
Qed.

Lemma conv_specs_positive vs ks : forall fms convs,
  Forall2 (Arch.conv_layer_ok vs) (Arch.conv_specs ks fms) convs ->
  length fms = S (length ks) -> ks <> [] ->
  Forall (fun d => 0 < d) ks /\ Forall (fun d => 0 < d) fms.
Proof.
  induction ks as [|k ks IH]; intros fms convs Hall Hlen Hne; [done|].
  destruct fms as [|c [|fo fms]]; try done.
  change (Arch.conv_specs (k :: ks) (c :: fo :: fms))
    with ((k, c, fo) :: Arch.conv_specs ks (fo :: fms)) in Hall.
  inversion Hall as [|spec wb specs convs' Hwb Hrest]; subst.
  destruct Hwb as (_ & _ & Hk & Hc & Hfo).
  destruct ks as [|k' ks'].
  - destruct fms; [|done]. split; repeat constructor; done.
  - destruct (IH (fo :: fms) convs' Hrest) as [Hks Hfms]; [simpl in *; lia|done|].
    split; constructor; done.
Qed.

Lemma last_positive (l : list Z) :
  l <> [] -> Forall (fun d => 0 < d) l -> 0 < List.last l 0.
Proof.
  intros Hne Hall. destruct l as [|x l] using rev_ind; [done|].
  rewrite List.last_last. apply Forall_app in Hall as [_ Hx].
  by inversion Hx.
Qed.

(** Everything a successful construction fixes: the heap, the graph and
    its static shapes. *)
Lemma init_static scale h w fms ks fc σ σ' m :
  DScaleModel.__init__ scale h w fms ks fc σ = (σ', Ok m) ->
  exists orig convs fcs c0,
    length fms = S (length ks) /\ ks <> []
    /\ heap σ !! fc = Some orig
    /\ heap σ' = <[fc := Arch.flattened_count h w ks fms :: orig]> (heap σ)
    /\ (exists ext, variables σ' = variables σ ++ ext)
    /\ DScaleModel.self m = DScaleModel.Config scale h w fms ks fc
    /\ fms !! O = Some c0
    /\ DScaleModel.input_frames m
       = tf.Placeholder [None; Some h; Some w; Some c0]
    /\ DScaleModel.batch_size m = tf.Shape0 (DScaleModel.input_frames m)
    /\ 0 <= h /\ 0 <= w
    /\ Forall2 (Arch.conv_layer_ok (variables σ')) (Arch.conv_specs ks fms)
         convs
    /\ Forall2 (Arch.fc_layer_ok (variables σ'))
         (Arch.fc_specs (Arch.flattened_count h w ks fms :: orig)) fcs
    /\ DScaleModel.preds m
       = Arch.network (DScaleModel.input_frames m) convs
           (Arch.flattened_count h w ks fms) fcs
    /\ tf.static_shape (Arch.conv_stack (DScaleModel.input_frames m) convs)
       = Ok [None; Some (Arch.conv_out h ks); Some (Arch.conv_out w ks);
             Some (List.last fms 0)]
    /\ 2 <= Arch.conv_out h ks /\ 2 <= Arch.conv_out w ks
    /\ 0 < List.last fms 0
    /\ Forall (fun d => 0 < d) (Arch.conv_outs h ks)
    /\ Forall (fun d => 0 < d) (Arch.conv_outs w ks)
    /\ tf.static_shape (DScaleModel.preds m)
       = Ok [None;
             Some (List.last (Arch.flattened_count h w ks fms :: orig) 0)].
Proof.
  intros H. apply init_Ok in H
    as (orig & convs & fcs & c0 & d0 & s1 & s2 & s3 & Hlen & Horig & Hheap
        & Hext & Hself & Hc0 & Hin & Hbs & Hne & Hconvs & Hfcs & Hpool
        & Hpreds & _).
  exists orig, convs, fcs, c0.
  assert (Hks : ks <> []).
  { intros ->. destruct fms as [|? [|? ?]]; try done. by inversion Hconvs. }
  pose proof Hpool as Hpool'. unfold Arch.pool in Hpool'. simpl in Hpool'.
  inv_ok.
  match goal with H : tf.static_shape (Arch.conv_stack _ _) = Ok ?sx |- _ =>
    rename H into Hstack; rename sx into sx end.
  destruct (conv_stack_static_inv _ _ _ Hstack) as [sin Hsin].
  rewrite Hin in Hsin. simpl in Hsin.
  destruct (Z.leb_spec 0 h); [|discriminate].
  destruct (Z.leb_spec 0 w); [|discriminate].
  assert (Hph : tf.static_shape (DScaleModel.input_frames m)
                = Ok [None; Some h; Some w; Some c0]).
  { rewrite Hin. simpl. destruct (0 <=? c0); [|discriminate].
    destruct (Z.leb_spec 0 h); [|lia]. by destruct (Z.leb_spec 0 w); [|lia]. }
  destruct (conv_stack_static _ _ _ _ _ _ _ _ _ _ Hconvs Hlen Hc0 Hph Hstack)
    as (-> & Hhs & Hws).
  destruct (pool_static _ _ _ _ _ _ Hstack Hpool) as (HH & HW & [= -> -> -> ->]).
  destruct (conv_specs_positive _ _ _ _ Hconvs Hlen Hks) as [_ Hfms].
  assert (HC : 0 < List.last fms 0).
  { apply last_positive; [|done]. by destruct fms. }
  fold (Arch.flattened_count h w ks fms) in Hpreds.
  assert (Hflat : 0 < Arch.flattened_count h w ks fms).
  { unfold Arch.flattened_count.
    assert (1 <= Arch.conv_out h ks / 2) by (apply Z.div_le_lower_bound; lia).
    assert (1 <= Arch.conv_out w ks / 2) by (apply Z.div_le_lower_bound; lia).
    nia. }
  repeat split; try done.
  rewrite Hpreds. unfold Arch.network, Arch.clipped.
  change (tf.static_shape (tf.ClipByValue ?x _ _)) with (tf.static_shape x).
  apply (fc_stack_static (variables σ')); [done|].
  eapply flat_static_Ok; [lia|]. exact Hpool.
Qed.

(** * The claims about construction *)

(** C5.  Whenever [len(kernel_sizes) != len(conv_layer_fms) - 1] the
    constructor raises the [AssertionError] of its first statement: no model
    is produced, and nothing has been touched yet. *)
Theorem length_mismatch_is_rejected scale h w fms ks fc σ :
  len ks <> len fms - 1 ->
  DScaleModel.__init__ scale h w fms ks fc σ
  = (σ, Raise (AssertionError
                 "len(kernel_sizes) must = len(conv_layer_fms) - 1")).
Proof.
  intros Hne. unfold DScaleModel.__init__, bind, py_assert.
  by destruct (Z.eqb_spec (len ks) (len fms - 1)).
Qed.

Lemma length_mismatch_is_rejected_witness :
  DScaleModel.__init__ 0 8 8 [3; 8] [3; 3] 1%positive caller_heap
  = (caller_heap,
     Raise (AssertionError
              "len(kernel_sizes) must = len(conv_layer_fms) - 1")).
Proof.
  apply (length_mismatch_is_rejected 0 8 8 [3; 8] [3; 3] 1%positive).
  vm_compute. discriminate.
Defined.

(** C2, as stated, fails: in the scenario of section 8 the caller's list
    is [[1]] before the constructor runs and [[14400; 1]] after. *)
Lemma caller_list_is_mutated :
  exists σ' m,
    scenario_model = (σ', Ok m)
    /\ heap caller_heap !! 1%positive = Some [1]
    /\ heap σ' !! 1%positive = Some [14400; 1]
    /\ heap σ' !! 1%positive <> heap caller_heap !! 1%positive.
Proof.
  eexists _, _. split; [vm_compute; reflexivity|].
  repeat split; try (vm_compute; reflexivity).
  vm_compute. discriminate.
Qed.

(** C2, amended.  The object keeps the caller's reference, and a successful
    construction has inserted the flattened feature count at the head of
    the list it points to: the caller's list is the derived sequence, and
    nothing else in the heap has changed. *)
Theorem fc_layer_sizes_is_updated_in_place scale h w fms ks fc σ σ' m :
  DScaleModel.__init__ scale h w fms ks fc σ = (σ', Ok m) ->
  exists orig,
    heap σ !! fc = Some orig
    /\ DScaleModel.fc_layer_sizes (DScaleModel.self m) = fc
    /\ heap σ' !! fc = Some (Arch.flattened_count h w ks fms :: orig)
    /\ forall l, l <> fc -> heap σ' !! l = heap σ !! l.
Proof.
  intros H. apply init_static in H
    as (orig & convs & fcs & c0 & _ & _ & Horig & Hheap & _ & Hself & _).
  exists orig. rewrite Hself, Hheap. repeat split; try done.
  - by rewrite lookup_insert_eq.
  - intros l Hl. by rewrite lookup_insert_ne.
Qed.

Lemma fc_layer_sizes_is_updated_in_place_witness :
  exists orig,
    heap caller_heap !! 1%positive = Some orig
    /\ DScaleModel.fc_layer_sizes (DScaleModel.self (the_model small_model))
       = 1%positive
    /\ heap (fst small_model) !! 1%positive
       = Some (Arch.flattened_count 4 4 [1] [1; 1] :: orig)
    /\ forall l, l <> 1%positive ->
                 heap (fst small_model) !! l = heap caller_heap !! l.
Proof.
  apply (fc_layer_sizes_is_updated_in_place 0 4 4 [1; 1] [1] 1%positive
           caller_heap (fst small_model) (the_model small_model)).
  vm_compute. reflexivity.
Defined.

Lemma flattened_node_fc_stack x fcs :
  Arch.flattened_node (Arch.fc_stack x fcs) = Arch.flattened_node x.
Proof.
  revert x. induction fcs as [|wb fcs IH]; intros x; [done|].
  destruct fcs as [|wb' fcs]; [done|].
  change (Arch.fc_stack x (wb :: wb' :: fcs))
    with (Arch.fc_stack (tf.Relu (Arch.affine x wb)) (wb' :: fcs)).
  by rewrite IH.
Qed.

Lemma flattened_node_network input convs n fcs :
  Arch.flattened_node (Arch.network input convs n fcs)
  = Some (Arch.flat (Arch.pool (Arch.conv_stack input convs)) n).
Proof.
  unfold Arch.network, Arch.clipped. simpl.
  by rewrite flattened_node_fc_stack.
Qed.

(** C3.  In a model that was constructed, the node that is flattened for
    the fully-connected stack has static shape [[None; n]] where [n] is the
    head of the list at [fc_layer_sizes] (the derived sizes), and that is
    the count obtained by carrying height and width through
    [conv_out_size] layer by layer, halving both and multiplying by the
    last channel count. *)
Theorem flattened_length_is_first_fc_size scale h w fms ks fc σ σ' m :
  DScaleModel.__init__ scale h w fms ks fc σ = (σ', Ok m) ->
  exists r sizes n,
    Arch.flattened_node (DScaleModel.preds m) = Some r
    /\ tf.static_shape r = Ok [None; Some n]
    /\ heap σ' !! fc = Some sizes
    /\ py_index sizes 0 = Ok n
    /\ n = Arch.flattened_count h w ks fms.
Proof.
  intros H. apply init_static in H
    as (orig & convs & fcs & c0 & _ & _ & _ & Hheap & _ & _ & _ & _ & _ & _
        & _ & _ & _ & Hpreds & Hstack & HH & HW & HC & _).
  exists (Arch.flat (Arch.pool (Arch.conv_stack (DScaleModel.input_frames m)
                                  convs))
            (Arch.flattened_count h w ks fms)),
    (Arch.flattened_count h w ks fms :: orig),
    (Arch.flattened_count h w ks fms).
  rewrite Hpreds, flattened_node_network, Hheap, lookup_insert_eq.
  split; [done|]. split; [|done].
  eapply flat_static_Ok.
  - unfold Arch.flattened_count.
    assert (1 <= Arch.conv_out h ks / 2) by (apply Z.div_le_lower_bound; lia).
    assert (1 <= Arch.conv_out w ks / 2) by (apply Z.div_le_lower_bound; lia).
    nia.
  - unfold Arch.pool. simpl. rewrite Hstack. simpl. unfold tf.window_out.
    simpl. destruct (Z.ltb_spec (Arch.conv_out h ks) 2); [lia|].
    destruct (Z.ltb_spec (Arch.conv_out w ks) 2); [lia|]. reflexivity.
Qed.

Lemma flattened_length_is_first_fc_size_witness :
  exists r sizes n,
    Arch.flattened_node (DScaleModel.preds (the_model scenario_model))
    = Some r
    /\ tf.static_shape r = Ok [None; Some n]
    /\ heap (fst scenario_model) !! 1%positive = Some sizes
    /\ py_index sizes 0 = Ok n
    /\ n = Arch.flattened_count 64 64 [3; 3] [3; 8; 16].
Proof.
  apply (flattened_length_is_first_fc_size 0 64 64 [3; 8; 16] [3; 3]
           1%positive caller_heap).
  vm_compute. reflexivity.
Defined.

(** ** Counting operations *)

Lemma conv_stack_counts vs specs convs x :
  Forall2 (Arch.conv_layer_ok vs) specs convs ->
  Arch.count_max_pool (Arch.conv_stack x convs) = Arch.count_max_pool x
  /\ Arch.count_sigmoid (Arch.conv_stack x convs) = Arch.count_sigmoid x
  /\ Arch.count_conv2d (Arch.conv_stack x convs)
     = (length convs + Arch.count_conv2d x)%nat.
Proof.
  intros Hall. revert x.
  induction Hall as [|[[k fi] fo] [wv bv] specs convs Hwb _ IH]; intros x;
    [done|].
  rewrite conv_stack_cons.
  destruct (IH (Arch.conv_block x (wv, bv))) as (-> & -> & ->).
  destruct Hwb as ((? & Hw & _) & (? & Hb & _) & _). simpl in Hw, Hb. subst.
  simpl. repeat split; lia.
Qed.

Lemma fc_stack_counts vs specs fcs x :
  Forall2 (Arch.fc_layer_ok vs) specs fcs ->
  Arch.count_max_pool (Arch.fc_stack x fcs) = Arch.count_max_pool x
  /\ Arch.count_conv2d (Arch.fc_stack x fcs) = Arch.count_conv2d x
  /\ Arch.count_sigmoid (Arch.fc_stack x fcs)
     = (Arch.count_sigmoid x + match fcs with [] => 0 | _ => 1 end)%nat.
Proof.
  intros Hall. revert x.
  induction Hall as [|[a c] [wv bv] specs fcs Hwb Hrest IH]; intros x.
  { simpl. repeat split; lia. }
  destruct Hwb as ((? & Hw & _) & (? & Hb & _) & _). simpl in Hw, Hb. subst.
  destruct fcs as [|wb' fcs].
  - simpl. repeat split; lia.
  - match goal with |- context [Arch.fc_stack x (?wb :: wb' :: fcs)] =>
      change (Arch.fc_stack x (wb :: wb' :: fcs))
        with (Arch.fc_stack (tf.Relu (Arch.affine x wb)) (wb' :: fcs)) end.
    destruct (IH (tf.Relu (Arch.affine x (tf.Var x0 [a; c], tf.Var x1 [c]))))
      as (-> & -> & ->).
    simpl. repeat split; lia.
Qed.

(** C6.  The graph of a constructed model applies max-pooling (window
    [[1; 2; 2; 1]], strides [[1; 2; 2; 1]], the padding constant of the
    convolutions) exactly once; its argument is the output of the last
    convolution block, which contains every convolution and no pooling, and
    its result is the node reshaped for the fully-connected stack. *)
Theorem pooling_once_after_the_convolutions scale h w fms ks fc σ σ' m :
  DScaleModel.__init__ scale h w fms ks fc σ = (σ', Ok m) ->
  exists convs last_layer fcs n,
    let conv_output :=
      Arch.conv_block (Arch.conv_stack (DScaleModel.input_frames m) convs)
        last_layer in
    let pooled :=
      tf.MaxPool conv_output [1; 2; 2; 1] [1; 2; 2; 1] constants.PADDING_D in
    length (convs ++ [last_layer]) = length ks
    /\ DScaleModel.preds m
       = Arch.clipped (Arch.fc_stack (tf.Reshape pooled [-1; n]) fcs)
    /\ Arch.flattened_node (DScaleModel.preds m)
       = Some (tf.Reshape pooled [-1; n])
    /\ Arch.count_max_pool (DScaleModel.preds m) = 1%nat
    /\ Arch.count_max_pool conv_output = O
    /\ Arch.count_conv2d conv_output = length ks
    /\ Arch.count_conv2d (DScaleModel.preds m) = length ks.
Proof.
  intros H. apply init_static in H
    as (orig & convs & fcs & c0 & Hlen & Hks & _ & _ & _ & _ & _ & Hin & _
        & _ & _ & Hconvs & Hfcs & Hpreds & _).
  pose proof (Forall2_length _ _ _ Hconvs) as Hl.
  rewrite conv_specs_length in Hl by done.
  destruct convs as [|wb convs] using rev_ind.
  { destruct ks; [done|discriminate]. }
  clear IHconvs.
  exists convs, wb, fcs, (Arch.flattened_count h w ks fms).
  cbv zeta. rewrite <- conv_stack_snoc.
  destruct (conv_stack_counts _ _ _ (DScaleModel.input_frames m) Hconvs)
    as (Hp & _ & Hc).
  destruct (fc_stack_counts _ _ _
              (Arch.flat (Arch.pool
                 (Arch.conv_stack (DScaleModel.input_frames m)
                    (convs ++ [wb])))
                 (Arch.flattened_count h w ks fms)) Hfcs)
    as (Hp' & Hc' & _).
  rewrite Hin in Hp, Hc. simpl in Hp, Hc.
  repeat split.
  - done.
  - by rewrite Hpreds.
  - by rewrite Hpreds, flattened_node_network.
  - rewrite Hpreds. unfold Arch.network, Arch.clipped. simpl.
    rewrite Hp'. simpl. by rewrite Hin, Hp.
  - by rewrite Hin.
  - rewrite Hin, Hc. lia.
  - rewrite Hpreds. unfold Arch.network, Arch.clipped. simpl.
    rewrite Hc'. simpl. rewrite Hin, Hc. lia.
Qed.

Lemma pooling_once_after_the_convolutions_witness :
  exists convs last_layer fcs n,
    let m := the_model scenario_model in
    let conv_output :=
      Arch.conv_block (Arch.conv_stack (DScaleModel.input_frames m) convs)
        last_layer in
    let pooled :=
      tf.MaxPool conv_output [1; 2; 2; 1] [1; 2; 2; 1] constants.PADDING_D in
    length (convs ++ [last_layer]) = length [3; 3]
    /\ DScaleModel.preds m
       = Arch.clipped (Arch.fc_stack (tf.Reshape pooled [-1; n]) fcs)
    /\ Arch.flattened_node (DScaleModel.preds m)
       = Some (tf.Reshape pooled [-1; n])
    /\ Arch.count_max_pool (DScaleModel.preds m) = 1%nat
    /\ Arch.count_max_pool conv_output = O
    /\ Arch.count_conv2d conv_output = length [3; 3]
    /\ Arch.count_conv2d (DScaleModel.preds m) = length [3; 3].
Proof.
  apply (pooling_once_after_the_convolutions 0 64 64 [3; 8; 16] [3; 3]
           1%positive caller_heap (fst scenario_model)).
  vm_compute. reflexivity.
Defined.

(** * Running the graph *)

(** ** Running a graph that has no writing node *)

Lemma exec_eval g feed sess :
  count_assign g = O ->
  tf.exec g feed sess = (sess, tf.eval feed (tf.var_values sess) g).
Proof.
  induction g; cbn [count_assign]; intros Hp; [..|discriminate];
    try (apply Nat.eq_add_0 in Hp as [Hp1 Hp2]);
    simpl; unfold bind, ret, raise, lift, tf.read_variable;
    repeat (first
      [ rewrite IHg by done | rewrite IHg1 by done | rewrite IHg2 by done
      | match goal with
        | |- context [match ?r with _ => _ end] => destruct r
        end ]; simpl);
    reflexivity.
Qed.

Lemma py_index_last_Ok (l : list Z) d :
  l <> [] -> py_index l (-1) = Ok (List.last l d).
Proof.
  intros Hne. destruct l as [|x l] using rev_ind; [done|].
  unfold py_index. rewrite List.last_last, length_app. simpl.
  destruct (Z.leb_spec 0 (Z.of_nat (length l + 1) + -1)); [|lia].
  destruct (Z.ltb_spec (Z.of_nat (length l + 1) + -1)
              (Z.of_nat (length l + 1))); [|lia].
  simpl. replace (Z.to_nat _) with (length l) by lia.
  by rewrite list_lookup_middle.
Qed.

(** * The constructor, run forward *)

Lemma py_index_lookup {A} (l : list A) (i : nat) (a : A) :
  l !! i = Some a -> py_index l (Z.of_nat i) = Ok a.
Proof.
  intros H. unfold py_index.
  pose proof (lookup_lt_Some _ _ _ H) as Hlt.
  destruct (Z.ltb_spec (Z.of_nat i) 0); [lia|].
  destruct (Z.leb_spec 0 (Z.of_nat i)); [|lia].
  destruct (Z.ltb_spec (Z.of_nat i) (Z.of_nat (length l))); [|lia].
  simpl. by rewrite Nat2Z.id, H.
Qed.

Lemma py_index_lookup_succ {A} (l : list A) (i : nat) (a : A) :
  l !! S i = Some a -> py_index l (Z.of_nat i + 1) = Ok a.
Proof.
  intros H. replace (Z.of_nat i + 1) with (Z.of_nat (S i)) by lia.
  by apply py_index_lookup.
Qed.

Lemma w_positive s σ :
  Forall (fun d => 0 < d) s ->
  tfutils.w s σ
  = (World (heap σ) (variables σ ++ [s]), Ok (tf.Var (length (variables σ)) s)).
Proof.
  intros H. unfold tfutils.w.
  replace (forallb (fun d => 0 <? d) s) with true; [done|].
  symmetry. apply forallb_forall. intros d Hd%list_elem_of_In.
  rewrite Forall_forall in H. apply H in Hd. lia.
Qed.

Lemma b_positive s σ :
  Forall (fun d => 0 < d) s ->
  tfutils.b s σ
  = (World (heap σ) (variables σ ++ [s]), Ok (tf.Var (length (variables σ)) s)).
Proof. apply w_positive. Qed.

Lemma conv_setup_step_run self i st σ k fi fo :
  DScaleModel.kernel_sizes self !! i = Some k ->
  DScaleModel.conv_layer_fms self !! i = Some fi ->
  DScaleModel.conv_layer_fms self !! S i = Some fo ->
  0 < k -> 0 < fi -> 0 < fo ->
  DScaleModel.conv_setup_step self (Z.of_nat i) st σ
  = (World (heap σ) (variables σ ++ conv_layer_variables (k, fi, fo)),
     Ok (DScaleModel.ConvSetup
           (DScaleModel.conv_ws st
            ++ [tf.Var (length (variables σ)) [k; k; fi; fo]])
           (DScaleModel.conv_bs st
            ++ [tf.Var (S (length (variables σ))) [fo]])
           (tfutils.conv_out_size (DScaleModel.last_out_height st)
              constants.PADDING_D k 1)
           (tfutils.conv_out_size (DScaleModel.last_out_width st)
              constants.PADDING_D k 1))).
Proof.
  intros Hk Hfi Hfo ? ? ?. unfold DScaleModel.conv_setup_step, bind, lift, ret.
  rewrite (py_index_lookup _ _ _ Hk), (py_index_lookup _ _ _ Hfi),
    (py_index_lookup_succ _ _ _ Hfo).
  rewrite w_positive by (repeat constructor; lia).
  rewrite b_positive by (repeat constructor; lia).
  cbn [heap variables conv_layer_variables].
  rewrite <- app_assoc, length_app. simpl.
  by replace (length (variables σ) + 1)%nat with (S (length (variables σ)))
    by lia.
Qed.

Section conv_run.
Import DScaleModel.

Variable self : config.

Abbreviation ks := (kernel_sizes self).
Abbreviation fms := (conv_layer_fms self).
Abbreviation specs := (Arch.conv_specs ks fms).

Hypothesis Hlen : length fms = S (length ks).
Hypothesis Hks : Forall (fun d => 0 < d) ks.
Hypothesis Hfms : Forall (fun d => 0 < d) fms.

Lemma conv_setup_run_from : forall k j st σ,
  (j + k = length ks)%nat ->
  mfor (map Z.of_nat (seq j k)) (conv_setup_step self) st σ
  = (World (heap σ)
       (variables σ ++ concat (map conv_layer_variables (drop j specs))),
     Ok (ConvSetup
           (conv_ws st
            ++ map fst (conv_params (length (variables σ)) (drop j specs)))
           (conv_bs st
            ++ map snd (conv_params (length (variables σ)) (drop j specs)))
           (Arch.conv_out (last_out_height st) (drop j ks))
           (Arch.conv_out (last_out_width st) (drop j ks)))).
Proof.
  induction k as [|k IH]; intros j st σ Hj.
  - rewrite (drop_ge specs) by (rewrite conv_specs_length by done; lia).
    rewrite (drop_ge ks) by lia.
    destruct σ, st. simpl. unfold ret. by rewrite !app_nil_r.
  - assert (Hlt : (j < length ks)%nat) by lia.
    destruct (lookup_lt_is_Some_2 ks j Hlt) as [kj Hkj].
    destruct (lookup_lt_is_Some_2 fms j ltac:(lia)) as [fi Hfi].
    destruct (lookup_lt_is_Some_2 fms (S j) ltac:(lia)) as [fo Hfo].
    pose proof (Forall_lookup_1 _ _ _ _ Hks Hkj) as Pk.
    pose proof (Forall_lookup_1 _ _ _ _ Hfms Hfi) as Pfi.
    pose proof (Forall_lookup_1 _ _ _ _ Hfms Hfo) as Pfo.
    pose proof (conv_specs_lookup _ _ _ _ _ _ Hkj Hfi Hfo) as Hspec.
    cbn [seq map mfor]. unfold bind at 1.
    rewrite (conv_setup_step_run self j st σ kj fi fo) by done.
    rewrite (IH (S j)) by lia.
    rewrite (drop_S _ _ _ Hspec), (drop_S _ _ _ Hkj).
    cbn [heap variables conv_ws conv_bs last_out_height last_out_width
         map concat conv_params fst snd conv_layer_variables].
    rewrite <- !app_assoc. rewrite !length_app. simpl.
    replace (length (variables σ) + 2)%nat
      with (S (S (length (variables σ)))) by lia.
    done.
Qed.

Lemma conv_setup_run h w σ :
  mfor (range (len ks)) (conv_setup_step self) (ConvSetup [] [] h w) σ
  = (World (heap σ) (variables σ ++ conv_variables ks fms),
     Ok (ConvSetup
           (map fst (conv_params (length (variables σ)) specs))
           (map snd (conv_params (length (variables σ)) specs))
           (Arch.conv_out h ks) (Arch.conv_out w ks))).
Proof.
  unfold range, len. rewrite Nat2Z.id.
  by rewrite (conv_setup_run_from (length ks) O).
Qed.

End conv_run.

Lemma deref_lookup l σ v :
  heap σ !! l = Some v -> deref l σ = (σ, Ok v).
Proof. unfold deref. by intros ->. Qed.

Lemma fc_setup_step_run self sizes i st σ a c :
  heap σ !! DScaleModel.fc_layer_sizes self = Some sizes ->
  sizes !! i = Some a -> sizes !! S i = Some c -> 0 < a -> 0 < c ->
  DScaleModel.fc_setup_step self (Z.of_nat i) st σ
  = (World (heap σ) (variables σ ++ fc_layer_variables (a, c)),
     Ok (fst st ++ [tf.Var (length (variables σ)) [a; c]],
         snd st ++ [tf.Var (S (length (variables σ))) [c]])).
Proof.
  intros Hh Ha Hc ? ?. unfold DScaleModel.fc_setup_step.
  unfold bind at 1. rewrite (deref_lookup _ _ _ Hh).
  unfold bind, lift, ret.
  rewrite (py_index_lookup _ _ _ Ha), (py_index_lookup_succ _ _ _ Hc).
  rewrite w_positive by (repeat constructor; lia).
  rewrite (deref_lookup _ _ sizes) by done.
  rewrite (py_index_lookup_succ _ _ _ Hc).
  rewrite b_positive by (repeat constructor; lia).
  cbn [heap variables fc_layer_variables].
  rewrite <- app_assoc, length_app. simpl.
  by replace (length (variables σ) + 1)%nat with (S (length (variables σ)))
    by lia.
Qed.

Section fc_run.
Import DScaleModel.

Variable self : config.
Variable sizes : list Z.
Hypothesis Hsizes : Forall (fun d => 0 < d) sizes.

Lemma fc_setup_run_from : forall k j st σ,
  (j + k = Nat.pred (length sizes))%nat ->
  heap σ !! fc_layer_sizes self = Some sizes ->
  mfor (map Z.of_nat (seq j k)) (fc_setup_step self) st σ
  = (World (heap σ)
       (variables σ
        ++ concat (map fc_layer_variables (drop j (Arch.fc_specs sizes)))),
     Ok (fst st
         ++ map fst (fc_params (length (variables σ))
                       (drop j (Arch.fc_specs sizes))),
         snd st
         ++ map snd (fc_params (length (variables σ))
                       (drop j (Arch.fc_specs sizes))))).
Proof.
  induction k as [|k IH]; intros j st σ Hj Hh.
  - rewrite drop_ge by (rewrite fc_specs_length; lia).
    destruct σ, st. simpl. unfold ret. by rewrite !app_nil_r.
  - destruct (lookup_lt_is_Some_2 sizes j ltac:(lia)) as [a Ha].
    destruct (lookup_lt_is_Some_2 sizes (S j) ltac:(lia)) as [c Hc].
    pose proof (Forall_lookup_1 _ _ _ _ Hsizes Ha) as Pa.
    pose proof (Forall_lookup_1 _ _ _ _ Hsizes Hc) as Pc.
    pose proof (fc_specs_lookup _ _ _ _ Ha Hc) as Hspec.
    cbn [seq map mfor]. unfold bind at 1.
    rewrite (fc_setup_step_run self sizes j st σ a c) by done.
    rewrite (IH (S j)) by (done || lia).
    rewrite (drop_S _ _ _ Hspec).
    cbn [heap variables map concat fc_params fst snd fc_layer_variables].
    rewrite <- !app_assoc. rewrite !length_app. simpl.
    replace (length (variables σ) + 2)%nat
      with (S (S (length (variables σ)))) by lia.
    done.
Qed.

Lemma fc_setup_run σ :
  heap σ !! fc_layer_sizes self = Some sizes ->
  mfor (range (len sizes - 1)) (fc_setup_step self) ([], []) σ
  = (World (heap σ) (variables σ ++ fc_variables sizes),
     Ok (map fst (fc_params (length (variables σ)) (Arch.fc_specs sizes)),
         map snd (fc_params (length (variables σ)) (Arch.fc_specs sizes)))).
Proof.
  intros Hh. unfold range, len.
  replace (Z.to_nat (Z.of_nat (length sizes) - 1))
    with (Nat.pred (length sizes)) by lia.
  by rewrite (fc_setup_run_from (Nat.pred (length sizes)) O).
Qed.

End fc_run.

(** ** The forward pass, run forward *)

Lemma op_static g s : tf.static_shape g = Ok s -> tf.op g = Ok g.
Proof. unfold tf.op. by intros ->. Qed.

Lemma lookup_map {A B} (f : A -> B) (l : list A) (i : nat) :
  map f l !! i = f <$> (l !! i).
Proof. revert i. induction l as [|a l IH]; intros [|i]; simpl; auto. Qed.

Lemma static_shape_add_inv x y s :
  tf.static_shape (tf.Add x y) = Ok s ->
  exists sx, tf.static_shape x = Ok sx.
Proof. simpl. intros H. inv_ok. eauto. Qed.

Lemma static_shape_conv_block_inv x wb s :
  tf.static_shape (Arch.conv_block x wb) = Ok s ->
  exists sc sa,
    tf.static_shape (tf.Conv2D x (fst wb) [1; 1; 1; 1] constants.PADDING_D)
    = Ok sc
    /\ tf.static_shape
         (tf.Add (tf.Conv2D x (fst wb) [1; 1; 1; 1] constants.PADDING_D)
            (snd wb)) = Ok sa.
Proof.
  unfold Arch.conv_block. intros H.
  change (tf.static_shape (tf.Relu ?g)) with (tf.static_shape g) in H.
  destruct (static_shape_add_inv _ _ _ H) as [sc Hc]. eauto.
Qed.

Lemma conv_layer_run ws bs i p li w b s :
  ws !! i = Some w -> bs !! i = Some b ->
  tf.static_shape (Arch.conv_block li (w, b)) = Ok s ->
  DScaleModel.conv_layer ws bs (Z.of_nat i) (p, li)
  = Ok (Arch.conv_block li (w, b), Arch.conv_block li (w, b)).
Proof.
  intros Hw Hb Hs.
  destruct (static_shape_conv_block_inv _ _ _ Hs) as (sc & sa & Hc & Ha).
  unfold DScaleModel.conv_layer. cbn [fst snd] in *.
  rewrite (py_index_lookup _ _ _ Hw). cbn [rbind].
  unfold tf.conv2d. rewrite (op_static _ _ Hc). cbn [rbind].
  rewrite (py_index_lookup _ _ _ Hb). cbn [rbind].
  unfold tf.add. rewrite (op_static _ _ Ha). cbn [rbind].
  unfold tf.relu. rewrite (op_static _ s) by exact Hs. done.
Qed.

Lemma conv_stack_app x l l' :
  Arch.conv_stack x (l ++ l') = Arch.conv_stack (Arch.conv_stack x l) l'.
Proof. unfold Arch.conv_stack. by rewrite fold_left_app. Qed.

Lemma convolution_loop_run input convs s :
  tf.static_shape (Arch.conv_stack input convs) = Ok s ->
  forall k j p,
    (j + k = length convs)%nat ->
    rfor (map Z.of_nat (seq j k))
      (DScaleModel.conv_layer (map fst convs) (map snd convs))
      (p, Arch.conv_stack input (take j convs))
    = Ok (match k with O => p | _ => Arch.conv_stack input convs end,
          Arch.conv_stack input convs).
Proof.
  intros Hs. induction k as [|k IH]; intros j p Hj.
  - simpl. by rewrite take_ge by lia.
  - destruct (lookup_lt_is_Some_2 convs j ltac:(lia)) as [[w b] Hwb].
    assert (Hblk : Arch.conv_stack input (take (S j) convs)
                   = Arch.conv_block (Arch.conv_stack input (take j convs))
                       (w, b))
      by (by rewrite (take_S_r _ _ _ Hwb), conv_stack_snoc).
    assert (Hsb : exists sb,
               tf.static_shape (Arch.conv_stack input (take (S j) convs))
               = Ok sb).
    { rewrite <- (take_drop (S j) convs), conv_stack_app in Hs.
      by apply conv_stack_static_inv in Hs. }
    destruct Hsb as [sb Hsb]. rewrite Hblk in Hsb.
    cbn [seq map rfor].
    rewrite (conv_layer_run _ _ j p _ w b sb);
      [|by rewrite lookup_map, Hwb|by rewrite lookup_map, Hwb|done].
    cbn [rbind]. rewrite <- Hblk, (IH (S j)) by lia.
    destruct k; [|done]. by rewrite take_ge by lia.
Qed.

Lemma fc_stack_static_inv l : forall y s,
  tf.static_shape (Arch.fc_stack y l) = Ok s ->
  exists sy, tf.static_shape y = Ok sy.
Proof.
  induction l as [|wb l IH]; intros y s H; [eauto|].
  destruct l as [|wb' l].
  - simpl in H. inv_ok. eauto.
  - change (Arch.fc_stack y (wb :: wb' :: l))
      with (Arch.fc_stack (tf.Relu (Arch.affine y wb)) (wb' :: l)) in H.
    apply IH in H as [sy H]. simpl in H. inv_ok. eauto.
Qed.

Lemma fc_stack_app l : forall x l',
  l' <> [] ->
  Arch.fc_stack x (l ++ l') = Arch.fc_stack (fold_left fc_hidden l x) l'.
Proof.
  induction l as [|a l IH]; intros x l' Hne; [done|].
  simpl app. destruct (l ++ l') as [|b r] eqn:E.
  { by destruct l. }
  change (Arch.fc_stack x (a :: b :: r))
    with (Arch.fc_stack (tf.Relu (Arch.affine x a)) (b :: r)).
  rewrite <- E. by rewrite IH.
Qed.

Lemma fc_stack_affine_static x l wb l' s :
  tf.static_shape (Arch.fc_stack x (l ++ wb :: l')) = Ok s ->
  exists sa,
    tf.static_shape (Arch.affine (fold_left fc_hidden l x) wb) = Ok sa.
Proof.
  rewrite fc_stack_app by done. destruct l' as [|wb' l'].
  - simpl. eauto.
  - change (Arch.fc_stack ?y (wb :: wb' :: l'))
      with (Arch.fc_stack (tf.Relu (Arch.affine y wb)) (wb' :: l')).
    intros H. apply fc_stack_static_inv in H as [sy H]. eauto.
Qed.

Lemma fc_layer_run ws bs i p w b s :
  ws !! i = Some w -> bs !! i = Some b ->
  tf.static_shape (Arch.affine p (w, b)) = Ok s ->
  DScaleModel.fc_layer ws bs (Z.of_nat i) p
  = Ok (if Z.of_nat i =? len ws - 1
        then tf.Sigmoid (Arch.affine p (w, b))
        else tf.Relu (Arch.affine p (w, b))).
Proof.
  intros Hw Hb Hs. unfold DScaleModel.fc_layer.
  unfold Arch.affine in *. cbn [fst snd] in *.
  destruct (static_shape_add_inv _ _ _ Hs) as [sm Hm].
  rewrite (py_index_lookup _ _ _ Hw). cbn [rbind].
  unfold tf.matmul. rewrite (op_static _ _ Hm). cbn [rbind].
  rewrite (py_index_lookup _ _ _ Hb). cbn [rbind].
  unfold tf.add. rewrite (op_static _ s) by exact Hs. cbn [rbind].
  destruct (_ =? _).
  - unfold tf.sigmoid. by rewrite (op_static _ s) by exact Hs.
  - unfold tf.relu. by rewrite (op_static _ s) by exact Hs.
Qed.

Lemma fully_connected_loop_run x fcs s :
  tf.static_shape (Arch.fc_stack x fcs) = Ok s ->
  forall k j,
    (j + S k = length fcs)%nat ->
    rfor (map Z.of_nat (seq j (S k)))
      (DScaleModel.fc_layer (map fst fcs) (map snd fcs))
      (fold_left fc_hidden (take j fcs) x)
    = Ok (Arch.fc_stack x fcs).
Proof.
  intros Hs. induction k as [|k IH]; intros j Hj.
  - destruct (lookup_lt_is_Some_2 fcs j ltac:(lia)) as [[w b] Hwb].
    assert (Hall : fcs = take j fcs ++ [(w, b)]).
    { rewrite <- (take_S_r _ _ _ Hwb). by rewrite take_ge by lia. }
    pose proof Hs as Hs'. rewrite Hall in Hs'.
    apply fc_stack_affine_static in Hs' as [sa Ha].
    cbn [seq map rfor].
    rewrite (fc_layer_run _ _ j _ w b sa);
      [|by rewrite lookup_map, Hwb|by rewrite lookup_map, Hwb|done].
    cbn [rbind]. unfold len. rewrite length_map.
    destruct (Z.eqb_spec (Z.of_nat j) (Z.of_nat (length fcs) - 1)); [|lia].
    rewrite <- fc_stack_snoc. by rewrite <- Hall.
  - destruct (lookup_lt_is_Some_2 fcs j ltac:(lia)) as [[w b] Hwb].
    pose proof Hs as Hs'.
    rewrite <- (take_drop j fcs), (drop_S _ _ _ Hwb) in Hs'.
    apply fc_stack_affine_static in Hs' as [sa Ha].
    remember (S k) as k' eqn:Ek. rewrite Ek at 1.
    cbn [seq map rfor].
    rewrite (fc_layer_run _ _ j _ w b sa);
      [|by rewrite lookup_map, Hwb|by rewrite lookup_map, Hwb|done].
    cbn [rbind]. unfold len. rewrite length_map.
    destruct (Z.eqb_spec (Z.of_nat j) (Z.of_nat (length fcs) - 1)); [lia|].
    subst k'. rewrite <- (IH (S j)) by lia.
    by rewrite (take_S_r _ _ _ Hwb), fold_left_app.
Qed.

Lemma fully_connected_run x fcs s :
  tf.static_shape (Arch.fc_stack x fcs) = Ok s ->
  DScaleModel.fully_connected (map fst fcs) (map snd fcs) x
  = Ok (Arch.fc_stack x fcs).
Proof.
  intros Hs. unfold DScaleModel.fully_connected, range, len.
  rewrite Nat2Z.id, length_map.
  destruct fcs as [|wb fcs]; [done|].
  by apply (fully_connected_loop_run x (wb :: fcs) s Hs (length fcs) O).
Qed.

Lemma generate_predictions_run input convs fcs d rest d0 s1 s2 s3 s :
  convs <> [] ->
  tf.static_shape input = Ok (d :: rest) ->
  tf.static_shape (Arch.pool (Arch.conv_stack input convs))
  = Ok [d0; Some s1; Some s2; Some s3] ->
  tf.static_shape (Arch.network input convs (s1 * s2 * s3) fcs) = Ok s ->
  DScaleModel.generate_predictions input (tf.Shape0 input)
    (map fst convs) (map snd convs) (map fst fcs) (map snd fcs)
  = Ok (Arch.network input convs (s1 * s2 * s3) fcs).
Proof.
  intros Hne Hin Hpool Hnet.
  assert (Hfc : tf.static_shape
                  (Arch.fc_stack
                     (Arch.flat (Arch.pool (Arch.conv_stack input convs))
                        (s1 * s2 * s3)) fcs) = Ok s) by exact Hnet.
  destruct (fc_stack_static_inv _ _ _ Hfc) as [sf Hflat].
  assert (Hstack : exists ss,
             tf.static_shape (Arch.conv_stack input convs) = Ok ss).
  { unfold Arch.pool in Hpool. simpl in Hpool. inv_ok. eauto. }
  destruct Hstack as [ss Hstack].
  unfold DScaleModel.generate_predictions, DScaleModel.convolutions.
  unfold tf.zeros.
  rewrite (op_static (tf.Zeros input [1]) (d :: tf.known [1]))
    by (simpl; by rewrite Hin).
  cbn [rbind]. unfold range, len. rewrite Nat2Z.id, length_map.
  pose proof (convolution_loop_run input convs ss Hstack (length convs) O
                (tf.Zeros input [1]) eq_refl) as Hloop.
  rewrite take_0 in Hloop. change (Arch.conv_stack input []) with input in Hloop.
  rewrite Hloop. cbn [rbind fst].
  destruct (length convs) eqn:El; [by destruct convs|].
  pose proof Hpool as Hpool'. unfold Arch.pool in Hpool'.
  unfold Arch.flat, Arch.pool in Hflat.
  unfold DScaleModel.pooling, tf.max_pool.
  rewrite (op_static _ _ Hpool'). cbn [rbind].
  unfold DScaleModel.flatten, tf.get_shape_as_list.
  rewrite Hpool'. cbn [rbind].
  change (py_index [d0; Some s1; Some s2; Some s3] 1) with (Ok (Some s1)).
  change (py_index [d0; Some s1; Some s2; Some s3] 2) with (Ok (Some s2)).
  change (py_index [d0; Some s1; Some s2; Some s3] 3) with (Ok (Some s3)).
  cbn [rbind DScaleModel.py_mul DScaleModel.as_int]. unfold tf.reshape.
  rewrite (op_static _ _ Hflat). cbn [rbind].
  pose proof (fully_connected_run _ _ _ Hfc) as Hrun.
  unfold Arch.flat, Arch.pool in Hrun. rewrite Hrun. cbn [rbind].
  unfold DScaleModel.clip, tf.clip_by_value.
  pose proof (op_static _ _ Hnet) as Hclip.
  unfold Arch.network, Arch.clipped, Arch.flat, Arch.pool in Hclip.
  by rewrite Hclip.
Qed.

(** ** Static shapes, forward *)

Lemma conv_out_cons i k ks :
  Arch.conv_out i (k :: ks)
  = Arch.conv_out (tfutils.conv_out_size i constants.PADDING_D k 1) ks.
Proof. done. Qed.

Lemma conv_out_le ks : forall i,
  Forall (fun d => 0 < d) ks -> Arch.conv_out i ks <= i.
Proof.
  induction ks as [|k ks IH]; intros i H; [done|].
  inversion H; subst. rewrite conv_out_cons.
  etrans; [by apply IH|]. unfold tfutils.conv_out_size. simpl. lia.
Qed.

Lemma conv_stack_static_Ok vs ks : forall fms convs x d0 h w c0,
  Forall2 (Arch.conv_layer_ok vs) (Arch.conv_specs ks fms) convs ->
  length fms = S (length ks) ->
  fms !! O = Some c0 ->
  Forall (fun d => 0 < d) ks ->
  1 <= Arch.conv_out h ks -> 1 <= Arch.conv_out w ks ->
  tf.static_shape x = Ok [d0; Some h; Some w; Some c0] ->
  tf.static_shape (Arch.conv_stack x convs)
  = Ok [d0; Some (Arch.conv_out h ks); Some (Arch.conv_out w ks);
        Some (List.last fms 0)].
Proof.
  induction ks as [|k ks IH];
    intros fms convs x d0 h w c0 Hall Hlen Hc0 Hks Hh Hw Hx.
  - destruct fms as [|c [|? ?]]; try done. simpl in *.
    inversion Hall; subst. injection Hc0 as ->. done.
  - destruct fms as [|c [|fo fms]]; try done.
    simpl in Hc0. injection Hc0 as ->.
    change (Arch.conv_specs (k :: ks) (c0 :: fo :: fms))
      with ((k, c0, fo) :: Arch.conv_specs ks (fo :: fms)) in Hall.
    inversion Hall as [|spec wb specs convs' Hwb Hrest]; subst.
    inversion Hks; subst.
    rewrite conv_out_cons in Hh, Hw.
    pose proof (conv_out_le ks
                  (tfutils.conv_out_size h constants.PADDING_D k 1)
                  ltac:(done)) as Lh.
    pose proof (conv_out_le ks
                  (tfutils.conv_out_size w constants.PADDING_D k 1)
                  ltac:(done)) as Lw.
    rewrite conv_stack_cons, !conv_out_cons.
    change (List.last (c0 :: fo :: fms) 0) with (List.last (fo :: fms) 0).
    apply (IH (fo :: fms) convs' _ d0 _ _ fo); try done.
    + simpl in *. lia.
    + apply (conv_block_static_Ok vs _ _ _ _ _ _ c0); try done;
        unfold tfutils.conv_out_size, constants.PADDING_D in *; lia.
Qed.

Lemma pool_static_Ok x d0 h w c :
  2 <= h -> 2 <= w ->
  tf.static_shape x = Ok [d0; Some h; Some w; Some c] ->
  tf.static_shape (Arch.pool x) = Ok [d0; Some (h / 2); Some (w / 2); Some c].
Proof.
  intros ? ? Hx. unfold Arch.pool. simpl. rewrite Hx. simpl.
  unfold tf.window_out. simpl.
  destruct (Z.ltb_spec h 2); [lia|]. simpl.
  destruct (Z.ltb_spec w 2); [lia|]. simpl.
  by replace (h - 2 + 2) with h by lia; replace (w - 2 + 2) with w by lia.
Qed.

(** ** The parameters, explicitly *)

Lemma conv_params_ok specs : forall pre post,
  Forall (fun '(k, fi, fo) => 0 < k /\ 0 < fi /\ 0 < fo) specs ->
  Forall2 (Arch.conv_layer_ok
             (pre ++ concat (map conv_layer_variables specs) ++ post))
    specs (conv_params (length pre) specs).
Proof.
  induction specs as [|[[k fi] fo] specs IH]; intros pre post H;
    [constructor|].
  apply Forall_cons in H as [(Hk & Hfi & Hfo) Hrest].
  cbn [map concat conv_params conv_layer_variables].
  constructor.
  - simpl. repeat split; try done.
    + exists (length pre). split; [done|].
      by rewrite lookup_app_r, Nat.sub_diag by lia.
    + exists (S (length pre)). split; [done|].
      rewrite lookup_app_r by lia.
      by replace (S (length pre) - length pre)%nat with 1%nat by lia.
  - specialize (IH (pre ++ [[k; k; fi; fo]; [fo]]) post Hrest).
    rewrite length_app in IH. simpl in IH.
    replace (length pre + 2)%nat with (S (S (length pre))) in IH by lia.
    by rewrite <- !app_assoc in IH.
Qed.

Lemma fc_params_ok specs : forall pre post,
  Forall (fun '(a, c) => 0 < a /\ 0 < c) specs ->
  Forall2 (Arch.fc_layer_ok
             (pre ++ concat (map fc_layer_variables specs) ++ post))
    specs (fc_params (length pre) specs).
Proof.
  induction specs as [|[a c] specs IH]; intros pre post H; [constructor|].
  apply Forall_cons in H as [(Ha & Hc) Hrest].
  cbn [map concat fc_params fc_layer_variables].
  constructor.
  - simpl. repeat split; try done.
    + exists (length pre). split; [done|].
      by rewrite lookup_app_r, Nat.sub_diag by lia.
    + exists (S (length pre)). split; [done|].
      rewrite lookup_app_r by lia.
      by replace (S (length pre) - length pre)%nat with 1%nat by lia.
  - specialize (IH (pre ++ [[a; c]; [c]]) post Hrest).
    rewrite length_app in IH. simpl in IH.
    replace (length pre + 2)%nat with (S (S (length pre))) in IH by lia.
    by rewrite <- !app_assoc in IH.
Qed.

Lemma conv_specs_all_positive ks : forall fms,
  Forall (fun d => 0 < d) ks -> Forall (fun d => 0 < d) fms ->
  Forall (fun '(k, fi, fo) => 0 < k /\ 0 < fi /\ 0 < fo)
    (Arch.conv_specs ks fms).
Proof.
  induction ks as [|k ks IH]; intros fms Hks Hfms; [constructor|].
  destruct fms as [|fi [|fo fms]]; try constructor.
  - inversion Hks; subst. inversion Hfms as [|? ? ? Hf]; subst.
    by inversion Hf; subst.
  - apply IH; [by inversion Hks|by inversion Hfms].
Qed.

Lemma fc_specs_all_positive sizes :
  Forall (fun d => 0 < d) sizes ->
  Forall (fun '(a, c) => 0 < a /\ 0 < c) (Arch.fc_specs sizes).
Proof.
  induction sizes as [|a [|c sizes] IH]; intros H; try constructor.
  - inversion H as [|? ? ? Hc]; subst. by inversion Hc; subst.
  - apply IH. by inversion H.
Qed.

Lemma conv_variables_length ks fms :
  length fms = S (length ks) ->
  length (conv_variables ks fms) = (2 * length ks)%nat.
Proof.
  intros H. rewrite <- (conv_specs_length ks fms H). unfold conv_variables.
  induction (Arch.conv_specs ks fms) as [|[[k fi] fo] l IH]; [done|].
  simpl in *. lia.
Qed.

Lemma fc_variables_length sizes :
  length (fc_variables sizes) = (2 * Nat.pred (length sizes))%nat.
Proof.
  rewrite <- fc_specs_length. unfold fc_variables.
  induction (Arch.fc_specs sizes) as [|[a c] l IH]; [done|].
  simpl in *. lia.
Qed.

(** ** Accepted configurations *)

Lemma forallb_positive (l : list Z) :
  forallb (fun d => 0 <? d) l = true <-> Forall (fun d => 0 < d) l.
Proof.
  rewrite forallb_forall, Forall_forall. split; intros H d Hd.
  - apply list_elem_of_In, H in Hd. lia.
  - apply list_elem_of_In, H in Hd. lia.
Qed.

Lemma accepted_spec h w fms ks orig :
  accepted h w fms ks orig = true
  <-> length fms = S (length ks) /\ ks <> []
      /\ Forall (fun d => 0 < d) ks /\ Forall (fun d => 0 < d) fms
      /\ Forall (fun d => 0 < d) orig
      /\ 2 <= Arch.conv_out h ks /\ 2 <= Arch.conv_out w ks.
Proof.
  unfold accepted, len. rewrite !andb_true_iff, !forallb_positive.
  rewrite negb_true_iff, Z.eqb_eq, Z.eqb_neq, !Z.leb_le.
  split.
  - intros ((((((? & ?) & ?) & ?) & ?) & ?) & ?).
    repeat split; try done; [lia|]. intros ->. simpl in *. lia.
  - intros (? & Hne & ? & ? & ? & ? & ?).
    repeat split; try done; [lia|]. destruct ks; [done|]. simpl. lia.
Qed.

Lemma flattened_count_positive h w ks fms :
  2 <= Arch.conv_out h ks -> 2 <= Arch.conv_out w ks ->
  0 < List.last fms 0 ->
  0 < Arch.flattened_count h w ks fms.
Proof.
  intros. unfold Arch.flattened_count.
  assert (1 <= Arch.conv_out h ks / 2) by (apply Z.div_le_lower_bound; lia).
  assert (1 <= Arch.conv_out w ks / 2) by (apply Z.div_le_lower_bound; lia).
  nia.
Qed.

(** An accepted configuration is constructed, and this is the world and
    the object the constructor returns. *)
Lemma init_accepted scale h w fms ks fc orig σ :
  accepted h w fms ks orig = true ->
  heap σ !! fc = Some orig ->
  DScaleModel.__init__ scale h w fms ks fc σ
  = (World (<[fc := Arch.flattened_count h w ks fms :: orig]> (heap σ))
       (variables σ ++ conv_variables ks fms
        ++ fc_variables (Arch.flattened_count h w ks fms :: orig)),
     Ok (built scale h w fms ks fc orig (length (variables σ)))).
Proof.
  intros (Hlen & Hne & Hks & Hfms & Horig & Hh & Hw)%accepted_spec Hfc.
  destruct fms as [|c0 fms'] eqn:Efms; [done|]. rewrite <- Efms in *.
  set (n := Arch.flattened_count h w ks fms).
  set (self := DScaleModel.Config scale h w fms ks fc).
  assert (Hc0 : fms !! O = Some c0) by (by rewrite Efms).
  assert (Pc0 : 0 < c0) by (rewrite Efms in Hfms; by inversion Hfms).
  assert (Plast : 0 < List.last fms 0)
    by (apply last_positive; [by rewrite Efms|done]).
  assert (Pn : 0 < n) by (by apply flattened_count_positive).
  pose proof (conv_out_le ks h Hks) as Lh.
  pose proof (conv_out_le ks w Hks) as Lw.
  set (input := tf.Placeholder [None; Some h; Some w; Some c0]).
  assert (Hin : tf.static_shape input = Ok [None; Some h; Some w; Some c0]).
  { simpl. destruct (Z.leb_spec 0 h); [|lia].
    destruct (Z.leb_spec 0 w); [|lia]. by destruct (Z.leb_spec 0 c0); [|lia]. }
  set (base := length (variables σ)).
  set (convs := conv_params base (Arch.conv_specs ks fms)).
  set (fcs := fc_params (base + 2 * length ks) (Arch.fc_specs (n :: orig))).
  set (vs := variables σ ++ conv_variables ks fms ++ fc_variables (n :: orig)).
  assert (Hconvs : Forall2 (Arch.conv_layer_ok vs) (Arch.conv_specs ks fms)
                     convs).
  { apply conv_params_ok. by apply conv_specs_all_positive. }
  assert (Hfcs : Forall2 (Arch.fc_layer_ok vs) (Arch.fc_specs (n :: orig))
                   fcs).
  { assert (Psizes : Forall (fun d => 0 < d) (n :: orig)) by (by constructor).
    pose proof (fc_params_ok (Arch.fc_specs (n :: orig))
                  (variables σ ++ conv_variables ks fms) []
                  (fc_specs_all_positive _ Psizes)) as H.
    rewrite length_app, conv_variables_length, app_nil_r in H by done.
    unfold vs. by rewrite app_assoc. }
  assert (Hstack : tf.static_shape (Arch.conv_stack input convs)
                   = Ok [None; Some (Arch.conv_out h ks);
                         Some (Arch.conv_out w ks); Some (List.last fms 0)]).
  { apply (conv_stack_static_Ok vs ks fms convs input None h w c0);
      try done; lia. }
  pose proof (pool_static_Ok _ _ _ _ _ Hh Hw Hstack) as Hpool.
  assert (Hflat : tf.static_shape
                    (Arch.flat (Arch.pool (Arch.conv_stack input convs)) n)
                  = Ok [None; Some n])
    by (eapply flat_static_Ok; [lia|exact Hpool]).
  pose proof (fc_stack_static vs orig fcs _ None n Hfcs Hflat) as Hnet.
  assert (Hcne : convs <> []).
  { intros E. apply (f_equal length) in E.
    rewrite <- (Forall2_length _ _ _ Hconvs), conv_specs_length in E by done.
    by destruct ks. }
  pose proof (generate_predictions_run input convs fcs _ _ _ _ _ _ _
                Hcne Hin Hpool Hnet) as Hgen.
  fold (Arch.flattened_count h w ks fms) in Hgen. fold n in Hgen.
  (* the run *)
  unfold DScaleModel.__init__. unfold bind at 1. unfold py_assert, len.
  destruct (Z.eqb_spec (Z.of_nat (length ks)) (Z.of_nat (length fms) - 1));
    [|lia].
  unfold ret at 1. fold self.
  unfold DScaleModel.define_graph.
  unfold bind at 1. unfold lift at 1.
  replace (py_index (DScaleModel.conv_layer_fms self) 0) with (Ok c0)
    by (symmetry; apply (py_index_lookup fms O); done).
  unfold bind at 1. unfold lift at 1.
  cbn [DScaleModel.height DScaleModel.width self].
  change (tf.placeholder [None; Some h; Some w; Some c0]) with (tf.op input).
  rewrite (op_static _ _ Hin).
  unfold bind at 1.
  rewrite (conv_setup_run self) by done.
  cbn [DScaleModel.kernel_sizes DScaleModel.conv_layer_fms self].
  unfold bind at 1. unfold lift at 1.
  rewrite (py_index_last_Ok fms 0) by (by rewrite Efms).
  cbn [DScaleModel.last_out_height DScaleModel.last_out_width
       DScaleModel.fc_layer_sizes self].
  fold (Arch.flattened_count h w ks fms). fold n.
  unfold bind at 1. unfold list_insert0 at 1. cbn [heap variables].
  rewrite Hfc.
  unfold bind at 1. unfold deref at 1. cbn [heap variables].
  rewrite lookup_insert_eq.
  unfold bind at 1.
  rewrite (fc_setup_run self (n :: orig)); cycle 1.
  { by constructor. }
  { cbn [heap DScaleModel.fc_layer_sizes self]. apply lookup_insert_eq. }
  cbn [heap variables fst snd DScaleModel.conv_ws DScaleModel.conv_bs].
  unfold bind at 1. unfold lift at 1.
  rewrite length_app, conv_variables_length by done.
  fold base. fold convs. fold fcs.
  unfold tf.shape0. rewrite Hgen. unfold ret.
  unfold built. rewrite Efms. cbn [List.hd]. rewrite <- Efms.
  fold input. fold n. fold base. fold convs. fold fcs. fold self.
  by rewrite <- app_assoc.
Qed.

Lemma fc_specs_positive vs sizes : forall fcs a,
  Forall2 (Arch.fc_layer_ok vs) (Arch.fc_specs (a :: sizes)) fcs ->
  Forall (fun d => 0 < d) sizes.
Proof.
  induction sizes as [|c sizes IH]; intros fcs a Hall; [constructor|].
  change (Arch.fc_specs (a :: c :: sizes))
    with ((a, c) :: Arch.fc_specs (c :: sizes)) in Hall.
  inversion Hall as [|spec wb specs fcs' Hwb Hrest]; subst.
  constructor; [by destruct Hwb as (_ & _ & _ & ?)|]. by apply (IH fcs' c).
Qed.

(** What the constructor accepts is an accepted configuration. *)
Lemma init_accepted_inv scale h w fms ks fc σ σ' m :
  DScaleModel.__init__ scale h w fms ks fc σ = (σ', Ok m) ->
  exists orig, heap σ !! fc = Some orig /\ accepted h w fms ks orig = true.
Proof.
  intros H. apply init_static in H
    as (orig & convs & fcs & c0 & Hlen & Hks & Horig & _ & _ & _ & _ & _ & _
        & _ & _ & Hconvs & Hfcs & _ & _ & HH & HW & _).
  exists orig. split; [done|]. apply accepted_spec.
  destruct (conv_specs_positive _ _ _ _ Hconvs Hlen Hks) as [Pks Pfms].
  repeat split; try done. by apply (fc_specs_positive _ _ _ _ Hfcs).
Qed.

Lemma init_exact scale h w fms ks fc σ σ' m :
  DScaleModel.__init__ scale h w fms ks fc σ = (σ', Ok m) ->
  exists orig,
    heap σ !! fc = Some orig
    /\ accepted h w fms ks orig = true
    /\ σ' = World (<[fc := Arch.flattened_count h w ks fms :: orig]> (heap σ))
              (variables σ ++ conv_variables ks fms
               ++ fc_variables (Arch.flattened_count h w ks fms :: orig))
    /\ m = built scale h w fms ks fc orig (length (variables σ)).
Proof.
  intros H. destruct (init_accepted_inv _ _ _ _ _ _ _ _ _ H)
    as (orig & Horig & Hacc).
  exists orig. rewrite (init_accepted scale _ _ _ _ _ _ _ Hacc Horig) in H.
  injection H as <- <-. done.
Qed.

(** ** The variables of the graph *)

Lemma variable_ids_conv_stack specs : forall x base,
  variable_ids (Arch.conv_stack x (conv_params base specs))
  = variable_ids x ++ seq base (2 * length specs).
Proof.
  induction specs as [|[[k fi] fo] specs IH]; intros x base.
  - simpl. by rewrite app_nil_r.
  - cbn [conv_params]. rewrite conv_stack_cons, IH.
    unfold Arch.conv_block. cbn [variable_ids fst snd length].
    rewrite <- !app_assoc.
    replace (2 * S (length specs))%nat with (S (S (2 * length specs))) by lia.
    done.
Qed.

Lemma variable_ids_fc_stack specs : forall x base,
  variable_ids (Arch.fc_stack x (fc_params base specs))
  = variable_ids x ++ seq base (2 * length specs).
Proof.
  induction specs as [|[a c] specs IH]; intros x base.
  - simpl. by rewrite app_nil_r.
  - replace (2 * length ((a, c) :: specs))%nat
      with (S (S (2 * length specs))) by (simpl; lia).
    destruct specs as [|[a' c'] specs].
    + simpl. by rewrite <- !app_assoc.
    + cbn [fc_params] in *.
      change (Arch.fc_stack x (?wb :: ?wb' :: ?l))
        with (Arch.fc_stack (tf.Relu (Arch.affine x wb)) (wb' :: l)).
      rewrite (IH _ (S (S base))).
      unfold Arch.affine. cbn [variable_ids fst snd].
      by rewrite <- !app_assoc.
Qed.

Lemma variable_ids_built scale h w fms ks fc orig base :
  length fms = S (length ks) ->
  variable_ids (DScaleModel.preds (built scale h w fms ks fc orig base))
  = seq base (2 * length ks + 2 * length orig).
Proof.
  intros Hlen. unfold built. cbn [DScaleModel.preds].
  unfold Arch.network, Arch.clipped, Arch.flat, Arch.pool.
  cbn [variable_ids]. rewrite variable_ids_fc_stack.
  cbn [variable_ids]. rewrite variable_ids_conv_stack.
  cbn [variable_ids app].
  rewrite conv_specs_length, fc_specs_length by done. cbn [length Nat.pred].
  by rewrite <- seq_app.
Qed.

Lemma count_matmul_conv_stack specs : forall x base,
  count_matmul (Arch.conv_stack x (conv_params base specs)) = count_matmul x.
Proof.
  induction specs as [|[[k fi] fo] specs IH]; intros x base; [done|].
  cbn [conv_params]. rewrite conv_stack_cons, IH.
  unfold Arch.conv_block. cbn [count_matmul fst snd]. lia.
Qed.

Lemma count_matmul_fc_stack specs : forall x base,
  count_matmul (Arch.fc_stack x (fc_params base specs))
  = (count_matmul x + length specs)%nat.
Proof.
  induction specs as [|[a c] specs IH]; intros x base.
  - simpl. lia.
  - destruct specs as [|[a' c'] specs].
    + simpl. lia.
    + cbn [fc_params] in *.
      change (Arch.fc_stack x (?wb :: ?wb' :: ?l))
        with (Arch.fc_stack (tf.Relu (Arch.affine x wb)) (wb' :: l)).
      rewrite (IH _ (S (S base))).
      unfold Arch.affine. cbn [count_matmul fst snd length]. lia.
Qed.

Lemma count_matmul_built scale h w fms ks fc orig base :
  count_matmul (DScaleModel.preds (built scale h w fms ks fc orig base))
  = length orig.
Proof.
  unfold built. cbn [DScaleModel.preds].
  unfold Arch.network, Arch.clipped, Arch.flat, Arch.pool.
  cbn [count_matmul]. rewrite count_matmul_fc_stack.
  cbn [count_matmul]. rewrite count_matmul_conv_stack.
  cbn [count_matmul]. by rewrite fc_specs_length.
Qed.

Lemma count_assign_conv_stack specs : forall x base,
  count_assign (Arch.conv_stack x (conv_params base specs)) = count_assign x.
Proof.
  induction specs as [|[[k fi] fo] specs IH]; intros x base; [done|].
  cbn [conv_params]. rewrite conv_stack_cons, IH.
  unfold Arch.conv_block. cbn [count_assign fst snd]. lia.
Qed.

Lemma count_assign_fc_stack specs : forall x base,
  count_assign (Arch.fc_stack x (fc_params base specs)) = count_assign x.
Proof.
  induction specs as [|[a c] specs IH]; intros x base; [done|].
  destruct specs as [|[a' c'] specs].
  - simpl. lia.
  - cbn [fc_params] in *.
    change (Arch.fc_stack x (?wb :: ?wb' :: ?l))
      with (Arch.fc_stack (tf.Relu (Arch.affine x wb)) (wb' :: l)).
    rewrite (IH _ (S (S base))).
    unfold Arch.affine. cbn [count_assign fst snd]. lia.
Qed.

Lemma count_assign_built scale h w fms ks fc orig base :
  count_assign (DScaleModel.preds (built scale h w fms ks fc orig base)) = O.
Proof.
  unfold built. cbn [DScaleModel.preds].
  unfold Arch.network, Arch.clipped, Arch.flat, Arch.pool.
  cbn [count_assign]. rewrite count_assign_fc_stack.
  cbn [count_assign]. by rewrite count_assign_conv_stack.
Qed.

(** The graph of a constructed model has no writing node, so running it
    is evaluating it. *)
Lemma predict_eval scale h w fms ks fc σ σ' m sess x :
  DScaleModel.__init__ scale h w fms ks fc σ = (σ', Ok m) ->
  DScaleModel.predict m sess x
  = (sess, tf.eval x (tf.var_values sess) (DScaleModel.preds m)).
Proof.
  intros H. apply init_exact in H as (orig & _ & _ & _ & ->).
  apply exec_eval, count_assign_built.
Qed.

Lemma leaves_conv_stack specs : forall x base,
  count_placeholder (Arch.conv_stack x (conv_params base specs))
  = count_placeholder x
  /\ count_zeros (Arch.conv_stack x (conv_params base specs))
     = count_zeros x.
Proof.
  induction specs as [|[[k fi] fo] specs IH]; intros x base; [done|].
  cbn [conv_params]. rewrite conv_stack_cons.
  destruct (IH (Arch.conv_block x
                  (tf.Var base [k; k; fi; fo], tf.Var (S base) [fo]))
               (S (S base))) as [-> ->].
  unfold Arch.conv_block. cbn [count_placeholder count_zeros fst snd].
  split; lia.
Qed.

Lemma leaves_fc_stack specs : forall x base,
  count_placeholder (Arch.fc_stack x (fc_params base specs))
  = count_placeholder x
  /\ count_zeros (Arch.fc_stack x (fc_params base specs)) = count_zeros x.
Proof.
  induction specs as [|[a c] specs IH]; intros x base; [done|].
  destruct specs as [|[a' c'] specs].
  - simpl. split; lia.
  - cbn [fc_params] in *.
    change (Arch.fc_stack x (?wb :: ?wb' :: ?l))
      with (Arch.fc_stack (tf.Relu (Arch.affine x wb)) (wb' :: l)).
    destruct (IH (tf.Relu (Arch.affine x
                             (tf.Var base [a; c], tf.Var (S base) [c])))
                 (S (S base))) as [-> ->].
    unfold Arch.affine. cbn [count_placeholder count_zeros fst snd].
    split; lia.
Qed.

Lemma leaves_built scale h w fms ks fc orig base :
  count_placeholder (DScaleModel.preds (built scale h w fms ks fc orig base))
  = 1%nat
  /\ count_zeros (DScaleModel.preds (built scale h w fms ks fc orig base))
     = O.
Proof.
  unfold built. cbn [DScaleModel.preds].
  unfold Arch.network, Arch.clipped, Arch.flat, Arch.pool.
  cbn [count_placeholder count_zeros].
  match goal with |- context [Arch.fc_stack ?x (fc_params ?b ?sp)] =>
    destruct (leaves_fc_stack sp x b) as [-> ->] end.
  cbn [count_placeholder count_zeros].
  match goal with |- context [Arch.conv_stack ?x (conv_params ?b ?sp)] =>
    destruct (leaves_conv_stack sp x b) as [-> ->] end.
  done.
Qed.


(** * Further properties of the constructor *)

(** X1.  The constructor returns an object exactly when the caller's
    reference points to a list and the configuration is [accepted]: the
    lengths match, there is at least one convolution, every kernel size,
    feature-map count and layer width is positive, and the convolutions
    leave at least two rows and two columns for the pooling step. *)
Theorem construction_succeeds_exactly_when_accepted scale h w fms ks fc σ :
  (exists σ' m, DScaleModel.__init__ scale h w fms ks fc σ = (σ', Ok m))
  <-> (exists orig,
         heap σ !! fc = Some orig /\ accepted h w fms ks orig = true).
Proof.
  split.
  - intros (σ' & m & H). by apply init_accepted_inv in H.
  - intros (orig & Horig & Hacc). eexists _, _.
    by apply init_accepted.
Qed.

(** X2.  A successful construction appends to the graph's variable
    collection, in this order, a kernel of shape [[k; k; in; out]] and a
    bias of shape [[out]] for each convolution, then a matrix of shape
    [[in; out]] and a bias of shape [[out]] for each consecutive pair of
    the derived sizes: two variables per kernel size and two per entry of
    the list the caller passed. *)
Theorem construction_allocates_two_variables_per_layer
        scale h w fms ks fc σ σ' m :
  DScaleModel.__init__ scale h w fms ks fc σ = (σ', Ok m) ->
  exists orig,
    heap σ !! fc = Some orig
    /\ variables σ'
       = variables σ ++ conv_variables ks fms
         ++ fc_variables (Arch.flattened_count h w ks fms :: orig)
    /\ length (variables σ')
       = (length (variables σ) + 2 * length ks + 2 * length orig)%nat.
Proof.
  intros H. apply init_exact in H as (orig & Horig & Hacc & -> & _).
  apply accepted_spec in Hacc as (Hlen & _).
  exists orig. cbn [variables]. repeat split; try done.
  rewrite !length_app, conv_variables_length, fc_variables_length by done.
  simpl. lia.
Qed.

Lemma construction_allocates_two_variables_per_layer_witness :
  exists orig,
    heap caller_heap !! 1%positive = Some orig
    /\ variables (fst scenario_model)
       = variables caller_heap ++ conv_variables [3; 3] [3; 8; 16]
         ++ fc_variables (Arch.flattened_count 64 64 [3; 3] [3; 8; 16] :: orig)
    /\ length (variables (fst scenario_model))
       = (length (variables caller_heap) + 2 * length [3; 3]
          + 2 * length orig)%nat.
Proof.
  apply (construction_allocates_two_variables_per_layer 0 64 64 [3; 8; 16]
           [3; 3] 1%positive caller_heap (fst scenario_model)
           (the_model scenario_model)).
  vm_compute. reflexivity.
Defined.

(** X3.  The prediction node of a constructed model reads the
    placeholder once, every variable the call created exactly once and in
    creation order, and nothing else: no variable that was in the graph
    before the call (models built one after the other share no
    parameter), and not the tensor of zeros of line 110. *)
Theorem predictions_read_the_new_variables_once
        scale h w fms ks fc σ σ' m :
  DScaleModel.__init__ scale h w fms ks fc σ = (σ', Ok m) ->
  variable_ids (DScaleModel.preds m)
  = seq (length (variables σ))
        (length (variables σ') - length (variables σ))
  /\ count_placeholder (DScaleModel.preds m) = 1%nat
  /\ count_zeros (DScaleModel.preds m) = O.
Proof.
  intros H. apply init_exact in H as (orig & Horig & Hacc & -> & ->).
  apply accepted_spec in Hacc as (Hlen & _).
  split; [|apply leaves_built].
  rewrite variable_ids_built by done. cbn [variables].
  rewrite !length_app, conv_variables_length, fc_variables_length by done.
  f_equal. simpl. lia.
Qed.

Lemma predictions_read_the_new_variables_once_witness :
  variable_ids (DScaleModel.preds (the_model scenario_model))
  = seq (length (variables caller_heap))
        (length (variables (fst scenario_model))
         - length (variables caller_heap))
  /\ count_placeholder (DScaleModel.preds (the_model scenario_model)) = 1%nat
  /\ count_zeros (DScaleModel.preds (the_model scenario_model)) = O.
Proof.
  apply (predictions_read_the_new_variables_once 0 64 64 [3; 8; 16] [3; 3]
           1%positive caller_heap (fst scenario_model)
           (the_model scenario_model)).
  vm_compute. reflexivity.
Defined.

(** X4.  When the caller passes an empty [fc_layer_sizes], the set-up
    loop of the fully-connected layers and the loop of the forward pass
    run no iteration: the graph has no matrix product and no sigmoid, and
    the predictions are the flattened pooled features, clipped, one row of
    [flattened_count] entries per frame. *)
Theorem empty_fc_layer_sizes_leaves_no_dense_layer
        scale h w fms ks fc σ σ' m :
  heap σ !! fc = Some [] ->
  DScaleModel.__init__ scale h w fms ks fc σ = (σ', Ok m) ->
  exists convs,
    Forall2 (Arch.conv_layer_ok (variables σ')) (Arch.conv_specs ks fms) convs
    /\ DScaleModel.preds m
       = Arch.clipped
           (Arch.flat
              (Arch.pool (Arch.conv_stack (DScaleModel.input_frames m) convs))
              (Arch.flattened_count h w ks fms))
    /\ count_matmul (DScaleModel.preds m) = O
    /\ Arch.count_sigmoid (DScaleModel.preds m) = O
    /\ tf.static_shape (DScaleModel.preds m)
       = Ok [None; Some (Arch.flattened_count h w ks fms)]
    /\ heap σ' !! fc = Some [Arch.flattened_count h w ks fms]
    /\ variables σ' = variables σ ++ conv_variables ks fms.
Proof.
  intros Hnil H. pose proof H as H'.
  apply init_exact in H' as (orig & Horig & Hacc & Hσ & Hm).
  rewrite Hnil in Horig. injection Horig as <-.
  apply init_static in H
    as (orig & convs & fcs & c0 & _ & _ & Horig & Hheap & _ & _ & _ & Hin
        & _ & _ & _ & Hconvs & Hfcs & Hpreds & _ & _ & _ & _ & _ & _ & Hst).
  rewrite Hnil in Horig. injection Horig as <-.
  inversion Hfcs; subst fcs.
  exists convs. split; [done|]. split; [done|].
  split; [by rewrite Hm, count_matmul_built|].
  split.
  { rewrite Hpreds. unfold Arch.network, Arch.clipped, Arch.flat, Arch.pool.
    simpl.
    destruct (conv_stack_counts _ _ _ (DScaleModel.input_frames m) Hconvs)
      as (_ & -> & _).
    by rewrite Hin. }
  split; [done|]. split; [by rewrite Hheap, lookup_insert_eq|].
  rewrite Hσ. cbn [variables]. unfold fc_variables. simpl.
  by rewrite app_nil_r.
Qed.

Lemma empty_fc_layer_sizes_leaves_no_dense_layer_witness :
  exists convs,
    Forall2 (Arch.conv_layer_ok (variables (fst featurizer_model)))
      (Arch.conv_specs [1] [1; 1]) convs
    /\ DScaleModel.preds (the_model featurizer_model)
       = Arch.clipped
           (Arch.flat
              (Arch.pool
                 (Arch.conv_stack
                    (DScaleModel.input_frames (the_model featurizer_model))
                    convs))
              (Arch.flattened_count 4 4 [1] [1; 1]))
    /\ count_matmul (DScaleModel.preds (the_model featurizer_model)) = O
    /\ Arch.count_sigmoid (DScaleModel.preds (the_model featurizer_model)) = O
    /\ tf.static_shape (DScaleModel.preds (the_model featurizer_model))
       = Ok [None; Some (Arch.flattened_count 4 4 [1] [1; 1])]
    /\ heap (fst featurizer_model) !! 1%positive
       = Some [Arch.flattened_count 4 4 [1] [1; 1]]
    /\ variables (fst featurizer_model)
       = variables empty_list_heap ++ conv_variables [1] [1; 1].
Proof.
  apply (empty_fc_layer_sizes_leaves_no_dense_layer 0 4 4 [1; 1] [1]
           1%positive empty_list_heap).
  - vm_compute. reflexivity.
  - vm_compute. reflexivity.
Defined.

(** X5.  The list at [fc_layer_sizes] grows with every model built on it.
    A second construction on the same reference finds the flattened count
    of the first at the head of the list, takes it for the width of a
    layer, and so has one fully-connected layer more than the first. *)
Theorem a_shared_list_gives_the_next_model_one_more_layer
        s1 h1 w1 fms1 ks1 s2 h2 w2 fms2 ks2 fc σ σ1 σ2 m1 m2 :
  DScaleModel.__init__ s1 h1 w1 fms1 ks1 fc σ = (σ1, Ok m1) ->
  DScaleModel.__init__ s2 h2 w2 fms2 ks2 fc σ1 = (σ2, Ok m2) ->
  exists orig,
    heap σ !! fc = Some orig
    /\ heap σ2 !! fc
       = Some (Arch.flattened_count h2 w2 ks2 fms2
               :: Arch.flattened_count h1 w1 ks1 fms1 :: orig)
    /\ count_matmul (DScaleModel.preds m1) = length orig
    /\ count_matmul (DScaleModel.preds m2) = S (length orig).
Proof.
  intros H1 H2.
  apply init_exact in H1 as (orig & Horig & _ & -> & ->).
  apply init_exact in H2 as (orig2 & Horig2 & _ & -> & ->).
  cbn [heap variables] in *. rewrite lookup_insert_eq in Horig2.
  injection Horig2 as <-.
  exists orig. rewrite lookup_insert_eq, !count_matmul_built. done.
Qed.

Lemma a_shared_list_gives_the_next_model_one_more_layer_witness :
  exists orig,
    heap caller_heap !! 1%positive = Some orig
    /\ heap (fst second_small_model) !! 1%positive
       = Some (Arch.flattened_count 4 4 [1] [1; 1]
               :: Arch.flattened_count 4 4 [1] [1; 1] :: orig)
    /\ count_matmul (DScaleModel.preds (the_model small_model)) = length orig
    /\ count_matmul (DScaleModel.preds (the_model second_small_model))
       = S (length orig).
Proof.
  apply (a_shared_list_gives_the_next_model_one_more_layer
           0 4 4 [1; 1] [1] 1 4 4 [1; 1] [1] 1%positive caller_heap
           (fst small_model) (fst second_small_model)).
  - vm_compute. reflexivity.
  - vm_compute. reflexivity.
Defined.

Lemma heap_kept_refl σ : heap_kept σ σ.
Proof. split; [done|]. exists []. by rewrite app_nil_r. Qed.

Lemma heap_kept_trans σ1 σ2 σ3 :
  heap_kept σ1 σ2 -> heap_kept σ2 σ3 -> heap_kept σ1 σ3.
Proof.
  intros [H1 [e1 V1]] [H2 [e2 V2]]. split; [congruence|].
  exists (e1 ++ e2). by rewrite V2, V1, app_assoc.
Qed.

Lemma heap_kept_touched fc σ σ' : heap_kept σ σ' -> touched fc σ σ'.
Proof.
  intros [H V]. repeat split; [by rewrite H|done|]. left. by rewrite H.
Qed.

Lemma heap_kept_then_touched fc σ1 σ2 σ3 :
  heap_kept σ1 σ2 -> touched fc σ2 σ3 -> touched fc σ1 σ3.
Proof.
  intros [H1 [e1 V1]] (H2 & [e2 V2] & H3). repeat split.
  - intros l Hl. rewrite H2 by done. by rewrite H1.
  - exists (e1 ++ e2). by rewrite V2, V1, app_assoc.
  - destruct H3 as [H3|(orig & n & Ho & Hn)].
    + left. by rewrite H3, H1.
    + right. exists orig, n. by rewrite <- H1.
Qed.

Lemma touched_then_heap_kept fc σ1 σ2 σ3 :
  touched fc σ1 σ2 -> heap_kept σ2 σ3 -> touched fc σ1 σ3.
Proof.
  intros (H2 & [e2 V2] & H3) [H1 [e1 V1]]. repeat split.
  - intros l Hl. rewrite H1. by apply H2.
  - exists (e2 ++ e1). by rewrite V1, V2, app_assoc.
  - destruct H3 as [H3|(orig & n & Ho & Hn)].
    + left. by rewrite H1.
    + right. exists orig, n. by rewrite H1.
Qed.

Lemma frames_bind {A B} (R1 R2 R3 : world -> world -> Prop)
      (m : M A) (k : A -> M B) :
  frames R1 m -> (forall a, frames R2 (k a)) ->
  (forall σ1 σ2, R1 σ1 σ2 -> R3 σ1 σ2) ->
  (forall σ1 σ2 σ3, R1 σ1 σ2 -> R2 σ2 σ3 -> R3 σ1 σ3) ->
  frames R3 (bind m k).
Proof.
  intros Hm Hk H1 H12 σ. unfold bind. specialize (Hm σ).
  destruct (m σ) as [σ1 [a|e]]; simpl in *; [|by apply H1].
  eapply H12; [done|]. apply Hk.
Qed.

Lemma keeps_bind {A B} (m : M A) (k : A -> M B) :
  frames heap_kept m -> (forall a, frames heap_kept (k a)) ->
  frames heap_kept (bind m k).
Proof.
  intros Hm Hk. apply (frames_bind heap_kept heap_kept); try done.
  apply heap_kept_trans.
Qed.

Lemma keeps_lift {A} (r : result A) : frames heap_kept (lift r).
Proof. intros σ. apply heap_kept_refl. Qed.

Lemma keeps_ret {A} (a : A) : frames heap_kept (ret a).
Proof. intros σ. apply heap_kept_refl. Qed.

Lemma keeps_raise {A} e : frames heap_kept (@raise world A e).
Proof. intros σ. apply heap_kept_refl. Qed.

Lemma keeps_deref l : frames heap_kept (deref l).
Proof.
  intros σ. unfold deref. destruct (heap σ !! l); apply heap_kept_refl.
Qed.

Lemma keeps_py_assert c msg : frames heap_kept (py_assert c msg).
Proof. intros σ. unfold py_assert. destruct c; apply heap_kept_refl. Qed.

Lemma keeps_w s : frames heap_kept (tfutils.w s).
Proof.
  intros σ. unfold tfutils.w. destruct (forallb _ s); [|apply heap_kept_refl].
  split; [done|]. by exists [s].
Qed.

Lemma keeps_b s : frames heap_kept (tfutils.b s).
Proof. apply keeps_w. Qed.

Lemma keeps_mfor {A T} (xs : list A) (body : A -> T -> M T) :
  (forall x s, frames heap_kept (body x s)) ->
  forall s, frames heap_kept (mfor xs body s).
Proof.
  intros Hb. induction xs as [|x xs IH]; intros s; simpl.
  - apply keeps_ret.
  - apply keeps_bind; [apply Hb|]. intros s'. apply IH.
Qed.

Ltac keeps :=
  repeat first
    [ apply keeps_bind; [|intros ?]
    | apply keeps_lift | apply keeps_ret | apply keeps_raise
    | apply keeps_deref | apply keeps_w | apply keeps_b
    | apply keeps_py_assert ].

Lemma keeps_conv_setup_step self i st :
  frames heap_kept (DScaleModel.conv_setup_step self i st).
Proof. unfold DScaleModel.conv_setup_step. keeps. Qed.

Lemma keeps_fc_setup_step self i st :
  frames heap_kept (DScaleModel.fc_setup_step self i st).
Proof. unfold DScaleModel.fc_setup_step. keeps. Qed.

Lemma touches_list_insert0 fc x : frames (touched fc) (list_insert0 fc x).
Proof.
  intros σ. unfold list_insert0.
  destruct (heap σ !! fc) as [v|] eqn:E; cbn [fst].
  - unfold touched. cbn [heap variables]. repeat split.
    + intros l Hl. by rewrite lookup_insert_ne.
    + exists []. by rewrite app_nil_r.
    + right. exists v, x. by rewrite lookup_insert_eq.
  - apply heap_kept_touched, heap_kept_refl.
Qed.

(** The part of [define_graph] that follows the insertion. *)
Lemma keeps_after_insert self input cs :
  frames heap_kept
    (sizes <- deref (DScaleModel.fc_layer_sizes self) ;;
     fc <- mfor (range (len sizes - 1)) (DScaleModel.fc_setup_step self)
             ([], []) ;;
     preds <- lift (DScaleModel.generate_predictions input (tf.shape0 input)
                      (DScaleModel.conv_ws cs) (DScaleModel.conv_bs cs)
                      (fst fc) (snd fc)) ;;
     ret (DScaleModel.Build self input (tf.shape0 input) preds)).
Proof.
  keeps. apply keeps_mfor. intros. apply keeps_fc_setup_step.
Qed.

Lemma touches_define_graph self :
  frames (touched (DScaleModel.fc_layer_sizes self))
    (DScaleModel.define_graph self).
Proof.
  unfold DScaleModel.define_graph.
  pose proof (heap_kept_touched (DScaleModel.fc_layer_sizes self)) as K.
  pose proof (heap_kept_then_touched (DScaleModel.fc_layer_sizes self)) as KT.
  pose proof (touched_then_heap_kept (DScaleModel.fc_layer_sizes self)) as TK.
  apply (frames_bind heap_kept (touched (DScaleModel.fc_layer_sizes self)));
    [apply keeps_lift|intros c0|done|done].
  apply (frames_bind heap_kept (touched (DScaleModel.fc_layer_sizes self)));
    [apply keeps_lift|intros input|done|done].
  apply (frames_bind heap_kept (touched (DScaleModel.fc_layer_sizes self)));
    [apply keeps_mfor; intros; apply keeps_conv_setup_step|intros cs
    |done|done].
  apply (frames_bind heap_kept (touched (DScaleModel.fc_layer_sizes self)));
    [apply keeps_lift|intros c_last|done|done].
  apply (frames_bind (touched (DScaleModel.fc_layer_sizes self)) heap_kept);
    [apply touches_list_insert0|intros _|done|done].
  apply keeps_after_insert.
Qed.

Lemma touches_init scale h w fms ks fc :
  frames (touched fc) (DScaleModel.__init__ scale h w fms ks fc).
Proof.
  unfold DScaleModel.__init__.
  apply (frames_bind heap_kept (touched fc)).
  - apply keeps_py_assert.
  - intros _.
    apply (touches_define_graph (DScaleModel.Config scale h w fms ks fc)).
  - apply heap_kept_touched.
  - apply heap_kept_then_touched.
Qed.

(** X6.  Whatever the outcome of a constructor call, an object or an
    exception, the call has changed no list of the heap but the one at
    [fc_layer_sizes], has removed or replaced no variable of the graph,
    and has changed the list at [fc_layer_sizes] at most by inserting one
    element at its head. *)
Theorem construction_touches_only_its_list scale h w fms ks fc σ :
  let σ' := fst (DScaleModel.__init__ scale h w fms ks fc σ) in
  (forall l, l <> fc -> heap σ' !! l = heap σ !! l)
  /\ (exists ext, variables σ' = variables σ ++ ext)
  /\ (heap σ' !! fc = heap σ !! fc
      \/ exists orig n,
           heap σ !! fc = Some orig /\ heap σ' !! fc = Some (n :: orig)).
Proof. cbv zeta. apply (touches_init scale h w fms ks fc σ). Qed.

(** X7.  The insertion at line 88 comes before the fully-connected
    variables are allocated and before the forward pass is built.  When
    the lengths match, height and width are not negative and the kernel
    sizes and feature-map counts are positive, the caller's list has the
    flattened count at its head after the call, whether the call goes on
    to return an object or to raise. *)
Theorem the_list_is_extended_before_later_failures
        scale h w fms ks fc orig σ :
  length fms = S (length ks) ->
  0 <= h -> 0 <= w ->
  Forall (fun d => 0 < d) ks -> Forall (fun d => 0 < d) fms ->
  heap σ !! fc = Some orig ->
  heap (fst (DScaleModel.__init__ scale h w fms ks fc σ)) !! fc
  = Some (Arch.flattened_count h w ks fms :: orig).
Proof.
  intros Hlen Hh Hw Hks Hfms Hfc.
  destruct fms as [|c0 fms'] eqn:Efms; [done|]. rewrite <- Efms in *.
  set (self := DScaleModel.Config scale h w fms ks fc).
  assert (Pc0 : 0 < c0) by (rewrite Efms in Hfms; by inversion Hfms).
  set (input := tf.Placeholder [None; Some h; Some w; Some c0]).
  assert (Hin : tf.static_shape input = Ok [None; Some h; Some w; Some c0]).
  { simpl. destruct (Z.leb_spec 0 h); [|lia].
    destruct (Z.leb_spec 0 w); [|lia]. by destruct (Z.leb_spec 0 c0); [|lia]. }
  unfold DScaleModel.__init__. unfold bind at 1. unfold py_assert, len.
  destruct (Z.eqb_spec (Z.of_nat (length ks)) (Z.of_nat (length fms) - 1));
    [|lia].
  unfold ret at 1. fold self.
  unfold DScaleModel.define_graph.
  unfold bind at 1. unfold lift at 1.
  replace (py_index (DScaleModel.conv_layer_fms self) 0) with (Ok c0)
    by (symmetry; apply (py_index_lookup fms O); by rewrite Efms).
  unfold bind at 1. unfold lift at 1.
  cbn [DScaleModel.height DScaleModel.width self].
  change (tf.placeholder [None; Some h; Some w; Some c0]) with (tf.op input).
  rewrite (op_static _ _ Hin).
  unfold bind at 1.
  rewrite (conv_setup_run self) by done.
  cbn [DScaleModel.kernel_sizes DScaleModel.conv_layer_fms self].
  unfold bind at 1. unfold lift at 1.
  rewrite (py_index_last_Ok fms 0) by (by rewrite Efms).
  cbn [DScaleModel.last_out_height DScaleModel.last_out_width].
  fold (Arch.flattened_count h w ks fms).
  unfold bind at 1. unfold list_insert0 at 1.
  cbn [heap variables DScaleModel.fc_layer_sizes self]. rewrite Hfc.
  match goal with |- heap (fst (?rest ?σ2)) !! _ = _ =>
    pose proof (keeps_after_insert self input _ σ2) as [-> _] end.
  cbn [heap]. apply lookup_insert_eq.
Qed.

Lemma the_list_is_extended_before_later_failures_witness :
  heap (fst (DScaleModel.__init__ 0 4 4 [1; 1] [1] 1%positive
               zero_width_heap)) !! 1%positive
  = Some (Arch.flattened_count 4 4 [1] [1; 1] :: [0]).
Proof.
  apply (the_list_is_extended_before_later_failures 0 4 4 [1; 1] [1]
           1%positive [0] zero_width_heap).
  - reflexivity.
  - lia.
  - lia.
  - repeat constructor.
  - repeat constructor.
  - vm_compute. reflexivity.
Defined.

Lemma static_shape_zeros x d rest :
  tf.static_shape x = Ok (d :: rest) ->
  tf.static_shape (tf.Zeros x [1]) = Ok [d; Some 1].
Proof. simpl. by intros ->. Qed.

Lemma pooling_zeros_raises x d rest :
  tf.static_shape x = Ok (d :: rest) ->
  DScaleModel.pooling (tf.Zeros x [1])
  = Raise (ValueError "max_pool: Shape must be rank 4").
Proof.
  intros H. unfold DScaleModel.pooling, tf.max_pool, tf.op.
  cbn [tf.static_shape]. by rewrite H.
Qed.

(** X8.  With [kernel_sizes = []] and a configuration that is otherwise
    in order, the constructor fails at the pooling step of line 125:
    [max_pool] is handed the rank-2 tensor of zeros and its shape
    inference raises.  By then the list has been extended and the
    variables of the fully-connected layers are in the graph. *)
Theorem no_kernel_fails_at_the_pooling_step scale h w c fc orig σ :
  2 <= h -> 2 <= w -> 0 < c ->
  Forall (fun d => 0 < d) orig ->
  heap σ !! fc = Some orig ->
  DScaleModel.__init__ scale h w [c] [] fc σ
  = (World (<[fc := (h / 2) * (w / 2) * c :: orig]> (heap σ))
       (variables σ ++ fc_variables ((h / 2) * (w / 2) * c :: orig)),
     Raise (ValueError "max_pool: Shape must be rank 4")).
Proof.
  intros Hh Hw Hc Horig Hfc.
  set (self := DScaleModel.Config scale h w [c] [] fc).
  set (input := tf.Placeholder [None; Some h; Some w; Some c]).
  set (n := h / 2 * (w / 2) * c).
  assert (Hin : tf.static_shape input = Ok [None; Some h; Some w; Some c]).
  { simpl. destruct (Z.leb_spec 0 h); [|lia].
    destruct (Z.leb_spec 0 w); [|lia]. by destruct (Z.leb_spec 0 c); [|lia]. }
  assert (Pn : 0 < n).
  { assert (1 <= h / 2) by (apply Z.div_le_lower_bound; lia).
    assert (1 <= w / 2) by (apply Z.div_le_lower_bound; lia).
    unfold n. nia. }
  unfold DScaleModel.__init__. unfold bind at 1. unfold py_assert, len.
  cbn [length]. change (Z.of_nat 0 =? Z.of_nat 1 - 1) with true.
  unfold ret at 1. fold self.
  unfold DScaleModel.define_graph.
  unfold bind at 1. unfold lift at 1.
  change (py_index (DScaleModel.conv_layer_fms self) 0) with (Ok c).
  unfold bind at 1. unfold lift at 1.
  cbn [DScaleModel.height DScaleModel.width self].
  change (tf.placeholder [None; Some h; Some w; Some c]) with (tf.op input).
  rewrite (op_static _ _ Hin).
  unfold bind at 1.
  change (mfor (range (len (DScaleModel.kernel_sizes self))) ?f ?s σ)
    with (σ, Ok s).
  unfold bind at 1. unfold lift at 1.
  change (py_index (DScaleModel.conv_layer_fms self) (-1)) with (Ok c).
  cbn [DScaleModel.last_out_height DScaleModel.last_out_width].
  fold n.
  unfold bind at 1. unfold list_insert0 at 1.
  cbn [heap variables DScaleModel.fc_layer_sizes self]. rewrite Hfc.
  unfold bind at 1. unfold deref at 1. cbn [heap variables].
  rewrite lookup_insert_eq.
  unfold bind at 1.
  rewrite (fc_setup_run self (n :: orig)); cycle 1.
  { by constructor. }
  { cbn [heap DScaleModel.fc_layer_sizes self]. apply lookup_insert_eq. }
  cbn [heap variables fst snd DScaleModel.conv_ws DScaleModel.conv_bs].
  unfold bind at 1. unfold lift at 1.
  unfold DScaleModel.generate_predictions, DScaleModel.convolutions.
  unfold tf.shape0, tf.zeros.
  rewrite (op_static _ _ (static_shape_zeros _ _ _ Hin)).
  cbn [rbind]. change (range (len (@nil tf.graph))) with (@nil Z).
  cbn [rfor rbind fst].
  by rewrite (pooling_zeros_raises _ _ _ Hin).
Qed.

Lemma no_kernel_fails_at_the_pooling_step_witness :
  DScaleModel.__init__ 0 4 4 [1] [] 1%positive caller_heap
  = (World (<[1%positive := (4 / 2) * (4 / 2) * 1 :: [1]]> (heap caller_heap))
       (variables caller_heap ++ fc_variables ((4 / 2) * (4 / 2) * 1 :: [1])),
     Raise (ValueError "max_pool: Shape must be rank 4")).
Proof.
  apply (no_kernel_fails_at_the_pooling_step 0 4 4 1 1%positive [1]
           caller_heap).
  - lia.
  - lia.
  - lia.
  - repeat constructor.
  - vm_compute. reflexivity.
Defined.

Lemma bind_map {A B B'} (f : result B -> result B') (m : M A)
      (k : A -> M B') (k' : A -> M B) σ :
  (forall e, f (Raise e) = Raise e) ->
  (forall a σ1, k a σ1 = (fst (k' a σ1), f (snd (k' a σ1)))) ->
  bind m k σ = (fst (bind m k' σ), f (snd (bind m k' σ))).
Proof.
  intros Hf Hk. unfold bind. destruct (m σ) as [σ1 [a|e]]; simpl.
  - apply Hk.
  - by rewrite Hf.
Qed.

Lemma define_graph_scale_index s s' h w fms ks fc σ :
  DScaleModel.define_graph (DScaleModel.Config s h w fms ks fc) σ
  = (fst (DScaleModel.define_graph (DScaleModel.Config s' h w fms ks fc) σ),
     match snd (DScaleModel.define_graph
                  (DScaleModel.Config s' h w fms ks fc) σ) with
     | Ok m => Ok (with_scale_index s m)
     | Raise e => Raise e
     end).
Proof.
  unfold DScaleModel.define_graph.
  change (DScaleModel.conv_setup_step (DScaleModel.Config s h w fms ks fc))
    with (DScaleModel.conv_setup_step (DScaleModel.Config s' h w fms ks fc)).
  change (DScaleModel.fc_setup_step (DScaleModel.Config s h w fms ks fc))
    with (DScaleModel.fc_setup_step (DScaleModel.Config s' h w fms ks fc)).
  cbn [DScaleModel.conv_layer_fms DScaleModel.kernel_sizes DScaleModel.height
       DScaleModel.width DScaleModel.fc_layer_sizes].
  set (f := fun r : result DScaleModel.t =>
              match r with
              | Ok m => Ok (with_scale_index s m)
              | Raise e => Raise e
              end).
  change (match ?r with Ok m => Ok (with_scale_index s m) | Raise e => Raise e end)
    with (f r).
  repeat (apply (bind_map f); [done|]; clear σ; intros ? σ).
  reflexivity.
Qed.

(** X9.  [scale_index] is stored in the object and used for nothing
    else: two constructor calls that differ in it alone leave the same
    world and either raise the same exception or return objects with the
    same placeholder, batch size and prediction node. *)
Theorem scale_index_is_only_stored s s' h w fms ks fc σ :
  fst (DScaleModel.__init__ s h w fms ks fc σ)
  = fst (DScaleModel.__init__ s' h w fms ks fc σ)
  /\ match snd (DScaleModel.__init__ s h w fms ks fc σ),
           snd (DScaleModel.__init__ s' h w fms ks fc σ) with
     | Ok m, Ok m' =>
         DScaleModel.scale_index (DScaleModel.self m) = s
         /\ DScaleModel.scale_index (DScaleModel.self m') = s'
         /\ DScaleModel.input_frames m = DScaleModel.input_frames m'
         /\ DScaleModel.batch_size m = DScaleModel.batch_size m'
         /\ DScaleModel.preds m = DScaleModel.preds m'
     | Raise e, Raise e' => e = e'
     | _, _ => False
     end.
Proof.
  assert (H : DScaleModel.__init__ s h w fms ks fc σ
              = (fst (DScaleModel.__init__ s' h w fms ks fc σ),
                 match snd (DScaleModel.__init__ s' h w fms ks fc σ) with
                 | Ok m => Ok (with_scale_index s m)
                 | Raise e => Raise e
                 end)).
  { unfold DScaleModel.__init__, bind, py_assert.
    destruct (len ks =? len fms - 1); [|done]. unfold ret.
    apply define_graph_scale_index. }
  rewrite H. cbn [fst snd]. split; [done|].
  destruct (DScaleModel.__init__ s' h w fms ks fc σ) as [σ' [m'|e]] eqn:E;
    cbn [fst snd]; [|done].
  apply init_exact in E as (? & _ & _ & _ & ->). done.
Qed.

(** ** Errors of the forward pass *)

Lemma eval_conv_stack_raise x vars e l : forall g,
  tf.eval x vars g = Raise e ->
  tf.eval x vars (Arch.conv_stack g l) = Raise e.
Proof.
  induction l as [|wb l IH]; intros g H; [done|].
  rewrite conv_stack_cons. apply IH. simpl. by rewrite H.
Qed.

Lemma eval_fc_stack_raise x vars e l : forall g,
  tf.eval x vars g = Raise e ->
  tf.eval x vars (Arch.fc_stack g l) = Raise e.
Proof.
  induction l as [|wb l IH]; intros g H; [done|].
  destruct l as [|wb' l].
  - simpl. by rewrite H.
  - change (Arch.fc_stack g (wb :: wb' :: l))
      with (Arch.fc_stack (tf.Relu (Arch.affine g wb)) (wb' :: l)).
    apply IH. simpl. by rewrite H.
Qed.

Lemma eval_network_raise x vars e input convs n fcs :
  tf.eval x vars input = Raise e ->
  tf.eval x vars (Arch.network input convs n fcs) = Raise e.
Proof.
  intros H. unfold Arch.network, Arch.clipped.
  cbn [tf.eval].
  rewrite (eval_fc_stack_raise x vars e); [done|].
  unfold Arch.flat, Arch.pool. cbn [tf.eval].
  by rewrite (eval_conv_stack_raise x vars e).
Qed.

Lemma feed_matches_frames h w c x :
  tf.feed_matches [None; Some h; Some w; Some c] x = true ->
  exists n, tf.shape x = [n; h; w; c].
Proof.
  unfold tf.feed_matches.
  destruct (tf.shape x) as [|n [|h' [|w' [|c' [|? ?]]]]]; try done.
  simpl. rewrite !andb_true_iff, !Z.eqb_eq.
  intros (-> & -> & -> & _). eauto.
Qed.

(** X10.  A batch whose shape is not [[n; height; width; channels]] for
    the configured height, width and input channel count is refused when
    it is fed: [predict] raises the feed error of the placeholder and the
    session is as it was, whatever the variables hold. *)
Theorem a_batch_of_another_shape_is_refused
        scale h w fms ks fc σ σ' m sess c0 x :
  DScaleModel.__init__ scale h w fms ks fc σ = (σ', Ok m) ->
  py_index fms 0 = Ok c0 ->
  (forall n, tf.shape x <> [n; h; w; c0]) ->
  DScaleModel.predict m sess x
  = (sess, Raise (ValueError "Cannot feed value of this shape")).
Proof.
  intros H Hc0 Hx. rewrite (predict_eval _ _ _ _ _ _ _ _ _ sess x H).
  apply init_static in H
    as (_ & convs & fcs & c0' & _ & _ & _ & _ & _ & _ & Hc0' & Hin & _ & _
        & _ & _ & _ & Hpreds & _).
  apply (py_index_nat fms O) in Hc0. rewrite Hc0 in Hc0'.
  injection Hc0' as <-.
  rewrite Hpreds. f_equal.
  apply eval_network_raise. rewrite Hin. cbn [tf.eval].
  destruct (tf.feed_matches _ x) eqn:E; [|done].
  apply feed_matches_frames in E as [n E]. by destruct (Hx n).
Qed.

Lemma a_batch_of_another_shape_is_refused_witness :
  DScaleModel.predict (the_model small_model)
    (zero_session (variables (fst small_model))) small_frame
  = (zero_session (variables (fst small_model)),
     Raise (ValueError "Cannot feed value of this shape")).
Proof.
  apply (a_batch_of_another_shape_is_refused 0 4 4 [1; 1] [1] 1%positive
           caller_heap (fst small_model) (the_model small_model) _ 1).
  - vm_compute. reflexivity.
  - vm_compute. reflexivity.
  - intros n. simpl. discriminate.
Defined.

(** X11.  A negative height, width or input channel count is refused by
    the placeholder at line 55, the first statement of [define_graph]:
    the constructor raises before it allocates a variable or touches the
    list, and the world is as it was. *)
Theorem a_negative_frame_size_is_refused_up_front
        scale h w fms ks fc σ c0 :
  len ks = len fms - 1 ->
  py_index fms 0 = Ok c0 ->
  h < 0 \/ w < 0 \/ c0 < 0 ->
  DScaleModel.__init__ scale h w fms ks fc σ
  = (σ, Raise (ValueError "Dimension must be >= 0")).
Proof.
  intros Hlen Hc0 Hneg.
  unfold DScaleModel.__init__. unfold bind at 1. unfold py_assert.
  destruct (Z.eqb_spec (len ks) (len fms - 1)); [|done].
  unfold ret at 1. unfold DScaleModel.define_graph.
  unfold bind at 1. unfold lift at 1.
  cbn [DScaleModel.conv_layer_fms DScaleModel.height DScaleModel.width].
  rewrite Hc0. unfold bind at 1. unfold lift at 1.
  unfold tf.placeholder, tf.op. cbn [tf.static_shape forallb].
  destruct (Z.leb_spec 0 h); [|done].
  destruct (Z.leb_spec 0 w); [|done].
  destruct (Z.leb_spec 0 c0); [lia|done].
Qed.

Lemma a_negative_frame_size_is_refused_up_front_witness :
  DScaleModel.__init__ 0 (-4) 4 [1; 1] [1] 1%positive caller_heap
  = (caller_heap, Raise (ValueError "Dimension must be >= 0")).
Proof.
  apply (a_negative_frame_size_is_refused_up_front 0 (-4) 4 [1; 1] [1]
           1%positive caller_heap 1).
  - reflexivity.
  - reflexivity.
  - lia.
Defined.

(** ** Which exceptions can be raised *)

Ltac value_error :=
  repeat match goal with
  | |- context [match ?x with _ => _ end] => destruct x
  | |- context [if ?b then _ else _] => destruct b
  end;
  simpl; try discriminate;
  intros [= <-]; unfold is_value_error; eauto.

Lemma window_out_raises i k s p e :
  tf.window_out i k s p = Raise e -> is_value_error e.
Proof. unfold tf.window_out. value_error. Qed.

Lemma windowed_output_size_raises i k s p e :
  tf.windowed_output_size i k s p = Raise e -> is_value_error e.
Proof.
  unfold tf.windowed_output_size. destruct i as [i|].
  - destruct (tf.window_out i k s p) eqn:E; simpl; [done|].
    intros [= <-]. eapply window_out_raises, E.
  - value_error.
Qed.

Lemma windowed_dim_raises i k s p e :
  tf.windowed_dim i k s p = Raise e -> is_value_error e.
Proof.
  unfold tf.windowed_dim. destruct k; [|done].
  apply windowed_output_size_raises.
Qed.

Lemma rbind_Raise {A B} (r : result A) (k : A -> result B) e :
  rbind r k = Raise e ->
  r = Raise e \/ exists a, r = Ok a /\ k a = Raise e.
Proof. destruct r; simpl; [eauto|]. intros [= ->]. by left. Qed.

Lemma conv2d_shape_raises x f strides p e :
  tf.conv2d_shape x f strides p = Raise e -> is_value_error e.
Proof.
  unfold tf.conv2d_shape.
  repeat match goal with
  | |- context [match ?l with [] => _ | _ :: _ => _ end] =>
      destruct l; try (intros [= <-]; unfold is_value_error; by eauto)
  | |- context [match ?z with 0 => _ | Z.pos _ => _ | Z.neg _ => _ end] =>
      destruct z; try (intros [= <-]; unfold is_value_error; by eauto)
  | |- context [match ?q with xH => _ | xI _ => _ | xO _ => _ end] =>
      destruct q; try (intros [= <-]; unfold is_value_error; by eauto)
  end.
  destruct (tf.compatible _ _);
    [|intros [= <-]; unfold is_value_error; by eauto].
  intros [H|(oh & _ & [H|(ow & _ & H)]%rbind_Raise)]%rbind_Raise;
    [eapply windowed_dim_raises, H|eapply windowed_dim_raises, H
    |discriminate H].
Qed.

Lemma max_pool_shape_raises x ksize strides p e :
  tf.max_pool_shape x ksize strides p = Raise e -> is_value_error e.
Proof.
  unfold tf.max_pool_shape.
  repeat match goal with
  | |- context [match ?l with [] => _ | _ :: _ => _ end] =>
      destruct l; try (intros [= <-]; unfold is_value_error; by eauto)
  | |- context [match ?z with 0 => _ | Z.pos _ => _ | Z.neg _ => _ end] =>
      destruct z; try (intros [= <-]; unfold is_value_error; by eauto)
  | |- context [match ?q with xH => _ | xI _ => _ | xO _ => _ end] =>
      destruct q; try (intros [= <-]; unfold is_value_error; by eauto)
  end.
  intros [H|(oh & _ & [H|(ow & _ & H)]%rbind_Raise)]%rbind_Raise;
    [eapply windowed_output_size_raises, H
    |eapply windowed_output_size_raises, H|discriminate H].
Qed.

Lemma matmul_shape_raises a b e :
  tf.matmul_shape a b = Raise e -> is_value_error e.
Proof. unfold tf.matmul_shape. value_error. Qed.

Lemma broadcast_dim_raises a b e :
  tf.broadcast_dim a b = Raise e -> is_value_error e.
Proof. unfold tf.broadcast_dim. value_error. Qed.

Lemma broadcast_rev_raises a : forall b e,
  tf.broadcast_rev a b = Raise e -> is_value_error e.
Proof.
  induction a as [|x a IH]; intros b e; [done|].
  destruct b as [|y b]; [done|]. simpl.
  intros [H|(d & _ & [H|(r & _ & H)]%rbind_Raise)]%rbind_Raise.
  - eapply broadcast_dim_raises, H.
  - eapply IH, H.
  - discriminate H.
Qed.

Lemma broadcast_shape_raises a b e :
  tf.broadcast_shape a b = Raise e -> is_value_error e.
Proof.
  unfold tf.broadcast_shape.
  intros [H|(r & _ & H)]%rbind_Raise; [|discriminate H].
  eapply broadcast_rev_raises, H.
Qed.

Lemma reshape_shape_raises x new e :
  tf.reshape_shape x new = Raise e -> is_value_error e.
Proof. unfold tf.reshape_shape. value_error. Qed.

Lemma static_shape_raises g : forall e,
  tf.static_shape g = Raise e -> is_value_error e.
Proof.
  induction g; intros e; cbn [tf.static_shape]; try done.
  - value_error.
  - intros [H|(s & _ & H)]%rbind_Raise; [by apply IHg|]. revert H.
    value_error.
  - intros [H|(sx & _ & [H|(sf & _ & H)]%rbind_Raise)]%rbind_Raise;
      [by apply IHg1|by apply IHg2|eapply conv2d_shape_raises, H].
  - intros [H|(sx & _ & [H|(sf & _ & H)]%rbind_Raise)]%rbind_Raise;
      [by apply IHg1|by apply IHg2|eapply broadcast_shape_raises, H].
  - apply IHg.
  - intros [H|(sx & _ & H)]%rbind_Raise;
      [by apply IHg|eapply max_pool_shape_raises, H].
  - intros [H|(sx & _ & H)]%rbind_Raise;
      [by apply IHg|eapply reshape_shape_raises, H].
  - intros [H|(sx & _ & [H|(sf & _ & H)]%rbind_Raise)]%rbind_Raise;
      [by apply IHg1|by apply IHg2|eapply matmul_shape_raises, H].
  - apply IHg.
  - apply IHg.
  - intros [H|(sv & _ & H)]%rbind_Raise; [by apply IHg|]. revert H.
    value_error.
Qed.

Lemma op_raises g e : tf.op g = Raise e -> is_value_error e.
Proof.
  unfold tf.op. intros [H|(s & _ & H)]%rbind_Raise; [|discriminate H].
  eapply static_shape_raises, H.
Qed.

Lemma In_range x n :
  In x (range n) -> exists i : nat, x = Z.of_nat i /\ (i < Z.to_nat n)%nat.
Proof.
  unfold range. intros (i & <- & Hi%in_seq)%in_map_iff.
  exists i. split; [done|lia].
Qed.

Lemma rfor_Raise {A S} (xs : list A) (body : A -> S -> result S) :
  forall s e,
    rfor xs body s = Raise e -> exists x s1, In x xs /\ body x s1 = Raise e.
Proof.
  induction xs as [|a xs IH]; simpl; intros s e H; [done|].
  apply rbind_Raise in H as [H|(s' & _ & H)].
  - exists a, s. auto.
  - apply IH in H as (x & s1 & ? & ?). exists x, s1. auto.
Qed.

Lemma mfor_Raise {A T} (xs : list A) (body : A -> T -> M T) :
  (forall x s, frames heap_kept (body x s)) ->
  forall s σ σ' e,
    mfor xs body s σ = (σ', Raise e) ->
    exists x s1 σ1,
      In x xs /\ heap_kept σ σ1 /\ body x s1 σ1 = (σ', Raise e).
Proof.
  intros Hb. induction xs as [|a xs IH]; simpl; intros s σ σ' e H;
    [done|].
  unfold bind in H. pose proof (Hb a s σ) as Hk.
  destruct (body a s σ) as [σ1 [s'|e']] eqn:E.
  - apply IH in H as (x & s1 & σ2 & ? & Hk2 & ?).
    exists x, s1, σ2. split; [auto|]. split; [|done].
    eapply heap_kept_trans; [exact Hk|exact Hk2].
  - injection H as <- <-. exists a, s, σ.
    split; [auto|]. split; [apply heap_kept_refl|done].
Qed.

Lemma w_Raise s σ σ' e :
  tfutils.w s σ = (σ', Raise e) -> e = ConfigurationError.
Proof.
  unfold tfutils.w, tfutils.new_variable, raise.
  destruct (forallb _ s); [done|]. by intros [= _ <-].
Qed.

Lemma b_Raise s σ σ' e :
  tfutils.b s σ = (σ', Raise e) -> e = ConfigurationError.
Proof. apply w_Raise. Qed.

Lemma bind_Raise {A B} (m : M A) (k : A -> M B) σ σ' e :
  bind m k σ = (σ', Raise e) ->
  m σ = (σ', Raise e)
  \/ exists σ1 a, m σ = (σ1, Ok a) /\ k a σ1 = (σ', Raise e).
Proof.
  unfold bind. destruct (m σ) as [σ1 [a|e']]; [eauto|].
  intros [= -> ->]. by left.
Qed.

Lemma lift_Raise {A} (r : result A) (σ σ' : world) e :
  lift r σ = (σ', Raise e) -> r = Raise e.
Proof. unfold lift. by intros [= _ ->]. Qed.

Lemma conv_setup_step_Raise self i st σ σ' e :
  (i < length (DScaleModel.kernel_sizes self))%nat ->
  length (DScaleModel.conv_layer_fms self)
  = S (length (DScaleModel.kernel_sizes self)) ->
  DScaleModel.conv_setup_step self (Z.of_nat i) st σ = (σ', Raise e) ->
  e = ConfigurationError.
Proof.
  intros Hi Hlen.
  destruct (lookup_lt_is_Some_2 (DScaleModel.kernel_sizes self) i Hi)
    as [k Hk].
  destruct (lookup_lt_is_Some_2 (DScaleModel.conv_layer_fms self) i
              ltac:(lia)) as [fi Hfi].
  destruct (lookup_lt_is_Some_2 (DScaleModel.conv_layer_fms self) (S i)
              ltac:(lia)) as [fo Hfo].
  unfold DScaleModel.conv_setup_step.
  rewrite (py_index_lookup _ _ _ Hk), (py_index_lookup _ _ _ Hfi),
    (py_index_lookup_succ _ _ _ Hfo).
  unfold bind at 1 2 3 4. unfold lift at 1 2 3 4.
  intros [H|(σ1 & wv & _ & H)]%bind_Raise; [by eapply w_Raise|].
  revert H. unfold bind at 1. unfold lift at 1.
  intros [H|(σ2 & bv & _ & H)]%bind_Raise; [by eapply b_Raise|].
  done.
Qed.

Lemma fc_setup_step_Raise self sizes i st σ σ' e :
  heap σ !! DScaleModel.fc_layer_sizes self = Some sizes ->
  (S i < length sizes)%nat ->
  DScaleModel.fc_setup_step self (Z.of_nat i) st σ = (σ', Raise e) ->
  e = ConfigurationError.
Proof.
  intros Hh Hi.
  destruct (lookup_lt_is_Some_2 sizes i ltac:(lia)) as [a Ha].
  destruct (lookup_lt_is_Some_2 sizes (S i) Hi) as [c Hc].
  unfold DScaleModel.fc_setup_step.
  unfold bind at 1. rewrite (deref_lookup _ _ _ Hh).
  unfold bind at 1 2. unfold lift at 1 2.
  rewrite (py_index_lookup _ _ _ Ha), (py_index_lookup_succ _ _ _ Hc).
  intros [H|(σ1 & wv & Hw & H)]%bind_Raise; [by eapply w_Raise|].
  revert H. unfold bind at 1.
  assert (Hh1 : heap σ1 !! DScaleModel.fc_layer_sizes self = Some sizes).
  { destruct (keeps_w [a; c] σ) as [Hk _]. rewrite Hw in Hk. simpl in Hk.
    by rewrite Hk. }
  rewrite (deref_lookup _ _ _ Hh1).
  unfold bind at 1. unfold lift at 1.
  rewrite (py_index_lookup_succ _ _ _ Hc).
  intros [H|(σ2 & bv & _ & H)]%bind_Raise; [by eapply b_Raise|].
  done.
Qed.

Lemma conv_layer_Raise ws bs i st e :
  (i < length ws)%nat -> length bs = length ws ->
  DScaleModel.conv_layer ws bs (Z.of_nat i) st = Raise e ->
  is_value_error e.
Proof.
  intros Hi Hlen.
  destruct (lookup_lt_is_Some_2 ws i Hi) as [w Hw].
  destruct (lookup_lt_is_Some_2 bs i ltac:(lia)) as [b Hb].
  unfold DScaleModel.conv_layer.
  rewrite (py_index_lookup _ _ _ Hw), (py_index_lookup _ _ _ Hb).
  cbn [rbind].
  intros [H|(p & _ & H)]%rbind_Raise; [eapply op_raises, H|].
  cbn [rbind] in H.
  apply rbind_Raise in H as [H|(q & _ & H)]; [eapply op_raises, H|].
  apply rbind_Raise in H as [H|(r & _ & H)]; [eapply op_raises, H|].
  done.
Qed.

Lemma fc_layer_Raise ws bs i p e :
  (i < length ws)%nat -> length bs = length ws ->
  DScaleModel.fc_layer ws bs (Z.of_nat i) p = Raise e ->
  is_value_error e.
Proof.
  intros Hi Hlen.
  destruct (lookup_lt_is_Some_2 ws i Hi) as [w Hw].
  destruct (lookup_lt_is_Some_2 bs i ltac:(lia)) as [b Hb].
  unfold DScaleModel.fc_layer.
  rewrite (py_index_lookup _ _ _ Hw), (py_index_lookup _ _ _ Hb).
  cbn [rbind].
  intros [H|(q & _ & H)]%rbind_Raise; [eapply op_raises, H|].
  cbn [rbind] in H.
  apply rbind_Raise in H as [H|(r & _ & H)]; [eapply op_raises, H|].
  destruct (_ =? _); eapply op_raises, H.
Qed.

Lemma generate_predictions_Raise vs ks fms input ws bs fws fbs d0 h w c0 e :
  tf.static_shape input = Ok [d0; Some h; Some w; Some c0] ->
  length bs = length ws -> length fbs = length fws ->
  Forall2 (Arch.conv_layer_ok vs) (Arch.conv_specs ks fms) (zip ws bs) ->
  length fms = S (length ks) -> fms !! O = Some c0 ->
  DScaleModel.generate_predictions input (tf.shape0 input) ws bs fws fbs
  = Raise e ->
  is_value_error e.
Proof.
  intros Hin Hlen Hflen Hconvs Hl Hc0.
  unfold DScaleModel.generate_predictions.
  intros [H|(p & Hp & H)]%rbind_Raise.
  { unfold DScaleModel.convolutions in H.
    apply rbind_Raise in H as [H|(z & _ & H)]; [eapply op_raises, H|].
    apply rbind_Raise in H as [H|(st & _ & H)]; [|done].
    apply rfor_Raise in H as (x & s1 & (i & -> & Hi)%In_range & H).
    unfold len in Hi. rewrite Nat2Z.id in Hi.
    by eapply conv_layer_Raise. }
  apply rbind_Raise in H as [H|(q & Hq & H)]; [eapply op_raises, H|].
  apply rbind_Raise in H as [H|(r & Hr & H)].
  { unfold DScaleModel.convolutions, tf.zeros, tf.shape0 in Hp. inv_ok.
    match goal with H : rfor _ _ _ = Ok _ |- _ =>
      apply convolution_loop in H as [Hstack Hpreds]; [|done] end.
    match goal with H : tf.op (tf.Zeros _ _) = _ |- _ =>
      apply op_Ok in H as [-> _] end.
    destruct (decide (ws = [])) as [Hnil|Hne].
    { rewrite Hpreds in Hq. by apply pooling_zeros in Hq. }
    rewrite Hpreds, Hstack in Hq.
    unfold DScaleModel.pooling in Hq. inv_op.
    pose proof Hq as Hpool.
    fold (Arch.pool (Arch.conv_stack input (zip ws bs))) in Hpool.
    simpl in Hq. inv_ok.
    match goal with H : tf.static_shape (Arch.conv_stack _ _) = Ok ?sx |- _ =>
      rename H into Hs end.
    destruct (conv_stack_static _ _ _ _ _ _ _ _ _ _ Hconvs Hl Hc0 Hin Hs)
      as (-> & _ & _).
    destruct (pool_static _ _ _ _ _ _ Hs Hpool) as (_ & _ & ->).
    unfold DScaleModel.flatten, tf.get_shape_as_list in H.
    unfold Arch.pool in Hpool. rewrite Hpool in H. cbn [rbind] in H.
    match type of H with context [py_index ?l 1] =>
      change (py_index l 1) with (Ok (l !!! 1%nat)) in H;
      change (py_index l 2) with (Ok (l !!! 2%nat)) in H;
      change (py_index l 3) with (Ok (l !!! 3%nat)) in H end.
    cbn in H. eapply op_raises, H. }
  apply rbind_Raise in H as [H|(o & _ & H)].
  { unfold DScaleModel.fully_connected in H.
    apply rfor_Raise in H as (x & s1 & (i & -> & Hi)%In_range & H).
    unfold len in Hi. rewrite Nat2Z.id in Hi.
    by eapply fc_layer_Raise. }
  apply rbind_Raise in H as [H|(o' & _ & H)]; [eapply op_raises, H|done].
Qed.

Lemma init_raises_only_its_checks scale h w fms ks fc orig σ e :
  heap σ !! fc = Some orig ->
  snd (DScaleModel.__init__ scale h w fms ks fc σ) = Raise e ->
  (len ks <> len fms - 1
   /\ e = AssertionError "len(kernel_sizes) must = len(conv_layer_fms) - 1")
  \/ (len ks = len fms - 1
      /\ (e = ConfigurationError \/ is_value_error e)).
Proof.
  intros Hfc.
  destruct (DScaleModel.__init__ scale h w fms ks fc σ) as [σ' r] eqn:E.
  cbn [snd]. intros ->. revert E.
  unfold DScaleModel.__init__. unfold bind at 1. unfold py_assert.
  destruct (Z.eqb_spec (len ks) (len fms - 1)) as [Hlen|Hlen];
    [|intros [= _ <-]; by left].
  intros E. right. split; [done|]. revert E. unfold ret at 1.
  unfold len in Hlen.
  assert (Hl : length fms = S (length ks)) by lia.
  destruct fms as [|c0 fms'] eqn:Efms; [done|]. rewrite <- Efms in *.
  rewrite <- ?Efms.
  set (self := DScaleModel.Config scale h w fms ks fc).
  assert (Hc0 : fms !! O = Some c0) by (by rewrite Efms).
  unfold DScaleModel.define_graph.
  cbn [DScaleModel.conv_layer_fms DScaleModel.kernel_sizes DScaleModel.height
       DScaleModel.width DScaleModel.fc_layer_sizes self].
  rewrite (py_index_lookup fms O c0 Hc0 : py_index fms 0 = Ok c0).
  unfold bind at 1. unfold lift at 1.
  intros [H|(σ1 & input & Hinput & H)]%bind_Raise.
  { apply lift_Raise in H. right. eapply op_raises, H. }
  apply lift_Ok in Hinput as [-> Hinput].
  apply op_Ok in Hinput as [-> [sin Hin]].
  assert (sin = [None; Some h; Some w; Some c0]) as ->.
  { simpl in Hin. destruct (_ && _); by inversion Hin. }
  apply bind_Raise in H as [H|(σ2 & cs & Hcs & H)].
  { apply mfor_Raise in H
      as (x & s1 & σ1 & (i & -> & Hi)%In_range & _ & H);
      [|intros; apply keeps_conv_setup_step].
    unfold len in Hi. rewrite Nat2Z.id in Hi.
    left. by eapply (conv_setup_step_Raise self). }
  apply (conv_setup_loop self) in Hcs
    as (Hh1 & _ & _ & _ & Hlw & Hlb & Hconv); [|done].
  cbn [DScaleModel.conv_layer_fms DScaleModel.kernel_sizes self] in *.
  rewrite (py_index_last_Ok fms 0) in H by (by rewrite Efms).
  unfold bind at 1 in H. unfold lift at 1 in H.
  unfold bind at 1 in H. unfold list_insert0 at 1 in H.
  rewrite Hh1, Hfc in H.
  unfold bind at 1 in H. unfold deref at 1 in H. cbn [heap] in H.
  rewrite lookup_insert_eq in H.
  apply bind_Raise in H as [H|(σ3 & fcp & Hfcp & H)].
  { apply mfor_Raise in H
      as (x & s1 & σ1 & (i & -> & Hi)%In_range & [Hk _] & H);
      [|intros; apply keeps_fc_setup_step].
    left. eapply (fc_setup_step_Raise self _ i); [|  |exact H].
    - rewrite Hk. cbn [heap DScaleModel.fc_layer_sizes self].
      apply lookup_insert_eq.
    - unfold len in Hi. simpl in *. lia. }
  match type of Hfcp with mfor _ _ _ ?σi = _ =>
    apply (fc_setup_loop self σi) in Hfcp as (_ & _ & Hlfc & _);
      [|cbn [heap DScaleModel.fc_layer_sizes self]; apply lookup_insert_eq]
  end.
  apply bind_Raise in H as [H|(σ4 & p & _ & H)]; [|done].
  apply lift_Raise in H. right.
  eapply (generate_predictions_Raise _ ks fms); try exact H; try done; lia.
Qed.

(** X13.  When [fc_layer_sizes] is a list, the only exceptions the
    constructor raises are those of its checks: the [AssertionError] of
    line 33, exactly when the lengths do not match; and, when they match,
    the configuration error of [tfutils.w] and [tfutils.b] or a
    [ValueError] of TensorFlow's shape inference.  No subscript of the
    file is out of range, and no dimension that enters the product of
    line 130 is unknown. *)
Theorem construction_raises_only_its_checks scale h w fms ks fc orig σ e :
  heap σ !! fc = Some orig ->
  snd (DScaleModel.__init__ scale h w fms ks fc σ) = Raise e ->
  (len ks <> len fms - 1
   /\ e = AssertionError "len(kernel_sizes) must = len(conv_layer_fms) - 1")
  \/ (len ks = len fms - 1
      /\ (e = ConfigurationError \/ is_value_error e)).
Proof. apply init_raises_only_its_checks. Qed.

Lemma construction_raises_only_its_checks_witness :
  (len [1] <> len [1; 1] - 1
   /\ ConfigurationError
      = AssertionError "len(kernel_sizes) must = len(conv_layer_fms) - 1")
  \/ (len [1] = len [1; 1] - 1
      /\ (ConfigurationError = ConfigurationError
          \/ is_value_error ConfigurationError)).
Proof.
  apply (construction_raises_only_its_checks 0 4 4 [1; 1] [1] 1%positive
           [0] zero_width_heap ConfigurationError).
  - vm_compute. reflexivity.
  - vm_compute. reflexivity.
Defined.

(** ** The variables a prediction depends on *)

Lemma eval_depends_on_its_variables x vars vars' g :
  (forall id, In id (variable_ids g) -> vars !! id = vars' !! id) ->
  tf.eval x vars g = tf.eval x vars' g.
Proof.
  induction g; intros H; cbn [tf.eval variable_ids] in *;
    try done;
    try (rewrite IHg by done; done);
    try (rewrite IHg1, IHg2
           by (intros; apply H; apply in_or_app; auto); done).
  rewrite (H id) by (by left). done.
Qed.

(** X14.  The predictions of a constructed model depend on the session
    only through the variables the constructor call created: two
    sessions that agree on those give the same predictions, whatever
    they hold for the variables of other models. *)
Theorem predictions_depend_on_the_models_own_variables
        scale h w fms ks fc σ σ' m sess sess' x :
  DScaleModel.__init__ scale h w fms ks fc σ = (σ', Ok m) ->
  (forall id,
     (length (variables σ) <= id < length (variables σ'))%nat ->
     tf.var_values sess !! id = tf.var_values sess' !! id) ->
  snd (DScaleModel.predict m sess x) = snd (DScaleModel.predict m sess' x).
Proof.
  intros H Hagree.
  rewrite (predict_eval _ _ _ _ _ _ _ _ _ sess x H),
    (predict_eval _ _ _ _ _ _ _ _ _ sess' x H).
  cbn [snd].
  apply eval_depends_on_its_variables. intros id Hid.
  apply Hagree. revert Hid.
  apply init_exact in H as (orig & Horig & Hacc & -> & ->).
  apply accepted_spec in Hacc as (Hlen & _).
  rewrite variable_ids_built by done. cbn [variables].
  rewrite !length_app, conv_variables_length, fc_variables_length by done.
  intros Hid%in_seq. simpl in *. lia.
Qed.

Lemma predictions_depend_on_the_models_own_variables_witness :
  snd (DScaleModel.predict (the_model small_model)
         (zero_session (variables (fst small_model))) zero_frame)
  = snd (DScaleModel.predict (the_model small_model) crowded_session
           zero_frame).
Proof.
  apply (predictions_depend_on_the_models_own_variables 0 4 4 [1; 1] [1]
           1%positive caller_heap (fst small_model) (the_model small_model)).
  - vm_compute. reflexivity.
  - intros id Hid. 
    assert (Hl : (id < 4)%nat) by (vm_compute in Hid; lia).
    unfold crowded_session. cbn [tf.var_values].
    rewrite lookup_app_l; [done|]. vm_compute. lia.
Defined.

(** * The claims about failures, layers and predictions *)

(** C4, as stated, fails: construction is not atomic.  With height =
    width = 2 and one 3x3 convolution the height after the convolution
    is 0; the constructor raises when it allocates the first
    fully-connected weight, and by then the caller's list has the
    flattened count 0 at its head and the two variables of the
    convolution are in the graph. *)
Lemma a_failed_construction_leaves_its_effects :
  has_non_positive (Arch.derived_dimensions 2 2 [3] [1; 1]) = true
  /\ exists σ',
       DScaleModel.__init__ 0 2 2 [1; 1] [3] 1%positive caller_heap
       = (σ', Raise ConfigurationError)
       /\ heap caller_heap !! 1%positive = Some [1]
       /\ heap σ' !! 1%positive = Some [0; 1]
       /\ variables caller_heap = []
       /\ variables σ' = [[3; 3; 1; 1]; [1]]
       /\ σ' <> caller_heap.
Proof.
  split; [vm_compute; reflexivity|].
  eexists. split; [vm_compute; reflexivity|].
  repeat split; try (vm_compute; reflexivity).
  intros E. apply (f_equal variables) in E. vm_compute in E. discriminate.
Qed.

(** C4, amended.  When a derived dimension is not positive the
    constructor raises and returns no object.  The exception is the
    assertion's when the lengths do not match, and otherwise the
    configuration error of [tfutils] or a [ValueError] of TensorFlow's
    shape inference.  The failed call is not without effect: it may leave
    one element inserted at the head of the caller's list and the
    variables it had allocated in the graph; it changes no other list and
    removes no variable. *)
Theorem non_positive_dimension_is_rejected scale h w fms ks fc orig σ :
  heap σ !! fc = Some orig ->
  has_non_positive (Arch.derived_dimensions h w ks fms) = true ->
  exists σ' e,
    DScaleModel.__init__ scale h w fms ks fc σ = (σ', Raise e)
    /\ ((len ks <> len fms - 1
         /\ e = AssertionError
                  "len(kernel_sizes) must = len(conv_layer_fms) - 1")
        \/ (len ks = len fms - 1
            /\ (e = ConfigurationError \/ is_value_error e)))
    /\ (forall l, l <> fc -> heap σ' !! l = heap σ !! l)
    /\ (exists ext, variables σ' = variables σ ++ ext)
    /\ (heap σ' !! fc = Some orig
        \/ exists n, heap σ' !! fc = Some (n :: orig)).
Proof.
  intros Horig Hbad.
  pose proof (touches_init scale h w fms ks fc σ) as (Hframe & Hvars & Hfc).
  destruct (DScaleModel.__init__ scale h w fms ks fc σ) as [σ' [m|e]] eqn:E.
  - exfalso. apply init_static in E
      as (orig' & convs & fcs & c0 & _ & _ & _ & _ & _ & _ & _ & _ & _ & _
          & _ & _ & _ & _ & _ & HH & HW & HC & Hhs & Hws & _).
    unfold has_non_positive in Hbad. apply existsb_exists in Hbad
      as (d & Hd & Hle).
    unfold Arch.derived_dimensions in Hd.
    rewrite !in_app_iff in Hd.
    assert (1 <= Arch.conv_out h ks / 2) by (apply Z.div_le_lower_bound; lia).
    assert (1 <= Arch.conv_out w ks / 2) by (apply Z.div_le_lower_bound; lia).
    rewrite Forall_forall in Hhs, Hws.
    destruct Hd as [Hd%list_elem_of_In|[Hd%list_elem_of_In|Hd]].
    + apply Hhs in Hd. lia.
    + apply Hws in Hd. lia.
    + simpl in Hd. unfold Arch.flattened_count in Hd.
      destruct Hd as [<-|[<-|[<-|[]]]]; nia.
  - exists σ', e. cbn [fst] in *. split; [done|]. split.
    { apply (init_raises_only_its_checks scale h w fms ks fc orig σ e);
        [done|by rewrite E]. }
    split; [done|]. split; [done|].
    destruct Hfc as [Hfc|(orig' & n & Ho & Hn)].
    + left. by rewrite Hfc.
    + right. exists n. rewrite Horig in Ho. by injection Ho as <-.
Qed.

Lemma non_positive_dimension_is_rejected_witness :
  exists σ' e,
    DScaleModel.__init__ 0 2 2 [1; 1] [3] 1%positive caller_heap
    = (σ', Raise e)
    /\ ((len [3] <> len [1; 1] - 1
         /\ e = AssertionError
                  "len(kernel_sizes) must = len(conv_layer_fms) - 1")
        \/ (len [3] = len [1; 1] - 1
            /\ (e = ConfigurationError \/ is_value_error e)))
    /\ (forall l, l <> 1%positive ->
          heap σ' !! l = heap caller_heap !! l)
    /\ (exists ext, variables σ' = variables caller_heap ++ ext)
    /\ (heap σ' !! 1%positive = Some [1]
        \/ exists n, heap σ' !! 1%positive = Some (n :: [1])).
Proof.
  apply (non_positive_dimension_is_rejected 0 2 2 [1; 1] [3] 1%positive [1]
           caller_heap).
  - vm_compute. reflexivity.
  - vm_compute. reflexivity.
Defined.

(** ** The layers of a constructed model, by name *)

Lemma fc_params_length specs : forall base,
  length (fc_params base specs) = length specs.
Proof.
  induction specs as [|[a c] specs IH]; intros base; [done|].
  simpl. by rewrite IH.
Qed.

Lemma init_layers scale h w fms ks fc σ σ' m :
  DScaleModel.__init__ scale h w fms ks fc σ = (σ', Ok m) ->
  exists orig,
    let n := Arch.flattened_count h w ks fms in
    let convs :=
      conv_params (length (variables σ)) (Arch.conv_specs ks fms) in
    let fcs :=
      fc_params (length (variables σ) + 2 * length ks)
        (Arch.fc_specs (n :: orig)) in
    heap σ !! fc = Some orig
    /\ heap σ' !! fc = Some (n :: orig)
    /\ DScaleModel.input_frames m
       = tf.Placeholder [None; Some h; Some w; Some (List.hd 0 fms)]
    /\ DScaleModel.preds m
       = Arch.network (DScaleModel.input_frames m) convs n fcs
    /\ Forall2 (Arch.conv_layer_ok (variables σ')) (Arch.conv_specs ks fms)
         convs
    /\ Forall2 (Arch.fc_layer_ok (variables σ')) (Arch.fc_specs (n :: orig))
         fcs.
Proof.
  intros H. apply init_exact in H as (orig & Horig & Hacc & -> & ->).
  apply accepted_spec in Hacc as (Hlen & Hne & Hks & Hfms & Po & Hh & Hw).
  exists orig. cbv zeta. cbn [heap variables].
  split; [done|]. split; [apply lookup_insert_eq|]. split; [done|].
  split; [done|].
  assert (Plast : 0 < List.last fms 0)
    by (apply last_positive; [by destruct fms|done]).
  pose proof (flattened_count_positive h w ks fms Hh Hw Plast) as Pn.
  split.
  - apply conv_params_ok. by apply conv_specs_all_positive.
  - assert (Psizes : Forall (fun d => 0 < d)
                       (Arch.flattened_count h w ks fms :: orig))
      by (by constructor).
    pose proof (fc_params_ok _ (variables σ ++ conv_variables ks fms) []
                  (fc_specs_all_positive _ Psizes)) as H.
    rewrite length_app, conv_variables_length, app_nil_r in H by done.
    unfold fc_variables. by rewrite app_assoc.
Qed.

Lemma pointwise_ext f g t :
  (forall v, f v = g v) -> tf.pointwise f t = tf.pointwise g t.
Proof. intros H. unfold tf.pointwise. f_equal. by apply map_ext. Qed.

(** C7.  The graph of a constructed model ends in the fully-connected
    stack applied to the flattened node, then the clip.  Layer [i] is
    [x @ W + b] on the [i]-th weight and the [i]-th bias the set-up loop
    created, of shapes [[in; out]] and [[out]] for the [i]-th pair of
    the derived sizes, one layer per pair, in index order.  Every layer
    but the last is wrapped in [Relu], the last in [Sigmoid], and no
    other sigmoid occurs in the graph.  A [Relu] node evaluates to
    [max(0, v)] and a [Sigmoid] node to [1 / (1 + e^-v)] of every element
    [v] of its argument. *)
Theorem fully_connected_stack_is_as_specified scale h w fms ks fc σ σ' m :
  DScaleModel.__init__ scale h w fms ks fc σ = (σ', Ok m) ->
  exists x fcs sizes,
    heap σ' !! fc = Some sizes
    /\ Arch.flattened_node (DScaleModel.preds m) = Some x
    /\ DScaleModel.preds m = Arch.clipped (Arch.fc_stack x fcs)
    /\ fcs = fc_params (length (variables σ) + 2 * length ks)
               (Arch.fc_specs sizes)
    /\ length fcs = Nat.pred (length sizes)
    /\ Forall2 (Arch.fc_layer_ok (variables σ')) (Arch.fc_specs sizes) fcs
    /\ (forall hidden wb, fcs = hidden ++ [wb] ->
          DScaleModel.preds m
          = Arch.clipped
              (tf.Sigmoid (Arch.affine (fold_left fc_hidden hidden x) wb)))
    /\ Arch.count_sigmoid (DScaleModel.preds m)
       = match fcs with [] => O | _ => 1%nat end
    /\ (forall x wb, fc_hidden x wb
                     = tf.Relu (tf.Add (tf.MatMul x (fst wb)) (snd wb)))
    /\ (forall feed vars g,
          tf.eval feed vars (tf.Relu g)
          = (t <~ tf.eval feed vars g ;;
             Ok (tf.pointwise (fun v => Rmax 0 v) t)))
    /\ (forall feed vars g,
          tf.eval feed vars (tf.Sigmoid g)
          = (t <~ tf.eval feed vars g ;;
             Ok (tf.pointwise (fun v => (1 / (1 + exp (- v)))%R) t))).
Proof.
  intros H.
  apply init_layers in H as (orig & _ & Hheap & Hin & Hpreds & Hconvs & Hfcs).
  cbv zeta in *.
  set (n := Arch.flattened_count h w ks fms) in *.
  set (convs := conv_params _ _) in *.
  exists (Arch.flat (Arch.pool (Arch.conv_stack (DScaleModel.input_frames m)
                                  convs)) n),
    (fc_params (length (variables σ) + 2 * length ks)
       (Arch.fc_specs (n :: orig))),
    (n :: orig).
  split; [done|]. split; [by rewrite Hpreds, flattened_node_network|].
  split; [done|]. split; [done|].
  split; [by rewrite fc_params_length, fc_specs_length|].
  split; [done|]. split.
  { intros hidden wb E. by rewrite Hpreds, E, <- fc_stack_snoc. }
  split.
  { rewrite Hpreds. unfold Arch.network, Arch.clipped.
    change (Arch.count_sigmoid (tf.ClipByValue ?g _ _))
      with (Arch.count_sigmoid g).
    destruct (fc_stack_counts _ _ _
                (Arch.flat (Arch.pool
                   (Arch.conv_stack (DScaleModel.input_frames m) convs)) n)
                Hfcs) as (_ & _ & ->).
    change (Arch.count_sigmoid (Arch.flat (Arch.pool ?g) _))
      with (Arch.count_sigmoid g).
    destruct (conv_stack_counts _ _ _ (DScaleModel.input_frames m) Hconvs)
      as (_ & -> & _).
    by rewrite Hin. }
  split; [done|]. split.
  - intros feed vars g. cbn [tf.eval].
    destruct (tf.eval feed vars g) as [t|e]; [|done]. cbn [rbind].
    f_equal. apply pointwise_ext. intros v. apply Rmax_comm.
  - done.
Qed.

Lemma fully_connected_stack_is_as_specified_witness :
  exists x fcs sizes,
    let m := the_model two_layer_model in
    heap (fst two_layer_model) !! 1%positive = Some sizes
    /\ Arch.flattened_node (DScaleModel.preds m) = Some x
    /\ DScaleModel.preds m = Arch.clipped (Arch.fc_stack x fcs)
    /\ fcs = fc_params (length (variables two_layer_heap) + 2 * length [1])
               (Arch.fc_specs sizes)
    /\ length fcs = Nat.pred (length sizes)
    /\ Forall2 (Arch.fc_layer_ok (variables (fst two_layer_model)))
         (Arch.fc_specs sizes) fcs
    /\ (forall hidden wb, fcs = hidden ++ [wb] ->
          DScaleModel.preds m
          = Arch.clipped
              (tf.Sigmoid (Arch.affine (fold_left fc_hidden hidden x) wb)))
    /\ Arch.count_sigmoid (DScaleModel.preds m)
       = match fcs with [] => O | _ => 1%nat end
    /\ (forall x wb, fc_hidden x wb
                     = tf.Relu (tf.Add (tf.MatMul x (fst wb)) (snd wb)))
    /\ (forall feed vars g,
          tf.eval feed vars (tf.Relu g)
          = (t <~ tf.eval feed vars g ;;
             Ok (tf.pointwise (fun v => Rmax 0 v) t)))
    /\ (forall feed vars g,
          tf.eval feed vars (tf.Sigmoid g)
          = (t <~ tf.eval feed vars g ;;
             Ok (tf.pointwise (fun v => (1 / (1 + exp (- v)))%R) t))).
Proof.
  apply (fully_connected_stack_is_as_specified 0 4 4 [1; 1] [1] 1%positive
           two_layer_heap (fst two_layer_model)).
  vm_compute. reflexivity.
Defined.

(** The graph of the witness, written out: the derived sizes are
    [[4; 3; 1]], the hidden layer on variables 2 and 3 is rectified and
    the output layer on variables 4 and 5 takes the sigmoid. *)
Lemma two_layer_model_written_out :
  heap (fst two_layer_model) !! 1%positive = Some [4; 3; 1]
  /\ DScaleModel.preds (the_model two_layer_model)
     = tf.ClipByValue
         (tf.Sigmoid
            (tf.Add
               (tf.MatMul
                  (tf.Relu
                     (tf.Add
                        (tf.MatMul
                           (tf.Reshape
                              (tf.MaxPool
                                 (tf.Relu
                                    (tf.Add
                                       (tf.Conv2D
                                          (tf.Placeholder
                                             [None; Some 4; Some 4; Some 1])
                                          (tf.Var 0 [1; 1; 1; 1])
                                          [1; 1; 1; 1] tf.VALID)
                                       (tf.Var 1 [1])))
                                 [1; 2; 2; 1] [1; 2; 2; 1] tf.VALID)
                              [-1; 4])
                           (tf.Var 2 [4; 3]))
                        (tf.Var 3 [3])))
                  (tf.Var 4 [3; 1]))
               (tf.Var 5 [1])))
         (1 # 10) (9 # 10).
Proof. split; vm_compute; reflexivity. Qed.

(** ** Predictions as a function of the batch and the parameters *)

(** The session type has variables that a graph can assign, so that
    running a graph may change the session and a second run may return
    another value: [writing_model] does both. *)
Lemma a_writing_graph_changes_the_session :
  let first := DScaleModel.predict writing_model one_variable_session
                 one_value in
  let second := DScaleModel.predict writing_model (fst first) one_value in
  count_assign (DScaleModel.preds writing_model) = 1%nat
  /\ fst first = tf.Session [tf.Tensor [1] [(0 + 1)%R]]
  /\ fst first <> one_variable_session
  /\ snd first = Ok (tf.Tensor [1] [(0 + 1)%R])
  /\ snd second = Ok (tf.Tensor [1] [(0 + 1 + 1)%R])
  /\ snd second <> snd first.
Proof.
  cbv zeta.
  assert (H1 : DScaleModel.predict writing_model one_variable_session
                 one_value
               = (tf.Session [tf.Tensor [1] [(0 + 1)%R]],
                  Ok (tf.Tensor [1] [(0 + 1)%R])))
    by (lazy; reflexivity).
  rewrite H1. cbn [fst snd].
  assert (H2 : DScaleModel.predict writing_model
                 (tf.Session [tf.Tensor [1] [(0 + 1)%R]]) one_value
               = (tf.Session [tf.Tensor [1] [(0 + 1 + 1)%R]],
                  Ok (tf.Tensor [1] [(0 + 1 + 1)%R])))
    by (lazy; reflexivity).
  rewrite H2. cbn [fst snd].
  split; [reflexivity|]. split; [reflexivity|].
  split; [intros [= E]; lra|]. split; [reflexivity|].
  split; [reflexivity|]. intros [= E]. lra.
Qed.

(** C8.  The graph a constructor call builds has no assigning node.
    Running it leaves the session as it was, so the parameters are
    unchanged after each call and a second call on the session the first
    one returns gives the same result; and the result is a function of
    the batch and of the values of the variables the graph reads: a
    session that holds the same values for those returns the same
    predictions, whatever else it holds. *)
Theorem predict_is_deterministic_and_read_only
        scale h w fms ks fc σ σ' m sess sess' x :
  DScaleModel.__init__ scale h w fms ks fc σ = (σ', Ok m) ->
  (forall id, In id (variable_ids (DScaleModel.preds m)) ->
     tf.var_values sess !! id = tf.var_values sess' !! id) ->
  count_assign (DScaleModel.preds m) = O
  /\ fst (DScaleModel.predict m sess x) = sess
  /\ DScaleModel.predict m (fst (DScaleModel.predict m sess x)) x
     = DScaleModel.predict m sess x
  /\ snd (DScaleModel.predict m sess x) = snd (DScaleModel.predict m sess' x).
Proof.
  intros H Hagree.
  rewrite (predict_eval _ _ _ _ _ _ _ _ _ sess' x H).
  rewrite !(predict_eval _ _ _ _ _ _ _ _ _ sess x H). cbn [fst snd].
  rewrite (predict_eval _ _ _ _ _ _ _ _ _ sess x H).
  split.
  { apply init_exact in H as (orig & _ & _ & _ & ->).
    apply count_assign_built. }
  split; [done|]. split; [done|].
  by apply eval_depends_on_its_variables.
Qed.

Lemma predict_is_deterministic_and_read_only_witness :
  let m := the_model two_layer_model in
  let sess := zero_session (variables (fst two_layer_model)) in
  let sess' :=
    tf.Session (tf.var_values sess ++ repeat (tf.Tensor [1] [1%R]) 2) in
  count_assign (DScaleModel.preds m) = O
  /\ fst (DScaleModel.predict m sess zero_frame) = sess
  /\ DScaleModel.predict m (fst (DScaleModel.predict m sess zero_frame))
       zero_frame
     = DScaleModel.predict m sess zero_frame
  /\ snd (DScaleModel.predict m sess zero_frame)
     = snd (DScaleModel.predict m sess' zero_frame).
Proof.
  cbv zeta.
  apply (predict_is_deterministic_and_read_only 0 4 4 [1; 1] [1] 1%positive
           two_layer_heap (fst two_layer_model)).
  - vm_compute. reflexivity.
  - intros id Hid.
    assert (Hl : (id < 6)%nat) by (vm_compute in Hid; lia).
    cbn [tf.var_values].
    rewrite lookup_app_l; [done|]. vm_compute. lia.
Defined.

(** ** No convolution *)

(** C10, as stated, fails: with [kernel_sizes = []] there is no rest of
    the pipeline.  For 4x4 frames and [conv_layer_fms = [1]] the length
    check passes and the loop of line 115 leaves the tensor of zeros of
    static shape [[None; 1]]; [max_pool] at line 125 rejects its rank,
    [generate_predictions] raises, and the constructor call ends in that
    exception: no model is returned for any frame to be run through. *)
Lemma no_pipeline_without_a_convolution :
  let input := tf.Placeholder [None; Some 4; Some 4; Some 1] in
  (len (@nil Z) =? len [1] - 1) = true
  /\ DScaleModel.convolutions input (tf.shape0 input) [] []
     = Ok (tf.Zeros input [1])
  /\ tf.static_shape (tf.Zeros input [1]) = Ok [None; Some 1]
  /\ DScaleModel.generate_predictions input (tf.shape0 input) [] []
       [tf.Var 0 [4; 1]] [tf.Var 1 [1]]
     = Raise (ValueError "max_pool: Shape must be rank 4")
  /\ snd (DScaleModel.__init__ 0 4 4 [1] [] 1%positive caller_heap)
     = Raise (ValueError "max_pool: Shape must be rank 4")
  /\ forall σ' m,
       DScaleModel.__init__ 0 4 4 [1] [] 1%positive caller_heap <> (σ', Ok m).
Proof.
  cbv zeta. split; [reflexivity|]. split; [vm_compute; reflexivity|].
  split; [vm_compute; reflexivity|]. split; [vm_compute; reflexivity|].
  assert (H : snd (DScaleModel.__init__ 0 4 4 [1] [] 1%positive caller_heap)
              = Raise (ValueError "max_pool: Shape must be rank 4"))
    by (vm_compute; reflexivity).
  split; [exact H|]. intros σ' m E. rewrite E in H. discriminate H.
Qed.

(** C10, amended.  With [kernel_sizes = []] the loop of line 115 runs no
    iteration, whatever the input node: the tensor handed to the pooling
    step is the tensor of zeros of line 110, whose static shape is the
    batch dimension of the input followed by 1.  The pooling step rejects
    it for its rank, so [generate_predictions] raises whatever the
    fully-connected parameters are, and every constructor call with
    [kernel_sizes = []] ends in an exception. *)
Theorem no_convolution_feeds_zeros_to_pooling
        scale h w fms fc σ input d rest fc_ws fc_bs :
  tf.static_shape input = Ok (d :: rest) ->
  DScaleModel.convolutions input (tf.shape0 input) [] []
  = Ok (tf.Zeros input [1])
  /\ tf.static_shape (tf.Zeros input [1]) = Ok [d; Some 1]
  /\ DScaleModel.pooling (tf.Zeros input [1])
     = Raise (ValueError "max_pool: Shape must be rank 4")
  /\ DScaleModel.generate_predictions input (tf.shape0 input) [] []
       fc_ws fc_bs
     = Raise (ValueError "max_pool: Shape must be rank 4")
  /\ exists e, snd (DScaleModel.__init__ scale h w fms [] fc σ) = Raise e.
Proof.
  intros Hin.
  assert (Hconv : DScaleModel.convolutions input (tf.shape0 input) [] []
                  = Ok (tf.Zeros input [1])).
  { unfold DScaleModel.convolutions, tf.shape0, tf.zeros.
    rewrite (op_static _ _ (static_shape_zeros _ _ _ Hin)).
    cbn [rbind]. change (range (len (@nil tf.graph))) with (@nil Z).
    reflexivity. }
  split; [exact Hconv|].
  split; [exact (static_shape_zeros _ _ _ Hin)|].
  split; [exact (pooling_zeros_raises _ _ _ Hin)|].
  split.
  { unfold DScaleModel.generate_predictions. rewrite Hconv. cbn [rbind].
    by rewrite (pooling_zeros_raises _ _ _ Hin). }
  destruct (DScaleModel.__init__ scale h w fms [] fc σ) as [σ' [m|e]] eqn:E.
  - apply init_static in E as (? & ? & ? & ? & _ & Hne & _). done.
  - by exists e.
Qed.

Lemma no_convolution_feeds_zeros_to_pooling_witness :
  let input := tf.Placeholder [None; Some 4; Some 4; Some 1] in
  DScaleModel.convolutions input (tf.shape0 input) [] []
  = Ok (tf.Zeros input [1])
  /\ tf.static_shape (tf.Zeros input [1]) = Ok [None; Some 1]
  /\ DScaleModel.pooling (tf.Zeros input [1])
     = Raise (ValueError "max_pool: Shape must be rank 4")
  /\ DScaleModel.generate_predictions input (tf.shape0 input) [] []
       [tf.Var 0 [4; 1]] [tf.Var 1 [1]]
     = Raise (ValueError "max_pool: Shape must be rank 4")
  /\ exists e,
       snd (DScaleModel.__init__ 0 4 4 [1] [] 1%positive caller_heap)
       = Raise e.
Proof.
  cbv zeta.
  apply (no_convolution_feeds_zeros_to_pooling 0 4 4 [1] 1%positive
           caller_heap (tf.Placeholder [None; Some 4; Some 4; Some 1])
           None [Some 4; Some 4; Some 1]).
  vm_compute. reflexivity.
Defined.

(** ** The width of the predictions *)

(** C1.  The docstring of [generate_predictions] (line 107) promises
    predictions of shape [[batch_size x 1]]; the width the code gives is
    the last entry of the caller's [fc_layer_sizes].  For
    [DScaleModel(0, 4, 4, [1, 1], [1], [2])] the constructor succeeds,
    the static shape of [preds] is [[None; 2]], and running it on one
    4x4 frame returns a tensor of shape [[1; 2]]. *)
Lemma prediction_shape_follows_the_last_width :
  (exists m, snd two_wide_model = Ok m)
  /\ heap (fst two_wide_model) !! 1%positive = Some [4; 2]
  /\ tf.static_shape (DScaleModel.preds (the_model two_wide_model))
     = Ok [None; Some 2]
  /\ (t <~ snd (DScaleModel.predict (the_model two_wide_model)
                  (zero_session (variables (fst two_wide_model)))
                  zero_frame) ;;
      Ok (tf.shape t))
     = Ok [1; 2].
Proof.
  split; [eexists; vm_compute; reflexivity|].
  split; [vm_compute; reflexivity|].
  split; [vm_compute; reflexivity|].
  lazy. reflexivity.
Qed.
